(* ===== verification/_CoqProject ===== *)
-Q . S2P
Prelude.v
PyStr.v
PyDict.v
Knowledge.v
Difflib.v
DifflibMatch.v
Resolver.v
SpeechQueue.v
Shell.v
Session.v
Window.v
ChatBox.v
