(* ===== verification/Prelude.v ===== *)
(** * Smart First-Aid Assistant: a verification development

    The program, [src/offline_agent.py], is a Tk desktop assistant that
    answers first-aid questions typed or spoken by the user and reads the
    answer aloud.  Its parts and how they interact:
    - the knowledge store (lines 12-41): three text files are read once at
      start-up into three module-level dicts, [knowledge] (title ->
      instructions), [keywords] (title -> trigger keys) and [small_talk]
      (trigger -> reply); they are only read afterwards;
    - the resolver [get_response] (lines 46-66): small-talk trigger, then
      keyword, then [difflib.get_close_matches] on the titles, then a fixed
      default message;
    - the speech queue (lines 71-96, 178-179): a [queue.Queue] consumed by
      one daemon thread that plays each text with [pyttsx3]; [speak] puts a
      text, closing the window puts [None];
    - the window's handlers (lines 101-141): [ask_question] (the entry
      box), [voice_input]'s thread [_listen] (microphone and Google
      recognition), [display_text] (the chat box);
    - the window (lines 146-183): the widgets, the microphone menu built
      from the devices listed, the bindings of Return, "Ask", "Speak",
      the menu and the close button ([on_closing]), and [root.mainloop()].
    A question flows event -> handler -> [get_response] -> [display_text]
    and [speak] -> queue -> worker.

    Files, in dependency order ([_CoqProject]):
    - [Prelude] (this file): the scope [py_scope] with the notation
      [for_return x in l do e] for Python's early-return loop ([first_some]),
      Python's [max] ([py_max], first maximum kept), the hint databases [py]
      and [py_rw], the tactics [vm_refl] and [vm_forall], and their lemmas.
    - [PyStr] (Module [PyStr]): the [str] operations the code calls, on
      Latin-1 strings: [lower], [strip], [in], [split], [split(sep, 1)],
      [join], [replace], [<], and file line iteration.
    - [PyDict] (Module [PyDict]): the insertion-ordered dict as an
      association list ([dict_get], [dict_setitem], [dict_build] for a loop
      of assignments), with a refinement to stdpp's [gmap] ([dict_abs]).
    - [Knowledge] (Module [Knowledge]): the record [store] of the three
      tables and the loaders [load_knowledge], [load_keywords],
      [load_small_talk] and [load], one definition per loop body and loop.
    - [Difflib] (Module [Difflib]): CPython's [SequenceMatcher]
      ([find_longest_match], the work list of [get_matching_blocks],
      [ratio], [quick_ratio], [real_quick_ratio], with [autojunk]) and
      [get_close_matches] with [n = 1]; scores are exact fractions.
    - [DifflibMatch] (Module [DifflibMatch]): what the matching blocks
      match (slices of both sequences, each element used once), hence
      [ratio() <= quick_ratio()] through stdpp's multisets, and
      [ratio() == 1.0] exactly for equal strings.
    - [Resolver] (Module [Resolver]): [get_response] as its three steps
      [small_talk_step], [keyword_step], [fuzzy_step] and the default.
    - [SpeechQueue] (Module [SpeechQueue]): the state of the queue and the
      worker, [speak], [on_closing], the worker's two steps, and the step
      relation [sq_step] that interleaves producers and worker.
    - [Shell] (Module [Shell]): the chat box, the entry box and the queue as
      a record; [ask_question] and [voice_listen] in a Section whose
      variable [respond] is the resolver's interface, instantiated with
      [get_response] ([ask_question_store], [voice_listen_store]).
    - [Session] (Module [Session]): the threads of the window interleaved
      statement by statement: the Tk main thread inside [ask_question]
      ([ui_pc]), any number of [_listen] threads ([voice_pc]) and the
      speech worker, as the step relation [sstep]; schedules of steps as
      executable action lists ([run]); the answers shown are read back from
      the chat box.
    - [Window] (Module [Window]): the window as built ([build_window]: the
      menu's options [mic_options]), its events and their handlers
      ([dispatch], [select_mic], [close_window]), the main loop ([handle]:
      one event at a time, between handlers, until [root.destroy()]), and
      the step relation [wstep] of the whole program: events, the main
      thread, the voice threads (which read [mic_var] when they start and
      die at their next Tk call once the window is destroyed), the worker.
    - [ChatBox] (Module [ChatBox]): the chat box widget (its contents and
      its [state] option) and [display_text] as its four Tk calls, one step
      each, with any number of calls in flight on different threads
      ([cstep]); a disabled widget ignores an insertion, as Tk does.

    What the theorems show:
    - the resolver's layers, each on every branch: the first small-talk
      trigger in file order wins; otherwise the first keyword in file order
      gives its topic's instructions or the "not found" message; otherwise
      the topic with the best [(ratio, title)] at ratio 0.4 or more;
      otherwise the default; [get_response] never raises, ignores case, and
      only answers with a reply, an instruction text or a fixed message;
    - [get_close_matches] is characterised exactly, and its two cheap
      tests never change its result (it equals the ratio-only reference);
      the matching-blocks loop terminates, its blocks are real matches that
      use each element once; the first test at cutoff 0.4 passes exactly
      when neither length exceeds four times the other; [ratio] lies below
      1, and is 1 exactly for
      equal strings (below the [autojunk] length), so a question that is a
      topic title gets that topic;
    - the loaders: the store is well formed (unique keys, lower-cased
      titles and triggers, stripped strings), the tuple unpacking of a line
      never raises; a record with a title alone gets empty instructions,
      and a blank file or an empty section gives a topic whose title and
      instructions are empty, which answers an empty question;
      [str.split]/[str.join] round trip;
      dict assignment refines map insertion;
    - the speech queue, for every interleaving: FIFO playback (the texts
      played are a prefix of the texts put), nothing put after the stop
      signal is played, a waiting worker drains the queue up to the signal
      and exits, and a playback exception kills the worker for good;
    - the handlers: a blank entry is ignored (a blank transcription is
      not); a question is shown, answered, shown, spoken in that order and
      the entry cleared; a failed voice capture shows a status line and
      speaks nothing;
    - the threads together: run alone, the statements of [ask_question]
      give the atomic handler of [Shell]; every answer shown is spoken
      exactly once and
      nothing else is, in the order shown when one request is in flight at
      a time, while a voice request and a typed one can be spoken in the
      opposite order of their display;
    - the window: until it is closed, its runs are runs of [Session], so
      the theorems above hold for the program as built; every run, closing
      included, keeps the speech queue in a state of [sq_step], so its
      theorems hold for the whole program, and puts only the resolver's
      answers on it (no status line is ever spoken); a voice thread only
      ever opens the default microphone or a listed one other than the
      first; a
      question typed into an idle window is shown, answered and spoken by
      the worker (the components composed); an answer shown just before
      closing is never spoken;
    - the chat box: a [display_text] that no other call overlaps is the
      one-step [display_text] of [Shell] and [Session]; in every
      interleaving the box is read-only when no call is in flight and holds
      only lines asked for; from every idle state, two overlapping calls
      can lose the line of the call that enabled the widget second;
    - and what does not match the specification (see PROJECT.json
      "findings"): keyword topics are not lower-cased (a capitalised topic
      always answers "not found"), ties in the fuzzy
      match go to the largest title, lines without ":" are skipped, a
      trailing comma makes a keyword that matches everything, a title alone
      gives empty instructions, the worker does not survive an engine
      error, menu index 0 opens the default microphone, a blank
      transcription is answered, an empty knowledge file or section gives
      an empty topic instead of a parse error, an answer shown at closing
      is lost,
      overlapping [display_text] calls lose a line.

    Bounds and fuel: [gmb_loop] runs on fuel [2 * len(a) + 1], the weight
    of its initial work list, which every iteration decreases
    ([gmb_loop_terminates]); [ext_fwd] runs on its loop variant
    [ahi - (i + k)]; [worker_run] on [length ts + 1] rounds for [ts] texts
    before the stop signal ([worker_drains]).  [py_split] recurses by
    well-founded recursion on the length (Equations).

    Not modelled: the layout of the widgets (title, geometry, [pack],
    fonts, labels: no effect on the behaviour); the enumeration of the
    microphones (an input of [build_window]); file I/O (the loaders take
    the decoded text); [pyttsx3] and [speech_recognition]: the engine and
    recognizer built at lines 71-73 (speaking rate 150) are library
    objects whose only effect is through an oracle, which says whether a
    playback raises and what a capture yields; characters above U+00FF;
    thread switches inside a Tk call or inside [get_response] (which
    writes nothing shared); the overlap of [display_text] calls in
    [Session] and [Window], which take it as one step ([ChatBox] models
    it on its own); Tk's behaviour when [display_text] runs outside the
    main thread (taken to work while the window exists, and to raise once
    it is destroyed); and the process exit that kills the daemon threads
    after [mainloop] returns (a run may stop at any point, so the
    theorems about reachable states cover it). *)

From stdpp Require Import base list sets strings.
From Stdlib Require Import Lia.

Declare Scope py_scope.
Delimit Scope py_scope with py.

Create HintDb py.
Create Rewrite HintDb py_rw.

(** Closing a goal about concrete data by evaluation: [vm_refl] for an
    equation, [vm_forall] for a [Forall] of equations. *)
Ltac vm_refl := vm_compute; reflexivity.
Ltac vm_forall := vm_compute; repeat constructor.

(** ** Python's early-return loop

    [for x in xs: if cond(x): return e(x)] returns the value computed for the
    first element whose test fires, and falls through when none does.  It is
    [first_some] of the function that returns [Some e(x)] when the test fires. *)
Fixpoint first_some {A B} (f : A -> option B) (l : list A) : option B :=
  match l with
  | [] => None
  | x :: l' =>
      match f x with
      | Some b => Some b
      | None => first_some f l'
      end
  end.

Notation "'for_return' x 'in' l 'do' e" := (first_some (fun x => e) l)
  (at level 10, x binder, l at level 100, e at level 200) : py_scope.

(** ** Python's [max] over an iterable

    CPython's [max] keeps the running maximum and replaces it only when the
    next item is strictly greater, so among equal maxima the first wins. *)
Fixpoint py_max_from {A} (gt : A -> A -> bool) (best : A) (l : list A) : A :=
  match l with
  | [] => best
  | x :: l' => py_max_from gt (if gt x best then x else best) l'
  end.

Definition py_max {A} (gt : A -> A -> bool) (l : list A) : option A :=
  match l with
  | [] => None
  | x :: l' => Some (py_max_from gt x l')
  end.

Section FirstSome.
Context {A B : Type} (f : A -> option B).

Lemma first_some_app l1 l2 :
  first_some f (l1 ++ l2) =
    match first_some f l1 with Some b => Some b | None => first_some f l2 end.
Proof. induction l1 as [|x l1 IH]; simpl; [done|]. by destruct (f x). Qed.

Lemma first_some_None l :
  first_some f l = None <-> Forall (fun x => f x = None) l.
Proof.
  induction l as [|x l IH]; simpl; [split; auto|].
  rewrite Forall_cons. destruct (f x); [split; [done|intros [? _]; done]|].
  rewrite IH. naive_solver.
Qed.

Lemma first_some_Some l b :
  first_some f l = Some b <->
  exists l1 x l2, l = l1 ++ x :: l2 /\ Forall (fun y => f y = None) l1 /\ f x = Some b.
Proof.
  split.
  - induction l as [|x l IH]; simpl; [done|].
    destruct (f x) eqn:E.
    + intros [= ->]. exists [], x, l. auto.
    + intros (l1 & y & l2 & -> & ? & ?)%IH. exists (x :: l1), y, l2. auto.
  - intros (l1 & x & l2 & -> & Hn & Hx).
    rewrite first_some_app. apply first_some_None in Hn as ->. simpl. by rewrite Hx.
Qed.

Lemma first_some_elem l b :
  first_some f l = Some b -> exists x, x ∈ l /\ f x = Some b.
Proof.
  intros (l1 & x & l2 & -> & _ & Hx)%first_some_Some.
  exists x. split; [set_solver|done].
Qed.

(** The first element whose test fires determines the result. *)
Lemma first_some_first l1 x l2 b :
  Forall (fun y => f y = None) l1 -> f x = Some b ->
  first_some f (l1 ++ x :: l2) = Some b.
Proof. intros ??. apply first_some_Some. eauto 10. Qed.
End FirstSome.

#[export] Hint Resolve first_some_first : py.
#[export] Hint Rewrite @first_some_app : py_rw.

Section PyMax.
Context {A : Type} (gt : A -> A -> bool).

Lemma py_max_from_elem best l : py_max_from gt best l ∈ best :: l.
Proof.
  revert best. induction l as [|x l IH]; intros best; simpl; [set_solver|].
  destruct (gt x best); [specialize (IH x)|specialize (IH best)]; set_solver.
Qed.

Lemma py_max_elem l m : py_max gt l = Some m -> m ∈ l.
Proof. destruct l; simpl; [done|]. intros [= <-]. apply py_max_from_elem. Qed.

Lemma py_max_None l : py_max gt l = None <-> l = [].
Proof. by destruct l. Qed.

(** The invariant of the running maximum: no item seen so far is strictly
    greater.  It needs [gt] to be a strict order on the items at hand
    (those satisfying [P]). *)
Context (P : A -> Prop).
Context (gt_irrefl : forall x, gt x x = false).
Context (gt_trans : forall x y z, P x -> P y -> P z ->
  gt x y = true -> gt y z = true -> gt x z = true).

Lemma py_max_from_mono best l y :
  P y -> P best -> Forall P l ->
  gt y best = false -> gt y (py_max_from gt best l) = false.
Proof.
  revert best. induction l as [|x l IH]; intros best Py Pb Pl Hy; simpl; [done|].
  apply Forall_cons in Pl as [Px Pl].
  apply IH; [done|by destruct (gt x best)|done|]. destruct (gt x best) eqn:Ex; [|done].
  destruct (gt y x) eqn:E; [|done]. by rewrite (gt_trans _ _ _ Py Px Pb E Ex) in Hy.
Qed.

Lemma py_max_from_ge best l y :
  Forall P (best :: l) -> y ∈ best :: l -> gt y (py_max_from gt best l) = false.
Proof.
  revert best. induction l as [|x l IH]; intros best HP Hy; simpl.
  - apply list_elem_of_singleton in Hy as ->. apply gt_irrefl.
  - apply Forall_cons in HP as [Pb [Px Pl]%Forall_cons].
    apply elem_of_cons in Hy as [->|[->|Hy]%elem_of_cons].
    + apply py_max_from_mono; [done|by destruct (gt x best)|done|].
      destruct (gt x best) eqn:E; [|apply gt_irrefl].
      destruct (gt best x) eqn:E'; [|done].
      pose proof (gt_trans _ _ _ Pb Px Pb E' E) as Hbb. by rewrite gt_irrefl in Hbb.
    + apply py_max_from_mono; [done|by destruct (gt x best)|done|].
      destruct (gt x best) eqn:E; [apply gt_irrefl|done].
    + apply IH; [|set_solver]. constructor; [by destruct (gt x best)|done].
Qed.

(** [max] returns an item that no item of the list exceeds. *)
Lemma py_max_spec l m :
  Forall P l -> py_max gt l = Some m -> m ∈ l /\ forall y, y ∈ l -> gt y m = false.
Proof.
  intros HP Hm. split; [by apply py_max_elem|].
  destruct l as [|x l]; [done|]. injection Hm as <-. intros y Hy.
  by apply py_max_from_ge.
Qed.
End PyMax.

(** ** Thread pools updated by index

    A pool of threads is a list updated at the index of the thread that
    steps: [<[k:=x']>] when it goes on, [delete k] when it returns.  What a
    thread contributes to a summary of the pool ([omap f]) is replaced in
    place. *)
Section PoolUpdate.
Context {A B : Type} (f : A -> option B).

Lemma omap_lookup_split l k x :
  l !! k = Some x ->
  omap f l = omap f (take k l) ++ option_list (f x) ++ omap f (drop (S k) l).
Proof.
  intros Hk. rewrite <- (take_drop_middle l k x Hk) at 1. rewrite omap_app. simpl.
  by destruct (f x).
Qed.

Lemma omap_insert_split l k x y :
  l !! k = Some x ->
  omap f (<[k:=y]> l) = omap f (take k l) ++ option_list (f y) ++ omap f (drop (S k) l).
Proof.
  intros Hk. pose proof (lookup_lt_Some _ _ _ Hk).
  rewrite insert_take_drop by done. rewrite omap_app. simpl. by destruct (f y).
Qed.

Lemma omap_delete_split l k :
  omap f (delete k l) = omap f (take k l) ++ omap f (drop (S k) l).
Proof. by rewrite delete_take_drop, omap_app. Qed.
End PoolUpdate.
