(* ===== verification/PyStr.v ===== *)
(** * PyStr: the Python [str] operations that [src/offline_agent.py] calls

    Strings are Stdlib [string]s whose characters are read as the Unicode
    code points U+0000..U+00FF (Latin-1); the program's data files are UTF-8
    text, and characters above U+00FF are outside the model.  Each operation
    follows CPython's definition on that range: [str.lower], [str.strip]
    (no argument), [in], [str.split(sep)], [str.split(sep, 1)], [str.join],
    [str.replace] and the line iteration of a text file. *)

From S2P Require Import Prelude.
From stdpp Require Import base list sets strings.
From Equations Require Import Equations.
From Stdlib Require Import Ascii Lia.

Module PyStr.

Local Open Scope string_scope.
Local Open Scope nat_scope.

(** ** Characters *)

(** [str.isspace] on U+0000..U+00FF: [\t \n \v \f \r] (9-13), the separators
    U+001C..U+001F, the space, NEL (U+0085) and NO-BREAK SPACE (U+00A0). *)
Definition py_isspace (c : ascii) : bool :=
  let n := nat_of_ascii c in
  ((9 <=? n) && (n <=? 13)) || ((28 <=? n) && (n <=? 32)) || (n =? 133) || (n =? 160).

(** [str.lower] on one character: A-Z, and the Latin-1 capitals
    U+00C0..U+00DE except the multiplication sign U+00D7, move up by 32. *)
Definition py_lower_char (c : ascii) : ascii :=
  let n := nat_of_ascii c in
  if ((65 <=? n) && (n <=? 90)) || ((192 <=? n) && (n <=? 222) && negb (n =? 215))
  then ascii_of_nat (n + 32) else c.

(** ** Strings *)

(** The newline character U+000A.  (A Rocq string literal does not read
    backslash escapes, so ["\n"] would be two characters.) *)
Definition NL : string := String "010"%char EmptyString.

Fixpoint py_lower (s : string) : string :=
  match s with
  | EmptyString => EmptyString
  | String c s' => String (py_lower_char c) (py_lower s')
  end.

Fixpoint py_lstrip (s : string) : string :=
  match s with
  | EmptyString => EmptyString
  | String c s' => if py_isspace c then py_lstrip s' else s
  end.

(** Stripping the right end: a character is dropped when it is white space
    and everything after it strips away. *)
Fixpoint py_rstrip (s : string) : string :=
  match s with
  | EmptyString => EmptyString
  | String c s' =>
      let r := py_rstrip s' in
      if py_isspace c && bool_decide (r = "") then "" else String c r
  end.

(** [s.strip()] *)
Definition py_strip (s : string) : string := py_rstrip (py_lstrip s).

(** [needle in hay]: [needle] occurs in [hay] at some position; the empty
    string occurs in every string. *)
Fixpoint py_contains (needle hay : string) : bool :=
  String.prefix needle hay ||
  match hay with
  | EmptyString => false
  | String _ hay' => py_contains needle hay'
  end.

Fixpoint str_drop (n : nat) (s : string) : string :=
  match n, s with
  | 0, _ => s
  | S n', String _ s' => str_drop n' s'
  | S _, EmptyString => EmptyString
  end.


(** [s.split(sep)] for a non-empty [sep] (CPython raises [ValueError] on an
    empty separator; the program only passes the literals [NL +:+ NL], [NL]
    and [","]).  The string is cut at every occurrence of [sep], scanning
    from the left without overlap: when [sep] starts the string the first
    piece is empty, otherwise the first character belongs to the first piece
    of the rest. *)
Equations? py_split (sep : string) (s : string) : list string by wf (String.length s) lt :=
  py_split sep EmptyString := [""];
  py_split sep (String c s') with decide (sep <> "" /\ String.prefix sep (String c s') = true) => {
    | left H := "" :: py_split sep (str_drop (String.length sep) (String c s'));
    | right _ := match py_split sep s' with
                 | p :: ps => String c p :: ps
                 | [] => [String c ""]
                 end }.
Proof.
  all: try (simpl; lia).
  assert (Hd : forall n t, String.length (str_drop n t) = String.length t - n).
  { intros n. induction n; intros []; simpl; auto with lia. }
  rewrite Hd. destruct sep; [naive_solver|]. simpl. lia.
Qed.

(** [s.split(sep, 1)]: at most one cut, at the first occurrence. *)
Fixpoint py_split1 (sep : string) (s : string) : list string :=
  match s with
  | EmptyString => [""]
  | String c s' =>
      if bool_decide (sep <> "") && String.prefix sep s
      then [""; str_drop (String.length sep) s]
      else match py_split1 sep s' with
           | p :: ps => String c p :: ps
           | [] => [String c ""]
           end
  end.

(** [sep.join(l)] *)
Fixpoint py_join (sep : string) (l : list string) : string :=
  match l with
  | [] => ""
  | [x] => x
  | x :: l' => x +:+ sep +:+ py_join sep l'
  end.

(** [s.replace(old, new)] for a non-empty [old]: every occurrence, scanned
    from the left without overlap, is replaced; this is [new.join] of the
    pieces of [s.split(old)]. *)
Definition py_replace (old new s : string) : string := py_join new (py_split old s).

(** [for line in f] over a text file whose decoded contents are [s]: every
    line keeps its [NL] terminator, the last one may lack it, and an empty
    file has no lines. *)
Definition py_file_lines (s : string) : list string :=
  let ps := py_split NL s in
  map (fun p => p +:+ NL) (removelast ps) ++
  match last ps with Some p => if bool_decide (p = "") then [] else [p] | None => [] end.

(** [s < t] on strings: lexicographic on code points, a proper prefix
    being smaller. *)
Fixpoint py_str_lt (s t : string) : bool :=
  match s, t with
  | EmptyString, String _ _ => true
  | String c s', String d t' =>
      if bool_decide (c = d) then py_str_lt s' t'
      else nat_of_ascii c <? nat_of_ascii d
  | _, EmptyString => false
  end.

(** ** Lemmas *)

Lemma str_drop_length n s : String.length (str_drop n s) = String.length s - n.
Proof. revert s; induction n; intros []; simpl; auto with lia. Qed.

Lemma str_drop_append p t : str_drop (String.length p) (p +:+ t) = t.
Proof. induction p; simpl; auto. Qed.

(** stdpp makes [String.append] opaque to [simpl]; these are its equations. *)
Lemma str_app_nil a : "" +:+ a = a.
Proof. done. Qed.

Lemma str_app_cons c a b : String c a +:+ b = String c (a +:+ b).
Proof. done. Qed.

Lemma str_app_assoc a b c : a +:+ (b +:+ c) = (a +:+ b) +:+ c.
Proof. induction a as [|d a IH]; [done|]. by rewrite !str_app_cons, IH. Qed.

Lemma str_app_nil_r a : a +:+ "" = a.
Proof. induction a as [|d a IH]; [done|]. by rewrite str_app_cons, IH. Qed.

Lemma str_app_length a b : String.length (a +:+ b) = String.length a + String.length b.
Proof. induction a as [|d a IH]; [done|]. rewrite str_app_cons. simpl. by rewrite IH. Qed.

#[export] Hint Rewrite str_app_nil str_app_cons str_app_nil_r str_app_length : py_rw.

Lemma py_lower_char_idem c : py_lower_char (py_lower_char c) = py_lower_char c.
Proof. by destruct c as [[] [] [] [] [] [] [] []]. Qed.

Lemma py_lower_idem s : py_lower (py_lower s) = py_lower s.
Proof. induction s as [|c s IH]; simpl; [done|]. by rewrite py_lower_char_idem, IH. Qed.

Lemma py_lower_app s t : py_lower (s +:+ t) = py_lower s +:+ py_lower t.
Proof. induction s as [|c s IH]; simpl; [done|]. by rewrite IH. Qed.

Lemma prefix_spec p s : String.prefix p s = true <-> exists t, s = p +:+ t.
Proof.
  revert s. induction p as [|c p IH]; intros [|d s]; simpl.
  - split; eauto.
  - split; eauto.
  - split; [done|]. by intros [t ?].
  - destruct (ascii_dec c d) as [->|Hne].
    + rewrite IH. split; intros [t Ht]; exists t; [by subst|by injection Ht].
    + split; [done|]. intros [t [= ??]]. done.
Qed.

(** [n in h] holds exactly when [h] is [a + n + b] for some [a] and [b]. *)
Lemma py_contains_spec n h :
  py_contains n h = true <-> exists a b, h = a +:+ n +:+ b.
Proof.
  induction h as [|c h IH]; cbn [py_contains]; rewrite orb_true_iff, prefix_spec.
  - split.
    + intros [[t Ht]|?]; [by exists "", t|done].
    + intros ([|??] & b & Hb); [by left; exists b|done].
  - rewrite IH. split.
    + intros [[t Ht]|(a & b & ->)]; [by exists "", t|]. by exists (String c a), b.
    + intros ([|d a] & b & Hb); [by left; exists b|].
      injection Hb as -> ->. right. eauto.
Qed.

Lemma py_contains_app_l n a b : py_contains n a = true -> py_contains n (a +:+ b) = true.
Proof.
  rewrite !py_contains_spec. intros (x & y & ->). exists x, (y +:+ b).
  by rewrite !str_app_assoc.
Qed.

Lemma py_contains_refl n : py_contains n n = true.
Proof. apply py_contains_spec. exists "", "". by rewrite str_app_nil_r. Qed.

Lemma py_split_nonempty sep s : py_split sep s <> [].
Proof. funelim (py_split sep s); simp py_split; try done. by destruct (py_split sep s'). Qed.

Lemma py_join_cons sep x l : l <> [] -> py_join sep (x :: l) = x +:+ sep +:+ py_join sep l.
Proof. by destruct l. Qed.

(** Round trip: joining the pieces of [s.split(sep)] with [sep] gives
    back [s], for every separator (an empty one gives [[s]]). *)
Lemma py_split_join sep s : py_join sep (py_split sep s) = s.
Proof.
  funelim (py_split sep s); [done| |].
  - pose proof (proj2 H) as [t Ht]%prefix_spec.
    rewrite py_join_cons by apply py_split_nonempty.
    match goal with IH : py_join _ _ = _ |- _ => rewrite IH end.
    by rewrite Ht, str_drop_append.
  - match goal with Hj : py_join _ _ = _ |- _ => rename Hj into IH end.
    pose proof (py_split_nonempty sep s') as Hne.
    destruct (py_split sep s') as [|p [|q ps]]; [done|by subst|].
    by rewrite <- IH.
Qed.

Lemma prefix_app p a b : String.prefix p a = true -> String.prefix p (a +:+ b) = true.
Proof.
  rewrite !prefix_spec. intros [t ->]. exists (t +:+ b). by rewrite str_app_assoc.
Qed.

Lemma py_contains_empty_hay n : n <> "" -> py_contains n "" = false.
Proof. by destruct n. Qed.

Lemma py_contains_cons n c h :
  py_contains n (String c h) = String.prefix n (String c h) || py_contains n h.
Proof. done. Qed.

(** A string without [sep] is one piece: [s.split(sep) == [s]]. *)
Lemma py_split_not_found sep s : py_contains sep s = false -> py_split sep s = [s].
Proof.
  funelim (py_split sep s); [done| |].
  - intros Hc. pose proof (proj2 H) as Hp. rewrite py_contains_cons, Hp in Hc. done.
  - rewrite py_contains_cons, orb_false_iff. intros [_ Hc].
    match goal with IH : py_contains _ _ = false -> _ |- _ => rewrite (IH Hc) end. done.
Qed.

(** [s.split(sep, 1)] on a string that contains [sep] gives exactly two
    pieces, around the first occurrence; the first piece does not contain
    [sep].  So [topic, rest = line.split(":", 1)] never raises. *)
Lemma py_split1_found sep s :
  sep <> "" -> py_contains sep s = true ->
  exists a b, py_split1 sep s = [a; b] /\ s = a +:+ sep +:+ b /\ py_contains sep a = false.
Proof.
  intros Hsep. induction s as [|c s IH]; intros Hin.
  - by rewrite py_contains_empty_hay in Hin.
  - cbn [py_split1]. destruct (String.prefix sep (String c s)) eqn:Hp.
    + rewrite bool_decide_true by done. simpl.
      apply prefix_spec in Hp as [t Ht]. exists "", t.
      rewrite py_contains_empty_hay by done. by rewrite Ht, str_drop_append.
    + rewrite andb_false_r. rewrite py_contains_cons, Hp in Hin.
      destruct (IH Hin) as (a & b & -> & -> & Ha).
      exists (String c a), b. split_and!; [done|done|].
      rewrite py_contains_cons, Ha, orb_false_r.
      destruct (String.prefix sep (String c a)) eqn:Hpa; [|done].
      pose proof (prefix_app _ _ (sep +:+ b) Hpa) as Hc. rewrite str_app_cons in Hc. congruence.
Qed.

(** A string without [sep] is not cut. *)
Lemma py_split1_not_found sep s :
  py_contains sep s = false -> py_split1 sep s = [s].
Proof.
  induction s as [|c s IH]; [done|].
  rewrite py_contains_cons, orb_false_iff. intros [Hp Hs]. cbn [py_split1].
  rewrite Hp, andb_false_r, IH by done. done.
Qed.

Lemma py_str_lt_irrefl s : py_str_lt s s = false.
Proof. induction s as [|c s IH]; simpl; [done|]. by rewrite bool_decide_true. Qed.

Lemma py_str_lt_trans s t u :
  py_str_lt s t = true -> py_str_lt t u = true -> py_str_lt s u = true.
Proof.
  revert t u. induction s as [|c s IH]; intros [|d t] [|e u]; simpl; try done.
  repeat case_bool_decide; subst; rewrite ?Nat.ltb_lt; eauto; try done; lia.
Qed.

(** Stripping white space keeps a character that is not white space. *)
Lemma py_lstrip_keep a c b :
  py_isspace c = false -> exists a', py_lstrip (a +:+ String c b) = a' +:+ String c b.
Proof.
  intros Hc. induction a as [|d a IH]; simpl.
  - rewrite Hc. by exists "".
  - destruct (py_isspace d); [done|]. by exists (String d a).
Qed.

Lemma py_rstrip_keep a c b :
  py_isspace c = false -> exists b', py_rstrip (a +:+ String c b) = a +:+ String c b'.
Proof.
  intros Hc. induction a as [|d a IH]; simpl.
  - rewrite Hc. by exists (py_rstrip b).
  - destruct IH as [b' ->]. exists b'.
    rewrite bool_decide_false; [by rewrite andb_false_r|]. by destruct a.
Qed.

Lemma py_strip_contains_char c s :
  py_isspace c = false -> py_contains (String c "") s = true ->
  py_contains (String c "") (py_strip s) = true.
Proof.
  intros Hc (a & b & ->)%py_contains_spec. unfold py_strip.
  rewrite str_app_cons, str_app_nil. destruct (py_lstrip_keep a c b Hc) as [a' ->].
  destruct (py_rstrip_keep a' c b Hc) as [b' ->].
  apply py_contains_spec. exists a', b'. by rewrite str_app_cons, str_app_nil.
Qed.

Lemma py_str_lt_total s t : s <> t -> py_str_lt s t = false -> py_str_lt t s = true.
Proof.
  revert t. induction s as [|c s IH]; intros [|d t] Hne; simpl; try done.
  case_bool_decide as Hcd; [subst; rewrite bool_decide_true by done|].
  - intros H. apply IH; [congruence|done].
  - rewrite bool_decide_false by congruence. rewrite Nat.ltb_ge, Nat.ltb_lt. intros.
    destruct (decide (nat_of_ascii c = nat_of_ascii d)) as [E|]; [|lia].
    exfalso. apply Hcd. rewrite <- (ascii_nat_embedding c), <- (ascii_nat_embedding d). by rewrite E.
Qed.

(** ** [strip] is idempotent and commutes with [lower] *)

Lemma py_lstrip_idem s : py_lstrip (py_lstrip s) = py_lstrip s.
Proof. induction s as [|c s IH]; simpl; [done|]. destruct (py_isspace c) eqn:E; simpl; [done|by rewrite E]. Qed.

Lemma py_rstrip_idem s : py_rstrip (py_rstrip s) = py_rstrip s.
Proof.
  induction s as [|c s IH]; simpl; [done|].
  destruct (py_isspace c && bool_decide (py_rstrip s = "")) eqn:E; simpl; [done|]. by rewrite IH, E.
Qed.

(** Stripping the right end of a string that starts with a non-space
    character keeps that character first. *)
Lemma py_lstrip_rstrip s : py_lstrip (py_rstrip (py_lstrip s)) = py_rstrip (py_lstrip s).
Proof.
  induction s as [|c s IH]; simpl; [done|]. destruct (py_isspace c) eqn:E; [done|].
  simpl. rewrite E. simpl. by rewrite E.
Qed.

Lemma py_strip_idem s : py_strip (py_strip s) = py_strip s.
Proof. unfold py_strip. by rewrite py_lstrip_rstrip, py_rstrip_idem. Qed.

Lemma py_isspace_lower c : py_isspace (py_lower_char c) = py_isspace c.
Proof. by destruct c as [[] [] [] [] [] [] [] []]. Qed.

Lemma py_lower_empty s : py_lower s = "" <-> s = "".
Proof. by destruct s. Qed.

Lemma py_strip_lower s : py_strip (py_lower s) = py_lower (py_strip s).
Proof.
  unfold py_strip. assert (py_lstrip (py_lower s) = py_lower (py_lstrip s)) as ->.
  { induction s as [|c s IH]; simpl; [done|]. rewrite py_isspace_lower. by destruct (py_isspace c). }
  generalize (py_lstrip s). intros t. induction t as [|c t IH]; simpl; [done|].
  rewrite py_isspace_lower, IH. destruct (py_isspace c); simpl; [|done].
  destruct (decide (py_rstrip t = "")) as [E|E].
  - rewrite !bool_decide_true; [done|done|]. by apply py_lower_empty.
  - rewrite !bool_decide_false; [done|done|]. by rewrite py_lower_empty.
Qed.

End PyStr.
