(* ===== verification/PyDict.v ===== *)
(** * PyDict: Python's insertion-ordered [dict]

    The program keeps its three tables ([knowledge], [keywords],
    [small_talk]) in dicts and iterates them with [.items()] and [.keys()];
    the order of iteration decides which small-talk trigger or keyword wins.
    A dict is therefore an association list in insertion order.  [d[k] = v]
    replaces the value of an existing key in place and appends a new key at
    the end (CPython's dict semantics since 3.7).  The abstraction [dict_abs]
    forgets the order: on well-formed dicts (no key twice) [dict_get] and
    [dict_setitem] refine stdpp's [gmap] lookup and insert. *)

From S2P Require Import Prelude.
From stdpp Require Import base list sets gmap strings.

Module PyDict.

Definition dict (K V : Type) := list (K * V).

(** The abstraction: the finite map with the same lookups. *)
Definition dict_abs {K V : Type} `{Countable K} (d : dict K V) : gmap K V := list_to_map d.

Section Dict.
Context {K V : Type} `{EqDecision K}.

(** [d.get(k)], [None] when absent. *)
Fixpoint dict_get (d : dict K V) (k : K) : option V :=
  match d with
  | [] => None
  | (k', v) :: d' => if decide (k = k') then Some v else dict_get d' k
  end.

(** [d[k] = v] *)
Fixpoint dict_setitem (k : K) (v : V) (d : dict K V) : dict K V :=
  match d with
  | [] => [(k, v)]
  | (k', v') :: d' =>
      if decide (k = k') then (k, v) :: d' else (k', v') :: dict_setitem k v d'
  end.

Definition dict_keys (d : dict K V) : list K := map fst d.

(** A dict never holds a key twice. *)
Definition dict_wf (d : dict K V) : Prop := NoDup (dict_keys d).

(** A dict filled by a loop of assignments [d[k] = v], from empty. *)
Definition dict_build (l : list (K * V)) : dict K V :=
  fold_left (fun d kv => dict_setitem kv.1 kv.2 d) l [].

Lemma dict_setitem_keys_old k v d :
  k ∈ dict_keys d -> dict_keys (dict_setitem k v d) = dict_keys d.
Proof.
  induction d as [|[k' v'] d IH]; simpl; [set_solver|].
  intros Hk. case_decide; simpl; subst; [done|].
  rewrite IH; [done|set_solver].
Qed.

Lemma dict_setitem_keys_new k v d :
  k ∉ dict_keys d -> dict_keys (dict_setitem k v d) = dict_keys d ++ [k].
Proof.
  induction d as [|[k' v'] d IH]; simpl; [done|].
  intros Hk. case_decide; [set_solver|]. simpl. rewrite IH; [done|set_solver].
Qed.

Lemma dict_setitem_wf k v d : dict_wf d -> dict_wf (dict_setitem k v d).
Proof.
  unfold dict_wf. destruct (decide (k ∈ dict_keys d)).
  - by rewrite dict_setitem_keys_old.
  - rewrite dict_setitem_keys_new by done. intros. apply NoDup_app.
    split_and!; [done| |apply NoDup_singleton]. set_solver.
Qed.

Lemma dict_build_wf l : dict_wf (dict_build l).
Proof.
  unfold dict_build. cut (forall d, dict_wf d -> dict_wf (fold_left (fun d kv => dict_setitem kv.1 kv.2 d) l d)).
  { intros H. apply H. constructor. }
  induction l as [|[k v] l IH]; simpl; [done|]. intros d Hd. by apply IH, dict_setitem_wf.
Qed.

Lemma dict_get_setitem k v d k' :
  dict_get (dict_setitem k v d) k' = if decide (k' = k) then Some v else dict_get d k'.
Proof.
  induction d as [|[k0 v0] d IH]; simpl; [done|].
  destruct (decide (k = k0)) as [->|Hne]; simpl.
  - by destruct (decide (k' = k0)).
  - rewrite IH. destruct (decide (k' = k0)), (decide (k' = k)); subst; done.
Qed.

Lemma dict_get_elem d k v : dict_get d k = Some v -> (k, v) ∈ d.
Proof.
  induction d as [|[k' v'] d IH]; simpl; [done|].
  case_decide; [intros [= ->]; subst; left|intros; right; auto].
Qed.

Lemma dict_get_None d k : dict_get d k = None <-> k ∉ dict_keys d.
Proof.
  induction d as [|[k' v'] d IH]; simpl; [set_solver|].
  case_decide; [subst; set_solver|]. rewrite IH. set_solver.
Qed.

Lemma dict_elem_get d k v : dict_wf d -> (k, v) ∈ d -> dict_get d k = Some v.
Proof.
  unfold dict_wf. induction d as [|[k' v'] d IH]; simpl; [set_solver|].
  intros [Hk Hnd]%NoDup_cons. intros [[= -> ->]|Hin]%elem_of_cons.
  - by rewrite decide_True.
  - rewrite decide_False; [by apply IH|].
    intros ->. apply Hk. apply list_elem_of_fmap. exists (k', v). done.
Qed.

Lemma dict_setitem_elem k v d kv : kv ∈ dict_setitem k v d -> kv = (k, v) \/ kv ∈ d.
Proof.
  induction d as [|[k' v'] d IH]; simpl; [set_solver|].
  case_decide; [set_solver|]. intros [->|Hin]%elem_of_cons; [set_solver|].
  destruct (IH Hin); set_solver.
Qed.

(** A dict filled by assignments holds only pairs that were assigned: a
    property of every assigned pair holds of every entry. *)
Lemma dict_build_Forall (P : K * V -> Prop) l : Forall P l -> Forall P (dict_build l).
Proof.
  unfold dict_build. cut (forall d, Forall P d -> Forall P l ->
    Forall P (fold_left (fun d kv => dict_setitem kv.1 kv.2 d) l d)).
  { intros H Hl. by apply H. }
  induction l as [|[k v] l IH]; intros d Hd Hl; simpl; [done|].
  apply Forall_cons in Hl as [Hkv Hl]. apply IH; [|done].
  apply Forall_forall. intros kv [->|Hin]%dict_setitem_elem; [done|].
  by eapply Forall_forall in Hd.
Qed.

(** Every key has a value. *)
Lemma dict_keys_get d k : k ∈ dict_keys d -> exists v, dict_get d k = Some v.
Proof.
  intros Hk. destruct (dict_get d k) eqn:E; [eauto|]. by apply dict_get_None in E.
Qed.
End Dict.

(** ** Refinement: a well-formed dict is a finite map *)
Section Abs.
Context {K V : Type} `{Countable K}.

Lemma dict_abs_lookup (d : dict K V) (k : K) : dict_wf d -> dict_abs d !! k = dict_get d k.
Proof.
  intros Hwf. unfold dict_abs. destruct (dict_get d k) eqn:E.
  - apply elem_of_list_to_map_1; [done|]. by apply dict_get_elem.
  - apply not_elem_of_list_to_map_1. apply dict_get_None in E. done.
Qed.

(** On a dict without duplicate keys, [d[k] = v] refines the finite
    map insert [<[k:=v]>]. *)
Lemma dict_abs_setitem (k : K) (v : V) (d : dict K V) :
  dict_wf d -> dict_abs (dict_setitem k v d) = <[k:=v]> (dict_abs d).
Proof.
  intros Hwf. apply map_eq. intros k'.
  rewrite dict_abs_lookup by (by apply dict_setitem_wf).
  rewrite dict_get_setitem, lookup_insert, dict_abs_lookup by done.
  repeat case_decide; congruence.
Qed.
End Abs.

(** ** Witnesses *)

Lemma dict_abs_setitem_witness :
  dict_abs (dict_setitem "b" 2 [("a", 1)]) = <["b" := 2]> (dict_abs [("a", 1)] : gmap string nat).
Proof.
  apply dict_abs_setitem. unfold dict_wf, dict_keys. simpl. repeat constructor. set_solver.
Defined.

End PyDict.
