(* ===== verification/Knowledge.v ===== *)
(** * Knowledge: the knowledge store and its three loaders

    [src/offline_agent.py] lines 12-41 read three text files once at start-up
    into three module-level dicts:
    - [knowledge]: topic -> instructions, from [data/first_aid.txt], records
      separated by a blank line, the first line of a record its title;
    - [keywords]: topic -> list of trigger keys, from [data/keywords.txt],
      one [topic: key1, key2, ...] per line;
    - [small_talk]: trigger -> canned reply, from [data/small_talk.txt], one
      [trigger: reply] per line.
    The file contents are given as the decoded text (the [open] and [read]
    calls are I/O and are not modelled).  Each loader is a loop of dict
    assignments, so it is [dict_build] of the list of the pairs it assigns;
    a line without [":"] is skipped by the [if ":" in line] guard. *)

From S2P Require Import Prelude PyStr PyDict.
From stdpp Require Import base list sets strings.
From Stdlib Require Import Ascii.

Module Knowledge.
Import PyStr PyDict.

Local Open Scope string_scope.

(** The three tables of the program, built once and only read afterwards. *)
Record store := mkStore {
  knowledge : dict string string;
  keywords : dict string (list string);
  small_talk : dict string string;
}.

(** Lines 17-19, one record of the knowledge file:
    [lines = section.strip().split("\n")],
    [topic = lines[0].replace(":", "").strip().lower()],
    [content = "\n".join(lines[1:]).strip()].
    [str.split] never returns an empty list ([py_split_nonempty]), so
    [lines[0]] never raises and the last branch is dead. *)
Definition knowledge_section (section : string) : string * string :=
  match py_split NL (py_strip section) with
  | l0 :: rest => (py_lower (py_strip (py_replace ":" "" l0)), py_strip (py_join NL rest))
  | [] => ("", "")
  end.

(** Lines 15-20: [for section in knowledge_data.strip().split("\n\n"):
    knowledge[topic] = content]. *)
Definition load_knowledge (knowledge_data : string) : dict string string :=
  dict_build (map knowledge_section (py_split (NL +:+ NL) (py_strip knowledge_data))).

(** Lines 28-31, one line of the keywords file.  [None] when the guard
    [if ":" in line] fails.  When it holds, [line.strip().split(":", 1)] has
    exactly two pieces ([keyword_line_unpacks]), so the tuple unpacking
    never raises and the last branch is dead. *)
Definition keyword_line (line : string) : option (string * list string) :=
  if py_contains ":" line then
    match py_split1 ":" (py_strip line) with
    | [topic; key_str] => Some (py_strip topic, map py_strip (py_split "," key_str))
    | _ => None
    end
  else None.

(** Lines 25-31: [for line in f: ... keywords[topic.strip()] = keys]. *)
Definition load_keywords (keywords_data : string) : dict string (list string) :=
  dict_build (omap keyword_line (py_file_lines keywords_data)).

(** Lines 39-41, one line of the small-talk file. *)
Definition small_talk_line (line : string) : option (string * string) :=
  if py_contains ":" line then
    match py_split1 ":" (py_strip line) with
    | [topic; response] => Some (py_lower (py_strip topic), py_strip response)
    | _ => None
    end
  else None.

(** Lines 36-41: [small_talk[topic.strip().lower()] = response.strip()]. *)
Definition load_small_talk (small_talk_data : string) : dict string string :=
  dict_build (omap small_talk_line (py_file_lines small_talk_data)).

(** Lines 12-41 together: the store the rest of the program reads. *)
Definition load (knowledge_data keywords_data small_talk_data : string) : store :=
  mkStore (load_knowledge knowledge_data) (load_keywords keywords_data)
          (load_small_talk small_talk_data).

(** The store is well formed when no table holds a key twice. *)
Definition store_wf (st : store) : Prop :=
  dict_wf (knowledge st) /\ dict_wf (keywords st) /\ dict_wf (small_talk st).

(** The store as [get_response] reads it: no key twice, titles and
    triggers lower-case, and every string stored stripped. *)
Definition store_ok (st : store) : Prop :=
  store_wf st /\
  Forall (fun tc : string * string => py_lower tc.1 = tc.1 /\ (py_strip tc.1 = tc.1 /\ py_strip tc.2 = tc.2))
    (knowledge st) /\
  Forall (fun tk : string * list string =>
            py_strip tk.1 = tk.1 /\ Forall (fun k => py_strip k = k) tk.2) (keywords st) /\
  Forall (fun tr : string * string => py_lower tr.1 = tr.1 /\ (py_strip tr.1 = tr.1 /\ py_strip tr.2 = tr.2))
    (small_talk st).

(** ** Properties of the loaders *)

(** The three tables never hold a key twice, whatever the files contain
    (a repeated title or trigger overwrites the earlier value). *)
Lemma load_wf kd kw stt : store_wf (load kd kw stt).
Proof. split_and!; apply dict_build_wf. Qed.

(** The knowledge titles and the small-talk triggers are stored
    lower-cased, so [get_response] can compare them with the lower-cased
    input. *)
Lemma load_keys_lower kd stt :
  Forall (fun tc : string * string => py_lower tc.1 = tc.1) (load_knowledge kd) /\
  Forall (fun tr : string * string => py_lower tr.1 = tr.1) (load_small_talk stt).
Proof.
  split; apply dict_build_Forall.
  - apply Forall_forall. intros tc (sec & -> & _)%list_elem_of_fmap.
    unfold knowledge_section. destruct (py_split _ _); simpl; [done|]. apply py_lower_idem.
  - apply Forall_forall. intros tr (line & _ & Hl)%list_elem_of_omap.
    unfold small_talk_line in Hl. destruct (py_contains _ _); [|done].
    destruct (py_split1 _ _) as [|? [|? [|]]]; try done. injection Hl as <-. apply py_lower_idem.
Qed.

(** Every title, trigger, topic, key, instruction text and reply the
    loaders store is stripped: it has no white space at either end. *)
Lemma load_entries_stripped kd kw stt :
  Forall (fun tc : string * string => py_strip tc.1 = tc.1 /\ py_strip tc.2 = tc.2)
    (load_knowledge kd) /\
  Forall (fun tk : string * list string =>
            py_strip tk.1 = tk.1 /\ Forall (fun k => py_strip k = k) tk.2) (load_keywords kw) /\
  Forall (fun tr : string * string => py_strip tr.1 = tr.1 /\ py_strip tr.2 = tr.2)
    (load_small_talk stt).
Proof.
  split_and!; apply dict_build_Forall, Forall_forall.
  - intros tc (sec & -> & _)%list_elem_of_fmap. unfold knowledge_section.
    destruct (py_split _ _); simpl; [done|]. by rewrite py_strip_lower, !py_strip_idem.
  - intros tk (line & _ & Hl)%list_elem_of_omap. unfold keyword_line in Hl.
    destruct (py_contains _ _); [|done]. destruct (py_split1 _ _) as [|? [|? [|]]]; try done.
    injection Hl as <-. simpl. split; [apply py_strip_idem|]. apply Forall_fmap, Forall_forall.
    intros k _. apply py_strip_idem.
  - intros tr (line & _ & Hl)%list_elem_of_omap. unfold small_talk_line in Hl.
    destruct (py_contains _ _); [|done]. destruct (py_split1 _ _) as [|? [|? [|]]]; try done.
    injection Hl as <-. simpl. by rewrite py_strip_lower, !py_strip_idem.
Qed.

(** C16: whatever the three files contain, the store built at start-up is
    well formed: no table holds a key twice, the knowledge titles and the
    small-talk triggers are lower-case, and every title, trigger, topic,
    key, instruction text and reply is stripped. *)
Theorem load_store_ok kd kw stt : store_ok (load kd kw stt).
Proof.
  destruct (load_keys_lower kd stt) as [Hk Hs]. destruct (load_entries_stripped kd kw stt) as (Hk' & Hw & Hs').
  split_and!; [apply load_wf| |done|]; apply Forall_and; by split.
Qed.

Lemma colon_not_space : py_isspace ":"%char = false.
Proof. done. Qed.

Lemma split1_colon_two line :
  py_contains ":" line = true -> exists a b, py_split1 ":" (py_strip line) = [a; b].
Proof.
  intros Hc. apply (py_strip_contains_char _ _ colon_not_space) in Hc.
  destruct (py_split1_found ":" (py_strip line)) as (a & b & Hs & _); [done|done|eauto].
Qed.

(** C18: a keywords line yields an entry exactly when it contains
    [":"]: the guard skips the others, and [topic, key_str =
    line.strip().split(":", 1)] never raises [ValueError], because
    stripping keeps the colon. *)
Theorem keyword_line_some line :
  is_Some (keyword_line line) <-> py_contains ":" line = true.
Proof.
  unfold keyword_line. destruct (py_contains ":" line) eqn:Hc; [|split; [by intros []|done]].
  destruct (split1_colon_two line Hc) as (a & b & ->). split; [done|by eexists].
Qed.

Lemma small_talk_line_some line :
  is_Some (small_talk_line line) <-> py_contains ":" line = true.
Proof.
  unfold small_talk_line. destruct (py_contains ":" line) eqn:Hc; [|split; [by intros []|done]].
  destruct (split1_colon_two line Hc) as (a & b & ->). split; [done|by eexists].
Qed.

(** ** What the model shows about the loaders *)

(** C25: a knowledge record made of a title line alone (no line break
    once stripped) is stored under its title, lower-cased and without
    colons, with empty instructions; the specification asks for non-empty
    content for every topic. *)
Theorem title_only_record_empty_content sec :
  py_contains NL (py_strip sec) = false ->
  knowledge_section sec = (py_lower (py_strip (py_replace ":" "" (py_strip sec))), "").
Proof. intros Hn. unfold knowledge_section. by rewrite py_split_not_found. Qed.

(** Two blank lines between records make an empty section, stored as a
    topic whose title and instructions are both empty. *)
Example double_blank_line_empty_topic :
  load_knowledge ("Burns:" +:+ NL +:+ "Cool it." +:+ NL +:+ NL +:+ NL +:+ NL +:+ "Choking:" +:+ NL +:+ "Back blows.")
  = [("burns", "Cool it."); ("", ""); ("choking", "Back blows.")].
Proof. vm_refl. Qed.

(** ** Witnesses *)

Lemma title_only_record_empty_content_witness :
  knowledge_section "Choking:  " = ("choking", "").
Proof. rewrite title_only_record_empty_content by vm_refl. vm_refl. Defined.

End Knowledge.
