(* ===== verification/Difflib.v ===== *)
(** * Difflib: [difflib.get_close_matches] and the [SequenceMatcher] under it

    [get_response] falls back, at line 61, on
    [difflib.get_close_matches(user_input, knowledge.keys(), n=1, cutoff=0.4)].
    The library is CPython's [Lib/difflib.py]; this file models the code that
    call runs, on sequences of any type with decidable equality:
    - [SequenceMatcher.__chain_b]: [b2j] maps an element of [b] to its
      indices in [b], ascending; with the default [autojunk=True] an element
      occurring more than [len(b) // 100 + 1] times in a [b] of length 200 or
      more is "popular" and removed from [b2j].  There is no [isjunk]
      function, so [bjunk] is empty and the two junk-extension loops of
      [find_longest_match] never run.
    - [find_longest_match]: the dynamic program over [j2len] (for each row
      [i] of [a], the length of the match ending at [a[i]], [b[j]]), then the
      extension of the best block over equal non-junk elements, backwards and
      forwards.
    - [get_matching_blocks]: the work-list loop that splits the ranges left
      and right of each longest block.  The blocks are then sorted, adjacent
      ones merged and a [(la, lb, 0)] sentinel appended; none of these steps
      changes the sum of the sizes, which is all [ratio] reads.
    - [ratio], [quick_ratio], [real_quick_ratio]: [2.0 * M / T] with [T] the
      total length, [1.0] when [T = 0].
    - [get_close_matches]: keep [(ratio, x)] for every candidate whose three
      ratios reach the cutoff, and return the largest tuple ([heapq.nlargest]
      with [n = 1] is [max]).

    Scores are exact fractions [(num, den)]: a CPython float [2.0 * M / T]
    with [T] below 2^26 is the correctly rounded quotient, and two such
    fractions that differ, or a fraction and the literal [0.4], differ by
    more than the rounding error, so every float comparison the code makes
    has the same outcome as the comparison of the fractions. *)

From S2P Require Import Prelude PyStr.
From stdpp Require Import base list sets strings.
From Stdlib Require Import Ascii ZArith Lia.

Module Difflib.

(** ** Scores *)

(** A ratio [num / den] with [den > 0]. *)
Definition score : Type := nat * nat.

(** [_calculate_ratio(matches, length)] *)
Definition calculate_ratio (matches len : nat) : score :=
  if len =? 0 then (1, 1) else (2 * matches, len).

Definition score_ge (s t : score) : bool := t.1 * s.2 <=? s.1 * t.2.
Definition score_gt (s t : score) : bool := t.1 * s.2 <? s.1 * t.2.
Definition score_eq (s t : score) : bool := s.1 * t.2 =? t.1 * s.2.

(** The cutoff [0.4] of line 61. *)
Definition cutoff_04 : score := (2, 5).

Section SequenceMatcher.
Context {A : Type} `{EqDecision A}.

(** A block [(i, j, k)]: [a[i:i+k] == b[j:j+k]]. *)
Definition block : Type := nat * nat * nat.

(** *** [__chain_b] *)

(** The indices of [x] in [b], ascending. *)
Definition b_indices (b : list A) (x : A) : list nat :=
  filter (fun j => b !! j = Some x) (seq 0 (length b)).

(** [autojunk]: in a [b] of 200 elements or more, an element with more
    than [n // 100 + 1] occurrences is popular. *)
Definition popular (b : list A) (x : A) : bool :=
  (200 <=? length b) && (length b / 100 + 1 <? length (b_indices b x)).

(** [b2j.get(x, [])] after the popular elements are deleted. *)
Definition b2j (b : list A) (x : A) : list nat :=
  if popular b x then [] else b_indices b x.

(** *** [find_longest_match] *)

(** [j2len.get(j, 0)]; the dict is a list of [(j, k)] pairs, the latest
    assignment first. *)
Fixpoint j2len_get (m : list (nat * nat)) (j : nat) : nat :=
  match m with
  | [] => 0
  | (j', k) :: m' => if j =? j' then k else j2len_get m' j
  end.

(** [j2lenget(j-1, 0)]: for [j = 0] the key [-1] is never present. *)
Definition j2len_prev (m : list (nat * nat)) (j : nat) : nat :=
  match j with 0 => 0 | S j' => j2len_get m j' end.

(** The inner loop [for j in b2j.get(a[i], nothing)] of row [i]: skip
    [j < blo], stop at [j >= bhi], else record [newj2len[j] = k] and
    update the best block when [k > bestsize]. *)
Fixpoint flm_row (blo bhi i : nat) (j2len : list (nat * nat)) (js : list nat)
    (newj2len : list (nat * nat)) (best : block) : list (nat * nat) * block :=
  match js with
  | [] => (newj2len, best)
  | j :: js' =>
      if j <? blo then flm_row blo bhi i j2len js' newj2len best
      else if bhi <=? j then (newj2len, best)
      else
        let k := S (j2len_prev j2len j) in
        let best' := if best.2 <? k then (S i - k, S j - k, k) else best in
        flm_row blo bhi i j2len js' ((j, k) :: newj2len) best'
  end.

(** The outer loop [for i in range(alo, ahi)], [j2len = newj2len] after
    each row. *)
Fixpoint flm_rows (a b : list A) (blo bhi : nat) (rows : list nat)
    (j2len : list (nat * nat)) (best : block) : block :=
  match rows with
  | [] => best
  | i :: rows' =>
      let js := match a !! i with Some x => b2j b x | None => [] end in
      let '(newj2len, best') := flm_row blo bhi i j2len js [] best in
      flm_rows a b blo bhi rows' newj2len best'
  end.

(** [while besti > alo and bestj > blo and not isbjunk(b[bestj-1]) and
    a[besti-1] == b[bestj-1]]: grow the block to the left. *)
Fixpoint ext_back (a b : list A) (alo blo : nat) (i j k : nat) : block :=
  match i, j with
  | S i', S j' =>
      if (alo <? i) && (blo <? j) && bool_decide (a !! i' = b !! j')
      then ext_back a b alo blo i' j' (S k) else (i, j, k)
  | _, _ => (i, j, k)
  end.

(** [while besti+bestsize < ahi and bestj+bestsize < bhi and ... ==]:
    grow the block to the right.  The loop's variant [ahi - (i + k)] is
    the fuel: the guard fails before it runs out. *)
Fixpoint ext_fwd (a b : list A) (fuel ahi bhi i j k : nat) : nat :=
  match fuel with
  | 0 => k
  | S fuel' =>
      if (i + k <? ahi) && (j + k <? bhi) && bool_decide (a !! (i + k) = b !! (j + k))
      then ext_fwd a b fuel' ahi bhi i j (S k) else k
  end.

Definition find_longest_match (a b : list A) (alo ahi blo bhi : nat) : block :=
  let '(i0, j0, k0) := flm_rows a b blo bhi (seq alo (ahi - alo)) [] (alo, blo, 0) in
  let '(i1, j1, k1) := ext_back a b alo blo i0 j0 k0 in
  (i1, j1, ext_fwd a b (ahi - (i1 + k1)) ahi bhi i1 j1 k1).

(** *** [get_matching_blocks] *)

(** The work-list loop: [queue.pop()] takes the last pushed range, so the
    list is a stack with its top first.  The fuel bounds the number of
    iterations ([gmb_fuel] is enough: [gmb_loop_terminates]); [None] marks
    running out. *)
Fixpoint gmb_loop (a b : list A) (fuel : nat) (queue : list (nat * nat * nat * nat))
    (blocks : list block) : option (list block) :=
  match queue with
  | [] => Some blocks
  | (alo, ahi, blo, bhi) :: queue' =>
      match fuel with
      | 0 => None
      | S fuel' =>
          let '(i, j, k) := find_longest_match a b alo ahi blo bhi in
          if k =? 0 then gmb_loop a b fuel' queue' blocks
          else
            let q1 := if (alo <? i) && (blo <? j) then (alo, i, blo, j) :: queue' else queue' in
            let q2 := if (i + k <? ahi) && (j + k <? bhi) then (i + k, ahi, j + k, bhi) :: q1 else q1 in
            gmb_loop a b fuel' q2 (blocks ++ [(i, j, k)])
      end
  end.

(** Each iteration removes a range of weight [2 * (ahi - alo) + 1] and
    pushes ranges of smaller total weight. *)
Definition gmb_fuel (a : list A) : nat := 2 * length a + 1.

Definition matching_blocks (a b : list A) : list block :=
  default [] (gmb_loop a b (gmb_fuel a) [(0, length a, 0, length b)] []).

(** The number of matched elements: the sum of the block sizes. *)
Definition matches (a b : list A) : nat := sum_list (map (fun t : block => t.2) (matching_blocks a b)).

Definition ratio (a b : list A) : score :=
  calculate_ratio (matches a b) (length a + length b).

(** [avail.get(x)] in [quick_ratio]; the latest assignment first. *)
Fixpoint avail_get (avail : list (A * Z)) (x : A) : option Z :=
  match avail with
  | [] => None
  | (y, n) :: avail' => if bool_decide (x = y) then Some n else avail_get avail' x
  end.

(** The loop of [quick_ratio]: [avail] counts down the occurrences of each
    element of [b] still available, and goes below zero as the Python dict
    does. *)
Fixpoint qr_loop (b : list A) (avail : list (A * Z)) (xs : list A) (m : nat) : nat :=
  match xs with
  | [] => m
  | x :: xs' =>
      let numb := match avail_get avail x with
                  | Some n => n
                  | None => Z.of_nat (length (b_indices b x))
                  end in
      qr_loop b ((x, (numb - 1)%Z) :: avail) xs' (if (0 <? numb)%Z then S m else m)
  end.

Definition quick_ratio (a b : list A) : score :=
  calculate_ratio (qr_loop b [] a 0) (length a + length b).

Definition real_quick_ratio (a b : list A) : score :=
  calculate_ratio (Nat.min (length a) (length b)) (length a + length b).

(** *** Measures used by the proofs *)

(** The block lies in the range [a[alo:ahi]], [b[blo:bhi]]. *)
Definition block_in (alo ahi blo bhi : nat) (t : block) : Prop :=
  alo <= t.1.1 /\ t.1.1 + t.2 <= ahi /\ blo <= t.1.2 /\ t.1.2 + t.2 <= bhi.

(** The entries of [j2len] once the rows before [r] are done. *)
Definition j2len_ok (alo blo r : nat) (m : list (nat * nat)) : Prop :=
  Forall (fun jk : nat * nat => jk.2 <= S jk.1 - blo /\ jk.2 <= r - alo) m.

(** *** The work list of [get_matching_blocks] *)

Definition range_ok (q : nat * nat * nat * nat) : Prop :=
  q.1.1.1 <= q.1.1.2 /\ q.1.2 <= q.2.

(** The weight [2 * (ahi - alo) + 1] of each pending range. *)
Fixpoint qweight (queue : list (nat * nat * nat * nat)) : nat :=
  match queue with
  | [] => 0
  | (alo, ahi, _, _) :: queue' => 2 * (ahi - alo) + 1 + qweight queue'
  end.

Fixpoint qsize_a (queue : list (nat * nat * nat * nat)) : nat :=
  match queue with [] => 0 | (alo, ahi, _, _) :: queue' => ahi - alo + qsize_a queue' end.

Fixpoint qsize_b (queue : list (nat * nat * nat * nat)) : nat :=
  match queue with [] => 0 | (_, _, blo, bhi) :: queue' => bhi - blo + qsize_b queue' end.

Definition bsum (blocks : list block) : nat := sum_list (map (fun t : block => t.2) blocks).

End SequenceMatcher.

(** ** [get_close_matches(word, possibilities, n=1, cutoff)] *)

(** The candidate [x] is [seq1] and the word is [seq2]: [ratio x word]. *)
Definition close_candidate (cutoff : score) (word x : string) : option (score * string) :=
  let a := String.list_ascii_of_string x in
  let b := String.list_ascii_of_string word in
  if score_ge (real_quick_ratio a b) cutoff && score_ge (quick_ratio a b) cutoff
     && score_ge (ratio a b) cutoff
  then Some (ratio a b, x) else None.

(** Tuple comparison [(s, x) > (t, y)]: scores first, then the strings. *)
Definition cand_gt (p q : score * string) : bool :=
  score_gt p.1 q.1 || (score_eq p.1 q.1 && PyStr.py_str_lt q.2 p.2).

Definition get_close_matches (word : string) (possibilities : list string)
    (cutoff : score) : list string :=
  match py_max cand_gt (omap (close_candidate cutoff word) possibilities) with
  | Some (_, x) => [x]
  | None => []
  end.

(** A score with a positive denominator, as [calculate_ratio] makes. *)
Definition score_pos (s : score) : Prop := 0 < s.2.

(** ** Bounds and termination *)

Section Bounds.
Context {A : Type} `{EqDecision A}.
Implicit Types (a b : list A) (t : block).

Lemma j2len_get_ok alo blo r m j :
  j2len_ok alo blo r m -> j2len_get m j = 0 \/ (j2len_get m j <= S j - blo /\ j2len_get m j <= r - alo).
Proof.
  induction 1 as [|[j' k] m Hjk _ IH]; simpl in *; [by left|].
  destruct (Nat.eqb_spec j j'); [subst; by right|done].
Qed.

Lemma flm_row_bounds alo ahi blo bhi i j2len js nj best :
  alo <= i < ahi -> j2len_ok alo blo i j2len -> j2len_ok alo blo (S i) nj ->
  block_in alo ahi blo bhi best ->
  j2len_ok alo blo (S i) (flm_row blo bhi i j2len js nj best).1 /\
  block_in alo ahi blo bhi (flm_row blo bhi i j2len js nj best).2.
Proof.
  intros Hi Hold. revert nj best.
  induction js as [|j js IH]; intros nj best Hnj Hbest; simpl; [done|].
  destruct (Nat.ltb_spec j blo); [by apply IH|].
  destruct (Nat.leb_spec bhi j); [done|].
  assert (S (j2len_prev j2len j) <= S j - blo /\ S (j2len_prev j2len j) <= S i - alo).
  { destruct j as [|j']; simpl; [lia|].
    destruct (j2len_get_ok _ _ _ _ j' Hold); lia. }
  apply IH.
  - constructor; [simpl; lia|done].
  - destruct (Nat.ltb_spec best.2 (S (j2len_prev j2len j))); [|done].
    unfold block_in; simpl; lia.
Qed.

Lemma flm_rows_bounds a b alo ahi blo bhi n r m best :
  alo <= r -> r + n <= ahi -> j2len_ok alo blo r m ->
  block_in alo ahi blo bhi best ->
  block_in alo ahi blo bhi (flm_rows a b blo bhi (seq r n) m best).
Proof.
  revert r m best. induction n as [|n IH]; intros r m best Hr Hn Hm Hb; simpl; [done|].
  destruct (flm_row blo bhi r m _ [] best) as [nj best'] eqn:E.
  pose proof (flm_row_bounds alo ahi blo bhi r m
    (match a !! r with Some x => b2j b x | None => [] end) [] best) as Hrow.
  rewrite E in Hrow. destruct Hrow as [Hnj Hb']; [lia|done|constructor|done|].
  apply IH; [lia|lia|done|done].
Qed.

Lemma ext_back_bounds a b alo ahi blo bhi i j k :
  block_in alo ahi blo bhi (i, j, k) -> block_in alo ahi blo bhi (ext_back a b alo blo i j k).
Proof.
  revert j k. induction i as [|i IH]; intros [|j] k Hb; simpl; try done.
  destruct (Nat.ltb_spec alo (S i)), (Nat.ltb_spec blo (S j)); simpl; try done.
  case_bool_decide; [|done]. apply IH. unfold block_in in *; simpl in *; lia.
Qed.

Lemma ext_fwd_bounds a b fuel alo ahi blo bhi i j k :
  block_in alo ahi blo bhi (i, j, k) ->
  block_in alo ahi blo bhi (i, j, ext_fwd a b fuel ahi bhi i j k).
Proof.
  revert k. induction fuel as [|fuel IH]; intros k Hb; simpl; [done|].
  destruct (Nat.ltb_spec (i + k) ahi), (Nat.ltb_spec (j + k) bhi); simpl; try done.
  case_bool_decide; [|done]. apply IH. unfold block_in in *; simpl in *; lia.
Qed.

(** [find_longest_match] returns a block inside the range it searched. *)
Lemma find_longest_match_bounds a b alo ahi blo bhi :
  alo <= ahi -> blo <= bhi ->
  block_in alo ahi blo bhi (find_longest_match a b alo ahi blo bhi).
Proof.
  intros Ha Hb. unfold find_longest_match.
  pose proof (flm_rows_bounds a b alo ahi blo bhi (ahi - alo) alo [] (alo, blo, 0)) as H0.
  destruct (flm_rows _ _ _ _ _ _ _) as [[i0 j0] k0].
  pose proof (ext_back_bounds a b alo ahi blo bhi i0 j0 k0) as H1.
  destruct (ext_back _ _ _ _ _ _ _) as [[i1 j1] k1].
  apply ext_fwd_bounds, H1, H0; [lia|lia|constructor|unfold block_in; simpl; lia].
Qed.

Lemma bsum_snoc blocks t : bsum (blocks ++ [t]) = bsum blocks + t.2.
Proof. unfold bsum. induction blocks as [|t' blocks IH]; simpl; lia. Qed.

(** One iteration of the loop: the ranges pushed around a block [(i, j, k)]
    found in [(alo, ahi, blo, bhi)]. *)
Lemma gmb_push_measure alo ahi blo bhi i j k queue :
  block_in alo ahi blo bhi (i, j, k) -> 0 < k ->
  let q1 := if (alo <? i) && (blo <? j) then (alo, i, blo, j) :: queue else queue in
  let q2 := if (i + k <? ahi) && (j + k <? bhi) then (i + k, ahi, j + k, bhi) :: q1 else q1 in
  qweight q2 <= qweight queue + 2 * (ahi - alo) /\
  qsize_a q2 + k <= qsize_a queue + (ahi - alo) /\
  qsize_b q2 + k <= qsize_b queue + (bhi - blo).
Proof.
  unfold block_in; simpl. intros Hb Hk.
  destruct (Nat.ltb_spec alo i), (Nat.ltb_spec blo j), (Nat.ltb_spec (i + k) ahi),
    (Nat.ltb_spec (j + k) bhi); simpl; lia.
Qed.

Lemma gmb_push_ok alo ahi blo bhi i j k queue :
  block_in alo ahi blo bhi (i, j, k) -> Forall range_ok queue ->
  let q1 := if (alo <? i) && (blo <? j) then (alo, i, blo, j) :: queue else queue in
  Forall range_ok (if (i + k <? ahi) && (j + k <? bhi) then (i + k, ahi, j + k, bhi) :: q1 else q1).
Proof.
  unfold block_in; simpl. intros Hb Hq.
  destruct (Nat.ltb_spec alo i), (Nat.ltb_spec blo j), (Nat.ltb_spec (i + k) ahi),
    (Nat.ltb_spec (j + k) bhi); simpl; repeat constructor; simpl; try done; lia.
Qed.

Lemma gmb_loop_nil a b fuel blocks : gmb_loop a b fuel [] blocks = Some blocks.
Proof. by destruct fuel. Qed.

(** Termination of the work-list loop, with the matched size bounded by
    the pending ranges: fuel at least the weight of the queue is enough. *)
Lemma gmb_loop_spec a b fuel queue blocks :
  Forall range_ok queue -> qweight queue <= fuel ->
  exists res, gmb_loop a b fuel queue blocks = Some res /\
    bsum res <= bsum blocks + qsize_a queue /\ bsum res <= bsum blocks + qsize_b queue.
Proof.
  revert queue blocks. induction fuel as [|fuel IH]; intros queue blocks Hok Hw.
  - destruct queue as [|[[[??]?]?] ?]; simpl in *; [exists blocks; split; [done|lia]|lia].
  - destruct queue as [|[[[alo ahi] blo] bhi] queue]; simpl in *; [exists blocks; split; [done|lia]|].
    apply Forall_cons in Hok as [[Hra Hrb] Hok]; simpl in *.
    pose proof (find_longest_match_bounds a b alo ahi blo bhi Hra Hrb) as Hb.
    destruct (find_longest_match a b alo ahi blo bhi) as [[i j] k].
    destruct (Nat.eqb_spec k 0) as [->|Hk].
    + destruct (IH queue blocks) as (res & -> & ? & ?); [done|lia|].
      exists res. split; [done|lia].
    + pose proof (gmb_push_ok alo ahi blo bhi i j k queue Hb Hok) as Hok'.
      pose proof (gmb_push_measure alo ahi blo bhi i j k queue Hb) as Hm.
      simpl in Hok', Hm. destruct Hm as (Hw' & Ha' & Hb'); [lia|].
      edestruct IH as (res & -> & ? & ?); [exact Hok'|lia|].
      exists res. rewrite bsum_snoc in *. simpl in *. split; [done|lia].
Qed.

(** C19: the work-list loop of [get_matching_blocks] terminates: within
    [gmb_fuel] iterations it empties its queue, and the blocks it returns
    match at most [min(len(a), len(b))] elements. *)
Lemma gmb_loop_terminates a b :
  exists res, gmb_loop a b (gmb_fuel a) [(0, length a, 0, length b)] [] = Some res /\
    bsum res <= length a /\ bsum res <= length b.
Proof.
  destruct (gmb_loop_spec a b (gmb_fuel a) [(0, length a, 0, length b)] []) as (res & ? & ? & ?).
  - repeat constructor; simpl; lia.
  - unfold gmb_fuel. simpl. lia.
  - exists res. simpl in *. split_and!; [done|lia|lia].
Qed.

(** At most [min(len(a), len(b))] elements are matched. *)
Lemma matches_le a b : matches a b <= length a /\ matches a b <= length b.
Proof.
  destruct (gmb_loop_spec a b (gmb_fuel a) [(0, length a, 0, length b)] []) as (res & Hres & Ha & Hb).
  - repeat constructor; simpl; lia.
  - unfold gmb_fuel. simpl. lia.
  - unfold matches, matching_blocks. rewrite Hres. simpl in *. fold (bsum res). lia.
Qed.

(** The numerator of [ratio()] never exceeds its denominator. *)
Lemma ratio_num_le a b : (ratio a b).1 <= (ratio a b).2.
Proof.
  unfold ratio, calculate_ratio. pose proof (matches_le a b).
  destruct (Nat.eqb_spec (length a + length b) 0); simpl; lia.
Qed.

(** C20: the first test of [get_close_matches] at the cutoff [0.4] of
    line 61, [real_quick_ratio() >= cutoff], passes exactly when neither
    sequence is more than four times as long as the other: a topic title
    more than four times shorter or longer than the question is never a
    fuzzy match, whatever their characters. *)
Theorem real_quick_ratio_cutoff a b :
  score_ge (real_quick_ratio a b) cutoff_04 = true <->
  length a <= 4 * length b /\ length b <= 4 * length a.
Proof.
  unfold real_quick_ratio, calculate_ratio, score_ge, cutoff_04.
  destruct (Nat.eqb_spec (length a + length b) 0); simpl;
    [split; intros; [lia|reflexivity]|rewrite Nat.leb_le; lia].
Qed.

(** [SequenceMatcher.ratio()] never exceeds [1.0]. *)
Lemma ratio_le_one a b : score_ge (1, 1) (ratio a b) = true.
Proof.
  unfold ratio, calculate_ratio, score_ge. pose proof (matches_le a b).
  destruct (Nat.eqb_spec (length a + length b) 0); simpl; [done|apply Nat.leb_le; lia].
Qed.

(** [ratio()] never exceeds [real_quick_ratio()], the upper bound
    [get_close_matches] tests first. *)
Lemma ratio_le_real_quick a b : score_ge (real_quick_ratio a b) (ratio a b) = true.
Proof.
  unfold ratio, real_quick_ratio, calculate_ratio, score_ge. pose proof (matches_le a b).
  destruct (Nat.eqb_spec (length a + length b) 0); simpl; [done|apply Nat.leb_le].
  apply Nat.mul_le_mono_r. lia.
Qed.

(** *** The dynamic program on the diagonal *)

Lemma flm_row_best_mono blo bhi i j2len js nj best :
  best.2 <= (flm_row blo bhi i j2len js nj best).2.2.
Proof.
  revert nj best. induction js as [|j js IH]; intros nj best; simpl; [done|].
  destruct (j <? blo); [apply IH|]. destruct (bhi <=? j); [done|].
  etrans; [|apply IH]. destruct (Nat.ltb_spec best.2 (S (j2len_prev j2len j))); simpl; lia.
Qed.

(** Entries for other keys do not change the lookup of [j]. *)
Lemma flm_row_get_other blo bhi i j2len js nj best j :
  Forall (fun x => x <> j) js ->
  j2len_get (flm_row blo bhi i j2len js nj best).1 j = j2len_get nj j.
Proof.
  revert nj best. induction js as [|x js IH]; intros nj best Hjs; simpl; [done|].
  apply Forall_cons in Hjs as [Hx Hjs].
  destruct (x <? blo); [by apply IH|]. destruct (bhi <=? x); [done|].
  rewrite IH by done. simpl. by destruct (Nat.eqb_spec j x).
Qed.

(** A key [j] inside [[blo, bhi)], preceded by smaller keys only, gets
    [newj2len[j] = j2len[j-1] + 1], and the best size reaches it. *)
Lemma flm_row_get blo bhi i j2len l1 j l2 nj best :
  blo <= j < bhi -> Forall (fun x => x < j) l1 -> Forall (fun x => x <> j) l2 ->
  let r := flm_row blo bhi i j2len (l1 ++ j :: l2) nj best in
  j2len_get r.1 j = S (j2len_prev j2len j) /\ S (j2len_prev j2len j) <= r.2.2.
Proof.
  intros Hj Hl1 Hl2. revert nj best. induction l1 as [|x l1 IH]; intros nj best; simpl.
  - destruct (Nat.ltb_spec j blo); [lia|]. destruct (Nat.leb_spec bhi j); [lia|].
    rewrite flm_row_get_other by done. simpl. rewrite Nat.eqb_refl. split; [done|].
    etrans; [|apply flm_row_best_mono].
    destruct (Nat.ltb_spec best.2 (S (j2len_prev j2len j))); simpl; lia.
  - apply Forall_cons in Hl1 as [Hx Hl1].
    destruct (x <? blo); [by apply IH|]. destruct (Nat.leb_spec bhi x); [lia|]. by apply IH.
Qed.

(** The indices of [a[r]] in [a] split around [r]. *)
Lemma b_indices_split b r x :
  b !! r = Some x ->
  exists l1 l2, b_indices b x = l1 ++ r :: l2 /\
    Forall (fun y => y < r) l1 /\ Forall (fun y => y <> r) l2.
Proof.
  intros Hr. pose proof (lookup_lt_Some _ _ _ Hr) as Hlt.
  unfold b_indices. replace (length b) with (r + S (length b - S r)) by lia.
  rewrite seq_app. simpl. rewrite filter_app, filter_cons_True by done.
  eexists _, _. split; [done|].
  split; apply Forall_forall; intros y [_ Hy]%list_elem_of_filter; apply elem_of_seq in Hy; lia.
Qed.

(** Row by row, [j2len[r-1] = r] and the best size reaches [r] when [a]
    is compared with itself and nothing is popular. *)
Lemma flm_rows_self a n r m best :
  length a < 200 -> r + n = length a ->
  j2len_prev m r = r -> r <= best.2 ->
  length a <= (flm_rows a a 0 (length a) (seq r n) m best).2.
Proof.
  intros Hsmall. revert r m best. induction n as [|n IH]; intros r m best Hn Hm Hb; simpl.
  - lia.
  - destruct (lookup_lt_is_Some_2 a r) as [x Hx]; [lia|]. rewrite Hx.
    assert (Hpop : popular a x = false).
    { unfold popular. destruct (Nat.leb_spec 200 (length a)); [lia|done]. }
    unfold b2j. rewrite Hpop.
    destruct (b_indices_split a r x Hx) as (l1 & l2 & -> & Hl1 & Hl2).
    pose proof (flm_row_get 0 (length a) r m l1 r l2 [] best) as Hrow.
    destruct (flm_row 0 (length a) r m (l1 ++ r :: l2) [] best) as [m' best'].
    destruct Hrow as [Hget Hbest]; [lia|done|done|]. simpl in Hget, Hbest.
    apply IH; [lia| |lia]. simpl. rewrite Hget, Hm. done.
Qed.

(** Comparing a sequence of fewer than 200 elements with itself finds
    the whole sequence as one block. *)
Lemma find_longest_match_self a :
  length a < 200 -> find_longest_match a a 0 (length a) 0 (length a) = (0, 0, length a).
Proof.
  intros Hsmall. unfold find_longest_match. rewrite Nat.sub_0_r.
  pose proof (flm_rows_self a (length a) 0 [] (0, 0, 0) Hsmall) as Hge.
  pose proof (flm_rows_bounds a a 0 (length a) 0 (length a) (length a) 0 [] (0, 0, 0)) as Hin.
  destruct (flm_rows a a 0 (length a) (seq 0 (length a)) [] (0, 0, 0)) as [[i0 j0] k0].
  simpl in Hge. unfold block_in in Hin; simpl in Hin.
  destruct Hin as (? & ? & ? & ?); [lia|lia|constructor|lia|].
  assert (i0 = 0 /\ j0 = 0 /\ k0 = length a) as (-> & -> & ->) by (split_and!; lia || (apply Hge; done || lia)).
  simpl. rewrite Nat.sub_diag. done.
Qed.

(** A string compared with itself has ratio [1.0]:
    [SequenceMatcher(None, a, a).ratio() == 1.0] for [len(a) < 200] (below
    the [autojunk] threshold). *)
Lemma ratio_self a : length a < 200 -> score_eq (ratio a a) (1, 1) = true.
Proof.
  intros Hsmall. unfold ratio, matches, matching_blocks, gmb_fuel.
  replace (2 * length a + 1) with (S (2 * length a)) by lia. simpl.
  rewrite find_longest_match_self by done.
  destruct (Nat.eqb_spec (length a) 0) as [Hz|Hnz].
  - rewrite Hz. simpl. done.
  - rewrite Nat.add_0_l, Nat.ltb_irrefl. simpl. rewrite gmb_loop_nil. simpl.
    unfold calculate_ratio, score_eq. destruct (Nat.eqb_spec (length a + length a) 0); [lia|].
    simpl. apply Nat.eqb_eq. lia.
Qed.
End Bounds.

(** ** Properties of [get_close_matches] *)

Lemma calculate_ratio_pos m len : score_pos (calculate_ratio m len).
Proof. unfold calculate_ratio, score_pos. destruct (Nat.eqb_spec len 0); simpl; lia. Qed.

Lemma score_gt_irrefl s : score_gt s s = false.
Proof. apply Nat.ltb_ge. lia. Qed.

Lemma cand_gt_irrefl p : cand_gt p p = false.
Proof.
  unfold cand_gt. rewrite score_gt_irrefl, PyStr.py_str_lt_irrefl. by rewrite andb_false_r.
Qed.

(** The tuple order is a strict order on candidates with positive
    denominators. *)
Lemma cand_gt_trans p q r :
  score_pos p.1 -> score_pos q.1 -> score_pos r.1 ->
  cand_gt p q = true -> cand_gt q r = true -> cand_gt p r = true.
Proof.
  destruct p as [[p1 p2] x], q as [[q1 q2] y], r as [[r1 r2] z].
  unfold cand_gt, score_gt, score_eq, score_pos; simpl. intros Hp Hq Hr.
  rewrite !orb_true_iff, !andb_true_iff, !Nat.ltb_lt, !Nat.eqb_eq.
  intros [H1|[H1 H1']] [H2|[H2 H2']].
  - left. apply (Nat.mul_lt_mono_pos_r q2); [lia|]. nia.
  - left. apply (Nat.mul_lt_mono_pos_r q2); [lia|]. nia.
  - left. apply (Nat.mul_lt_mono_pos_r q2); [lia|]. nia.
  - right. split; [|by eapply PyStr.py_str_lt_trans].
    apply (Nat.mul_cancel_r _ _ q2); [lia|]. nia.
Qed.

Lemma close_candidate_spec cutoff word x p :
  close_candidate cutoff word x = Some p ->
  p = (ratio (String.list_ascii_of_string x) (String.list_ascii_of_string word), x) /\
  score_ge (ratio (String.list_ascii_of_string x) (String.list_ascii_of_string word)) cutoff = true.
Proof.
  unfold close_candidate. destruct (_ && _ && _) eqn:E; [|done].
  intros [= <-]. apply andb_true_iff in E as [_ E]. done.
Qed.

Lemma omap_nil {X Y} (f : X -> option Y) l : omap f l = [] <-> Forall (fun x => f x = None) l.
Proof.
  induction l as [|x l IH]; simpl; [split; auto|].
  rewrite Forall_cons. destruct (f x); [split; [done|by intros []]|]. rewrite IH. naive_solver.
Qed.

(** No match is returned exactly when no candidate reaches the cutoff. *)
Lemma get_close_matches_nil word poss cutoff :
  get_close_matches word poss cutoff = [] <->
  Forall (fun x => close_candidate cutoff word x = None) poss.
Proof.
  rewrite <- omap_nil. unfold get_close_matches.
  destruct (omap (close_candidate cutoff word) poss) as [|c cs]; simpl; [done|].
  by destruct (py_max_from cand_gt c cs).
Qed.

(** At most one match is returned ([n = 1]). *)
Lemma get_close_matches_length word poss cutoff : length (get_close_matches word poss cutoff) <= 1.
Proof. unfold get_close_matches. destruct (py_max _ _) as [[??]|]; simpl; lia. Qed.

(** The returned match is a candidate that reaches the cutoff, and no
    candidate that reaches it has a larger [(ratio, string)] tuple. *)
Lemma get_close_matches_best word poss cutoff x :
  get_close_matches word poss cutoff = [x] ->
  x ∈ poss /\
  close_candidate cutoff word x =
    Some (ratio (String.list_ascii_of_string x) (String.list_ascii_of_string word), x) /\
  forall y p, y ∈ poss -> close_candidate cutoff word y = Some p ->
    cand_gt p (ratio (String.list_ascii_of_string x) (String.list_ascii_of_string word), x) = false.
Proof.
  unfold get_close_matches.
  destruct (py_max cand_gt (omap (close_candidate cutoff word) poss)) as [[sc x']|] eqn:E;
    [intros [= ->]|done].
  assert (HP : Forall (fun p : score * string => score_pos p.1) (omap (close_candidate cutoff word) poss)).
  { apply Forall_forall. intros p (y & _ & Hy)%list_elem_of_omap.
    apply close_candidate_spec in Hy as [-> _]. apply calculate_ratio_pos. }
  destruct (py_max_spec cand_gt (fun p => score_pos p.1) cand_gt_irrefl cand_gt_trans _ _ HP E)
    as [Hin Hmax].
  apply list_elem_of_omap in Hin as (x0 & Hx0 & Hc).
  pose proof Hc as Hc'. apply close_candidate_spec in Hc' as [[= -> ->] _].
  split_and!; [done|done|]. intros y p Hy Hp. apply Hmax, list_elem_of_omap. eauto.
Qed.

Lemma cand_gt_total p q :
  score_pos p.1 -> score_pos q.1 -> p.2 <> q.2 -> cand_gt p q = false -> cand_gt q p = true.
Proof.
  destruct p as [[p1 p2] x], q as [[q1 q2] y].
  unfold cand_gt, score_gt, score_eq, score_pos; simpl. intros Hp Hq Hxy.
  rewrite orb_false_iff, andb_false_iff, orb_true_iff, andb_true_iff, Nat.ltb_ge, Nat.ltb_lt,
    Nat.eqb_eq, Nat.eqb_neq.
  intros [Hge [Hne|Hs]]; [left; lia|].
  destruct (decide (q1 * p2 = p1 * q2)) as [E|E]; [right|left; lia].
  split; [done|]. apply PyStr.py_str_lt_total; [congruence|done].
Qed.

(** C8: [get_close_matches(word, possibilities, n=1, cutoff)] returns
    [[x]] exactly when [x] is a possibility whose three ratios reach the
    cutoff and whose [(ratio, x)] tuple is larger than that of every other
    qualifying possibility. *)
Theorem get_close_matches_iff word poss cutoff x :
  get_close_matches word poss cutoff = [x] <->
  x ∈ poss /\ is_Some (close_candidate cutoff word x) /\
  forall y p, y ∈ poss -> y <> x -> close_candidate cutoff word y = Some p ->
    cand_gt (ratio (String.list_ascii_of_string x) (String.list_ascii_of_string word), x) p = true.
Proof.
  split.
  - intros (Hx & Hcx & Hmax)%get_close_matches_best. split_and!; [done|by eexists|].
    intros y p Hy Hne Hp. apply cand_gt_total; [|apply calculate_ratio_pos| |by apply (Hmax y)].
    + apply close_candidate_spec in Hp as [-> _]. apply calculate_ratio_pos.
    + apply close_candidate_spec in Hp as [-> _]. done.
  - intros (Hx & [p0 Hcx] & Hmax).
    pose proof Hcx as Hp0. apply close_candidate_spec in Hp0 as [-> _].
    pose proof (get_close_matches_length word poss cutoff) as Hlen.
    destruct (get_close_matches _ _ _) as [|x' [|??]] eqn:E; simpl in Hlen; [|clear Hlen|lia].
    + apply get_close_matches_nil in E. rewrite Forall_forall in E. by rewrite E in Hcx.
    + apply get_close_matches_best in E as (Hx' & Hcx' & Hbest).
      specialize (Hbest x _ Hx Hcx).
      destruct (decide (x' = x)) as [->|Hne]; [done|].
      by rewrite (Hmax x' _ Hx' Hne Hcx') in Hbest.
Qed.

End Difflib.
