(* ===== verification/DifflibMatch.v ===== *)
(** * DifflibMatch: what the blocks of [get_matching_blocks] match

    The blocks [(i, j, k)] that [SequenceMatcher.get_matching_blocks]
    collects are real matches, [a[i:i+k] == b[j:j+k]], and they never use
    an element of [a] or of [b] twice.  So the matched elements form a
    sub-multiset of both sequences, and their number is at most what
    [quick_ratio] counts (the size of the multiset intersection).  Hence
    [ratio() <= quick_ratio() <= real_quick_ratio()], and the three tests
    of [get_close_matches] select exactly the possibilities whose [ratio()]
    reaches the cutoff: the two cheap tests are an optimisation that never
    changes the result. *)

From S2P Require Import Prelude PyStr Difflib.
From stdpp Require Import base list sets gmultiset strings.
From Stdlib Require Import Ascii ZArith Lia.

Module DifflibMatch.
Import Difflib.

(** [l[i:i+k]] *)
Definition slice {A} (l : list A) (i k : nat) : list A := take k (drop i l).

Section Defs.
Context {A : Type} `{EqDecision A}.
Implicit Types (a b : list A).

(** The block [(i, j, k)] matches: [a[i:i+k] == b[j:j+k]]. *)
Definition genuine a b (t : block) : Prop := slice a t.1.1 t.2 = slice b t.1.2 t.2.

(** Row [r] of the dynamic program is done: every entry [j2len[j] = k]
    records the match [a[r-k:r] == b[j+1-k:j+1]]. *)
Definition j2len_gen a b (r : nat) (m : list (nat * nat)) : Prop :=
  Forall (fun jk : nat * nat => slice a (r - jk.2) jk.2 = slice b (S jk.1 - jk.2) jk.2) m.

(** The parts of [a] and of [b] the pending ranges cover, and those the
    blocks found so far cover. *)
Definition qslices_a a (queue : list (nat * nat * nat * nat)) : list A :=
  concat (map (fun q : nat * nat * nat * nat => slice a q.1.1.1 (q.1.1.2 - q.1.1.1)) queue).
Definition qslices_b b (queue : list (nat * nat * nat * nat)) : list A :=
  concat (map (fun q : nat * nat * nat * nat => slice b q.1.2 (q.2 - q.1.2)) queue).
Definition bslices_a a (blocks : list block) : list A :=
  concat (map (fun t : block => slice a t.1.1 t.2) blocks).
Definition bslices_b b (blocks : list block) : list A :=
  concat (map (fun t : block => slice b t.1.2 t.2) blocks).
(** A pending range lies inside both sequences; a block found is a match
    inside [a]. *)
Definition pending_ok a b (q : nat * nat * nat * nat) : Prop :=
  range_ok q /\ q.1.1.2 <= length a /\ q.2 <= length b.
Definition found_ok a b (t : block) : Prop :=
  genuine a b t /\ t.1.1 + t.2 <= length a /\ t.1.2 + t.2 <= length b.

(** [quick_ratio]'s table [avail] describes the multiset [R] of the
    elements of [b] not yet counted: an element without an entry still has
    all its occurrences, an entry [n] stands for [max(n, 0)] of them. *)
Definition avail_enc `{Countable A} b (avail : list (A * Z)) (R : gmultiset A) : Prop :=
  forall x, multiplicity x R =
    match avail_get avail x with Some n => Z.to_nat n | None => length (b_indices b x) end.
(** A bound on what the pending ranges can still match: each range
    [(alo, ahi, blo, bhi)] at most [min(ahi - alo, bhi - blo)] elements. *)
Fixpoint qmin (queue : list (nat * nat * nat * nat)) : nat :=
  match queue with
  | [] => 0
  | (alo, ahi, blo, bhi) :: queue' => Nat.min (ahi - alo) (bhi - blo) + qmin queue'
  end.

(** A range on the diagonal: the same interval of [a] and of [b]. *)
Definition diag_ok a (q : nat * nat * nat * nat) : Prop :=
  q.1.1.1 = q.1.2 /\ q.1.1.2 = q.2 /\ q.1.1.1 <= q.1.1.2 /\ q.1.1.2 <= length a.

(** [a] and [b] agree at every position outside the pending ranges. *)
Definition agree_outside a b (queue : list (nat * nat * nat * nat)) : Prop :=
  forall p, p < length a ->
    Forall (fun q : nat * nat * nat * nat => ~ (q.1.1.1 <= p < q.1.1.2)) queue -> a !! p = b !! p.
End Defs.

(** The reference [get_close_matches]: only the [ratio()] test. *)
Definition ratio_candidate (cutoff : score) (word x : string) : option (score * string) :=
  let a := String.list_ascii_of_string x in
  let b := String.list_ascii_of_string word in
  if score_ge (ratio a b) cutoff then Some (ratio a b, x) else None.

Definition get_close_matches_ratio (word : string) (possibilities : list string)
    (cutoff : score) : list string :=
  match py_max cand_gt (omap (ratio_candidate cutoff word) possibilities) with
  | Some (_, x) => [x]
  | None => []
  end.

(** ** Slices *)

Section SliceLemmas.
Context {A : Type}.
Implicit Types (l : list A).

Lemma slice_0 l i : slice l i 0 = [].
Proof. done. Qed.

Lemma slice_app l i n m : slice l i (n + m) = slice l i n ++ slice l (i + n) m.
Proof. unfold slice. by rewrite <- take_take_drop, drop_drop. Qed.

Lemma slice_length l i k : i + k <= length l -> length (slice l i k) = k.
Proof. unfold slice. rewrite length_take, length_drop. lia. Qed.

Lemma slice_full l : slice l 0 (length l) = l.
Proof. unfold slice. by rewrite drop_0, take_ge. Qed.

(** One more element at the right end, when there is one. *)
Lemma slice_snoc l i n : slice l i (S n) = slice l i n ++ default [] (l !! (i + n) ≫= fun x => Some [x]).
Proof.
  unfold slice. destruct (l !! (i + n)) as [x|] eqn:E; simpl.
  - rewrite (take_S_r _ _ x); [done|]. by rewrite lookup_drop.
  - apply lookup_ge_None in E. rewrite app_nil_r.
    rewrite (take_ge (drop i l) (S n)), (take_ge (drop i l) n); rewrite ?length_drop; [done|lia..].
Qed.

(** One more element at the left end, when there is one. *)
Lemma slice_cons l i n :
  slice l i (S n) = default [] (l !! i ≫= fun x => Some [x]) ++ slice l (S i) n.
Proof.
  unfold slice. destruct (l !! i) as [x|] eqn:E.
  - by rewrite (drop_S l x i E).
  - apply lookup_ge_None in E. rewrite !drop_ge by lia. by destruct n.
Qed.

(** A range cut around a block inside it. *)
Lemma slice_split l alo ahi i k :
  alo <= i -> i + k <= ahi ->
  slice l alo (ahi - alo) = slice l alo (i - alo) ++ slice l i k ++ slice l (i + k) (ahi - (i + k)).
Proof.
  intros H1 H2. replace (ahi - alo) with ((i - alo) + (k + (ahi - (i + k)))) by lia.
  rewrite !slice_app. do 3 f_equal; lia.
Qed.
End SliceLemmas.

#[export] Hint Rewrite @slice_0 : py_rw.

(** ** The block [find_longest_match] returns is a match *)

Section Genuine.
Context {A : Type} `{EqDecision A}.
Implicit Types (a b : list A).

Lemma j2len_get_elem (m : list (nat * nat)) j : j2len_get m j = 0 \/ (j, j2len_get m j) ∈ m.
Proof.
  induction m as [|[j' k] m IH]; simpl; [by left|].
  destruct (Nat.eqb_spec j j') as [->|]; [right; left|destruct IH; [left|right; right]]; done.
Qed.

Lemma b2j_lookup b x j : j ∈ b2j b x -> b !! j = Some x.
Proof. unfold b2j, b_indices. destruct (popular b x); [set_solver|]. by intros [? _]%list_elem_of_filter. Qed.

(** [k = newj2len[j] = j2lenget(j-1, 0) + 1] extends the match recorded at
    [j - 1] in the previous row by [a[i] == b[j]]. *)
Lemma gen_extend a b i j p x :
  slice a (i - p) p = slice b (j - p) p -> p <= i -> p <= j ->
  a !! i = Some x -> b !! j = Some x ->
  slice a (S i - S p) (S p) = slice b (S j - S p) (S p).
Proof.
  intros H Hi Hj Ha Hb. replace (S i - S p) with (i - p) by lia. replace (S j - S p) with (j - p) by lia.
  rewrite !slice_snoc, H. replace (i - p + p) with i by lia. replace (j - p + p) with j by lia.
  by rewrite Ha, Hb.
Qed.

Lemma j2len_prev_gen a b alo blo i m j :
  j2len_ok alo blo i m -> j2len_gen a b i m ->
  slice a (i - j2len_prev m j) (j2len_prev m j) = slice b (j - j2len_prev m j) (j2len_prev m j) /\
  j2len_prev m j <= i /\ j2len_prev m j <= j.
Proof.
  intros Hok Hgen. destruct j as [|j']; simpl; [split_and!; [done|lia..]|].
  destruct (j2len_get_elem m j') as [->|Hin]; [split_and!; [done|lia..]|].
  unfold j2len_ok, j2len_gen in *. rewrite Forall_forall in Hok, Hgen. specialize (Hok _ Hin). specialize (Hgen _ Hin). simpl in *.
  split; [done|lia].
Qed.

Lemma flm_row_gen a b alo ahi blo bhi i x j2len js nj best :
  alo <= i < ahi -> a !! i = Some x -> Forall (fun j => b !! j = Some x) js ->
  j2len_ok alo blo i j2len -> j2len_gen a b i j2len -> j2len_gen a b (S i) nj -> genuine a b best ->
  j2len_gen a b (S i) (flm_row blo bhi i j2len js nj best).1 /\
  genuine a b (flm_row blo bhi i j2len js nj best).2.
Proof.
  intros Hi Ha Hjs Hok Hgen. revert nj best.
  induction js as [|j js IH]; intros nj best Hnj Hbest; simpl; [done|].
  apply Forall_cons in Hjs as [Hb Hjs].
  destruct (Nat.ltb_spec j blo); [by apply IH|]. destruct (Nat.leb_spec bhi j); [done|].
  destruct (j2len_prev_gen a b alo blo i j2len j Hok Hgen) as (Hp & ? & ?).
  pose proof (gen_extend a b i j _ x Hp) as Hext.
  apply IH; [done| |].
  - constructor; [simpl; auto|done].
  - destruct (Nat.ltb_spec best.2 (S (j2len_prev j2len j))); [|done]. unfold genuine; simpl; auto.
Qed.

Lemma flm_rows_gen a b alo ahi blo bhi n r m best :
  alo <= r -> r + n <= ahi -> j2len_ok alo blo r m -> j2len_gen a b r m ->
  block_in alo ahi blo bhi best -> genuine a b best ->
  genuine a b (flm_rows a b blo bhi (seq r n) m best).
Proof.
  revert r m best. induction n as [|n IH]; intros r m best Hr Hn Hok Hgen Hbin Hb; simpl; [done|].
  pose proof (flm_row_bounds alo ahi blo bhi r m
    (match a !! r with Some x => b2j b x | None => [] end) [] best) as Hrow.
  destruct (a !! r) as [x|] eqn:Ea; simpl in *.
  - pose proof (flm_row_gen a b alo ahi blo bhi r x m (b2j b x) [] best) as Hg.
    destruct (flm_row _ _ _ _ _ _ _) as [nj best'].
    destruct Hrow as [Hnj Hb']; [lia|done|constructor|done|].
    destruct Hg as [Hg1 Hg2]; [lia|done| |done|done|constructor|done|].
    + apply Forall_forall. intros j. apply b2j_lookup.
    + apply IH; [lia|lia|done|done|done|done].
  - apply IH; [lia|lia| |constructor|done|done]. constructor.
Qed.

Lemma ext_back_gen a b alo blo i j k :
  genuine a b (i, j, k) -> genuine a b (ext_back a b alo blo i j k).
Proof.
  revert j k. induction i as [|i IH]; intros [|j] k Hg; simpl; try done.
  destruct (_ && _ && _) eqn:E; [|done]. apply andb_prop in E as [_ E%bool_decide_eq_true].
  apply IH. unfold genuine in *; simpl in *. by rewrite !slice_cons, Hg, E.
Qed.

Lemma ext_fwd_gen a b fuel ahi bhi i j k :
  genuine a b (i, j, k) -> genuine a b (i, j, ext_fwd a b fuel ahi bhi i j k).
Proof.
  revert k. induction fuel as [|fuel IH]; intros k Hg; simpl; [done|].
  destruct (_ && _ && _) eqn:E; [|done]. apply andb_prop in E as [_ E%bool_decide_eq_true].
  apply IH. unfold genuine in *; simpl in *. by rewrite !slice_snoc, Hg, E.
Qed.

(** [find_longest_match] returns a match: [a[i:i+k] == b[j:j+k]]. *)
Lemma find_longest_match_genuine a b alo ahi blo bhi :
  alo <= ahi -> blo <= bhi -> genuine a b (find_longest_match a b alo ahi blo bhi).
Proof.
  intros Ha Hb. unfold find_longest_match.
  pose proof (flm_rows_gen a b alo ahi blo bhi (ahi - alo) alo [] (alo, blo, 0)) as H0.
  destruct (flm_rows _ _ _ _ _ _ _) as [[i0 j0] k0].
  pose proof (ext_back_gen a b alo blo i0 j0 k0) as H1.
  destruct (ext_back _ _ _ _ _ _ _) as [[i1 j1] k1].
  apply ext_fwd_gen, H1, H0; try constructor; unfold block_in; simpl; lia.
Qed.
End Genuine.

(** ** The blocks of [get_matching_blocks] use each element at most once *)

Section Blocks.
Context {A : Type} `{EqDecision A}.
Implicit Types (a b : list A).

Lemma cond_submseteq (c : bool) (l k : list A) : (if c then l else []) ++ k ⊆+ l ++ k.
Proof. destruct c; [done|]. by apply submseteq_inserts_l. Qed.

Lemma qslices_a_cons a q queue :
  qslices_a a (q :: queue) = slice a q.1.1.1 (q.1.1.2 - q.1.1.1) ++ qslices_a a queue.
Proof. done. Qed.

Lemma qslices_b_cons b q queue :
  qslices_b b (q :: queue) = slice b q.1.2 (q.2 - q.1.2) ++ qslices_b b queue.
Proof. done. Qed.

Lemma qslices_a_push a (c : bool) q queue :
  qslices_a a (if c then q :: queue else queue) =
  (if c then slice a q.1.1.1 (q.1.1.2 - q.1.1.1) else []) ++ qslices_a a queue.
Proof. by destruct c. Qed.

Lemma qslices_b_push b (c : bool) q queue :
  qslices_b b (if c then q :: queue else queue) =
  (if c then slice b q.1.2 (q.2 - q.1.2) else []) ++ qslices_b b queue.
Proof. by destruct c. Qed.

Lemma bslices_a_snoc a blocks t : bslices_a a (blocks ++ [t]) = bslices_a a blocks ++ slice a t.1.1 t.2.
Proof. unfold bslices_a. by rewrite map_app, concat_app; simpl; rewrite app_nil_r. Qed.

Lemma bslices_b_snoc b blocks t : bslices_b b (blocks ++ [t]) = bslices_b b blocks ++ slice b t.1.2 t.2.
Proof. unfold bslices_b. by rewrite map_app, concat_app; simpl; rewrite app_nil_r. Qed.

(** One iteration: the range [sL ++ sB ++ sR] is replaced by the ranges
    left and right of the block, when they are pushed, and the block. *)
Lemma push_submseteq (sL sB sR qs bs : list A) (c1 c2 : bool) :
  (if c2 then sR else []) ++ (if c1 then sL else []) ++ qs ++ bs ++ sB ⊆+
  (sL ++ sB ++ sR ++ qs) ++ bs.
Proof.
  etrans; [apply cond_submseteq|]. etrans; [apply submseteq_skips_l, cond_submseteq|].
  apply Permutation_submseteq. solve_Permutation.
Qed.

Lemma gmb_loop_sub a b fuel queue blocks res :
  Forall (pending_ok a b) queue -> Forall (found_ok a b) blocks ->
  qslices_a a queue ++ bslices_a a blocks ⊆+ a ->
  qslices_b b queue ++ bslices_b b blocks ⊆+ b ->
  gmb_loop a b fuel queue blocks = Some res ->
  Forall (found_ok a b) res /\ bslices_a a res ⊆+ a /\ bslices_b b res ⊆+ b.
Proof.
  revert queue blocks. induction fuel as [|fuel IH]; intros queue blocks Hq Hb Ha' Hb'.
  { destruct queue as [|[[[??]?]?] ?]; simpl; [intros [= <-]; by simpl in *|intros [=]]. }
  destruct queue as [|[[[alo ahi] blo] bhi] queue]; simpl; [intros [= <-]; by simpl in *|].
  apply Forall_cons in Hq as [(Hr & Hla & Hlb) Hq]. unfold range_ok in Hr; simpl in *.
  pose proof (find_longest_match_bounds a b alo ahi blo bhi) as Hin.
  pose proof (find_longest_match_genuine a b alo ahi blo bhi) as Hgen.
  destruct (find_longest_match a b alo ahi blo bhi) as [[i j] k].
  destruct Hin as (? & ? & ? & ?); [lia|lia|]. specialize (Hgen ltac:(lia) ltac:(lia)). simpl in *.
  rewrite qslices_a_cons, <- app_assoc in Ha'. rewrite qslices_b_cons, <- app_assoc in Hb'.
  destruct (Nat.eqb_spec k 0).
  - apply IH; [done|done| |]; (etrans; [|done]); by apply submseteq_inserts_l.
  - apply IH.
    + repeat (destruct (_ && _); [constructor; [unfold pending_ok, range_ok; simpl; lia|]|]); done.
    + apply Forall_app; split; [done|]. constructor; [|done]. split_and!; [done|simpl; lia..].
    + simpl in Ha'. rewrite (slice_split a alo ahi i k) in Ha' by lia.
      rewrite !qslices_a_push, bslices_a_snoc, <- !app_assoc. simpl. etrans; [apply push_submseteq|].
      by rewrite <- !app_assoc in *.
    + simpl in Hb'. rewrite (slice_split b blo bhi j k) in Hb' by lia.
      rewrite !qslices_b_push, bslices_b_snoc, <- !app_assoc. simpl. etrans; [apply push_submseteq|].
      by rewrite <- !app_assoc in *.
Qed.

(** The loop started on the whole of [a] and [b]. *)
Lemma matching_blocks_ok a b :
  Forall (found_ok a b) (matching_blocks a b) /\
  bslices_a a (matching_blocks a b) ⊆+ a /\ bslices_b b (matching_blocks a b) ⊆+ b.
Proof.
  destruct (gmb_loop_spec a b (gmb_fuel a) [(0, length a, 0, length b)] []) as (res & Hres & _).
  { repeat constructor; simpl; lia. } { unfold gmb_fuel. simpl. lia. }
  unfold matching_blocks. rewrite Hres. simpl.
  apply (gmb_loop_sub a b (gmb_fuel a) [(0, length a, 0, length b)] []); try done.
  - repeat constructor; simpl; lia.
  - rewrite qslices_a_cons. cbn [fst snd]. rewrite Nat.sub_0_r, slice_full. by rewrite !app_nil_r.
  - rewrite qslices_b_cons. cbn [fst snd]. rewrite Nat.sub_0_r, slice_full. by rewrite !app_nil_r.
Qed.
End Blocks.

(** ** [ratio() <= quick_ratio()] *)

Section Quick.
Context {A : Type} `{Countable A}.
Implicit Types (a b : list A).

(** The matched elements: a common sub-multiset of [a] and [b] with
    [matches a b] elements. *)
Lemma matched_sub a b :
  exists ml, ml ⊆+ a /\ ml ⊆+ b /\ length ml = matches a b.
Proof.
  destruct (matching_blocks_ok a b) as (Hok & Ha & Hb).
  exists (bslices_a a (matching_blocks a b)). split_and!; [done| |].
  - enough (bslices_a a (matching_blocks a b) = bslices_b b (matching_blocks a b)) as -> by done.
    unfold bslices_a, bslices_b. f_equal. apply map_ext_Forall.
    eapply Forall_impl; [exact Hok|]. by intros t [? _].
  - unfold matches, bslices_a. clear Ha Hb.
    induction Hok as [|[[i j] k] res (_ & Hl & _) _ IH]; simpl in *; [done|].
    rewrite length_app, slice_length by lia. lia.
Qed.

Lemma list_to_set_disj_submseteq (l1 l2 : list A) :
  l1 ⊆+ l2 -> list_to_set_disj l1 ⊆@{gmultiset A} list_to_set_disj l2.
Proof.
  induction 1; rewrite ?list_to_set_disj_cons; multiset_solver.
Qed.

Lemma size_list_to_set_disj (l : list A) : size (list_to_set_disj l : gmultiset A) = length l.
Proof.
  induction l as [|x l IH]; simpl; [apply (gmultiset_size_empty (A:=A))|].
  rewrite gmultiset_size_disj_union, gmultiset_size_singleton. lia.
Qed.

Lemma filter_lookup_shift (y : A) l x n k :
  length (filter (fun j => (y :: l) !! j = Some x) (seq (S k) n)) =
  length (filter (fun j => l !! j = Some x) (seq k n)).
Proof.
  revert k. induction n as [|n IH]; intros k; [done|].
  cbn [seq]. rewrite !filter_cons. simpl. by case_decide; simpl; rewrite IH.
Qed.

(** [len(b2j[x])] before [autojunk] is the number of occurrences of [x]. *)
Lemma b_indices_count b x : length (b_indices b x) = multiplicity x (list_to_set_disj b).
Proof.
  unfold b_indices. induction b as [|y b IH]; simpl; [by rewrite multiplicity_empty|].
  rewrite filter_cons, multiplicity_disj_union, multiplicity_singleton. simpl.
  pose proof (filter_lookup_shift y b x (length b) 0) as Hs.
  case_decide as Hxy; case_decide; simplify_eq; simpl; rewrite Hs, IH; lia.
Qed.

Lemma avail_enc_nil b : avail_enc b [] (list_to_set_disj b).
Proof. intros x. simpl. by rewrite b_indices_count. Qed.

(** One step of [quick_ratio]'s loop, with [numb] the available count of [x]. *)
Lemma avail_enc_step b avail R x numb :
  avail_enc b avail R ->
  numb = match avail_get avail x with Some n => n | None => Z.of_nat (length (b_indices b x)) end ->
  multiplicity x R = Z.to_nat numb /\
  avail_enc b ((x, (numb - 1)%Z) :: avail) (R ∖ {[+ x +]}).
Proof.
  intros Henc ->. split.
  { rewrite Henc. destruct (avail_get avail x); [done|]. by rewrite Nat2Z.id. }
  intros y. simpl. rewrite multiplicity_difference, multiplicity_singleton, Henc.
  case_bool_decide as Hyx; case_decide; simplify_eq; [|lia].
  destruct (avail_get avail x); [lia|]. rewrite Z2Nat.inj_sub, Nat2Z.id; lia.
Qed.

(** Every common sub-multiset of the rest of [a] and of the elements still
    available in [b] is counted by the rest of the loop. *)
Lemma qr_loop_bound b avail R xs m (S : gmultiset A) :
  avail_enc b avail R -> S ⊆ list_to_set_disj xs -> S ⊆ R ->
  size S + m <= qr_loop b avail xs m.
Proof.
  revert avail R m S. induction xs as [|x xs IH]; intros avail R m S Henc Hxs HR; simpl in *.
  { assert (S = ∅) as -> by multiset_solver. rewrite gmultiset_size_empty. lia. }
  set (numb := match avail_get avail x with Some n => n | None => _ end).
  destruct (avail_enc_step b avail R x numb Henc eq_refl) as [Hx Henc'].
  destruct (Z.ltb_spec 0 numb).
  - destruct (decide (x ∈ S)) as [Hin|Hnin].
    + pose proof (IH _ _ (Datatypes.S m) (S ∖ {[+ x +]}) Henc' ltac:(multiset_solver) ltac:(multiset_solver)).
      rewrite gmultiset_size_difference in * by multiset_solver.
      rewrite gmultiset_size_singleton in *.
      pose proof (gmultiset_subseteq_size {[+ x +]} S ltac:(multiset_solver)).
      rewrite gmultiset_size_singleton in *. lia.
    + pose proof (IH _ _ (Datatypes.S m) S Henc' ltac:(multiset_solver) ltac:(multiset_solver)). lia.
  - assert (x ∉ S) by multiset_solver.
    assert (R ∖ {[+ x +]} = R) as Hr by multiset_solver. rewrite Hr in Henc'.
    apply (IH _ _ m S Henc'); multiset_solver.
Qed.

(** The number of matched elements is at most what [quick_ratio] counts. *)
Lemma matches_le_quick a b : matches a b <= qr_loop b [] a 0.
Proof.
  destruct (matched_sub a b) as (ml & Ha & Hb & <-).
  pose proof (qr_loop_bound b [] _ a 0 (list_to_set_disj ml) (avail_enc_nil b)
    (list_to_set_disj_submseteq _ _ Ha) (list_to_set_disj_submseteq _ _ Hb)).
  rewrite size_list_to_set_disj in *. lia.
Qed.
End Quick.

(** ** The cheap tests of [get_close_matches] never change its result *)

Section Filters.
Context {A : Type} `{Countable A}.
Implicit Types (a b : list A).

(** [ratio() <= quick_ratio()]: the blocks of [get_matching_blocks] match
    at most as many elements as the multiset intersection that
    [quick_ratio] counts. *)
Lemma ratio_le_quick a b : score_ge (quick_ratio a b) (ratio a b) = true.
Proof.
  unfold ratio, quick_ratio, calculate_ratio, score_ge. pose proof (matches_le_quick a b).
  destruct (Nat.eqb_spec (length a + length b) 0); simpl; [done|apply Nat.leb_le; nia].
Qed.

(** C28: every block [(i, j, k)] the loop of [get_matching_blocks] finds is
    a match, [a[i:i+k] == b[j:j+k]] inside both sequences, and the blocks
    together use each element of [a] and of [b] at most once. *)
Theorem matching_blocks_match a b :
  Forall (fun t : block => slice a t.1.1 t.2 = slice b t.1.2 t.2 /\
            t.1.1 + t.2 <= length a /\ t.1.2 + t.2 <= length b) (matching_blocks a b) /\
  bslices_a a (matching_blocks a b) ⊆+ a /\ bslices_b b (matching_blocks a b) ⊆+ b.
Proof. exact (matching_blocks_ok a b). Qed.
End Filters.

Lemma score_ge_trans s t c :
  0 < t.2 -> score_ge s t = true -> score_ge t c = true -> score_ge s c = true.
Proof. unfold score_ge. rewrite !Nat.leb_le. nia. Qed.

Lemma ratio_pos a b : 0 < (ratio (A:=ascii) a b).2.
Proof. unfold ratio, calculate_ratio. destruct (Nat.eqb_spec (length a + length b) 0); simpl; lia. Qed.

Lemma close_candidate_ratio_only cutoff word x :
  close_candidate cutoff word x = ratio_candidate cutoff word x.
Proof.
  unfold close_candidate, ratio_candidate.
  destruct (score_ge (ratio _ _) cutoff) eqn:E; [|by rewrite andb_false_r].
  by rewrite (score_ge_trans _ _ _ (ratio_pos _ _) (ratio_le_real_quick _ _) E),
    (score_ge_trans _ _ _ (ratio_pos _ _) (ratio_le_quick _ _) E).
Qed.

(** ** [ratio() == 1.0] exactly for equal sequences *)

Section Exact.
Context {A : Type} `{EqDecision A}.
Implicit Types (a b : list A).

Lemma qmin_push (c : bool) alo ahi blo bhi queue :
  qmin (if c then (alo, ahi, blo, bhi) :: queue else queue) =
  (if c then Nat.min (ahi - alo) (bhi - blo) else 0) + qmin queue.
Proof. by destruct c. Qed.

(** One iteration of the loop on a range of [n = ahi - alo] elements on
    the diagonal: what the block and the pushed ranges can match is at
    most [n], and it is [n] only when the block is on the diagonal. *)
Lemma qmin_push_diag alo ahi i j k rest :
  alo <= i -> i + k <= ahi -> alo <= j -> j + k <= ahi ->
  let q1 := if (alo <? i) && (alo <? j) then (alo, i, alo, j) :: rest else rest in
  let q2 := if (i + k <? ahi) && (j + k <? ahi) then (i + k, ahi, j + k, ahi) :: q1 else q1 in
  k + qmin q2 <= (ahi - alo) + qmin rest /\
  (k + qmin q2 = (ahi - alo) + qmin rest -> i = j).
Proof.
  intros ????. simpl. rewrite !qmin_push.
  destruct (Nat.ltb_spec alo i), (Nat.ltb_spec alo j), (Nat.ltb_spec (i + k) ahi),
    (Nat.ltb_spec (j + k) ahi); simpl; lia.
Qed.

Lemma gmb_loop_min a b fuel queue blocks res :
  Forall range_ok queue -> gmb_loop a b fuel queue blocks = Some res ->
  bsum res <= bsum blocks + qmin queue.
Proof.
  revert queue blocks. induction fuel as [|fuel IH]; intros queue blocks Hq.
  { destruct queue as [|[[[??]?]?] ?]; simpl; [intros [= <-]; lia|intros [=]]. }
  destruct queue as [|[[[alo ahi] blo] bhi] queue]; simpl; [intros [= <-]; lia|].
  apply Forall_cons in Hq as [Hr Hq]. unfold range_ok in Hr; simpl in Hr.
  pose proof (find_longest_match_bounds a b alo ahi blo bhi) as Hin.
  destruct (find_longest_match a b alo ahi blo bhi) as [[i j] k].
  destruct Hin as (? & ? & ? & ?); [lia|lia|]. simpl in *.
  destruct (Nat.eqb_spec k 0).
  - intros ?%IH; [lia|done].
  - intros Hres. pose proof (gmb_push_ok alo ahi blo bhi i j k queue) as Hok.
    apply IH in Hres; [|apply Hok; [unfold block_in; simpl; lia|done]].
    rewrite bsum_snoc, !qmin_push in Hres. simpl in Hres.
    destruct (Nat.ltb_spec alo i), (Nat.ltb_spec blo j), (Nat.ltb_spec (i + k) ahi),
      (Nat.ltb_spec (j + k) bhi); simpl in Hres; lia.
Qed.

Lemma slice_agree a b i k p :
  slice a i k = slice b i k -> i <= p < i + k -> a !! p = b !! p.
Proof.
  intros Hs Hp. apply (f_equal (fun l => l !! (p - i))) in Hs. unfold slice in Hs.
  rewrite !lookup_take_lt, !lookup_drop in Hs by lia. by replace (i + (p - i)) with p in Hs by lia.
Qed.

(** When the loop matches as much as its pending ranges allow, every block
    lies on the diagonal and [a] and [b] agree everywhere. *)
Lemma gmb_loop_exact a b fuel queue blocks res :
  length a = length b -> Forall (diag_ok a) queue -> agree_outside a b queue ->
  gmb_loop a b fuel queue blocks = Some res -> bsum res = bsum blocks + qmin queue ->
  forall p, p < length a -> a !! p = b !! p.
Proof.
  intros Hlen. revert queue blocks. induction fuel as [|fuel IH]; intros queue blocks Hq Hag.
  { destruct queue as [|[[[??]?]?] ?]; simpl; [|intros [=]]. intros _ _ p Hp. by apply Hag. }
  destruct queue as [|[[[alo ahi] blo] bhi] queue]; simpl.
  { intros _ _ p Hp. by apply Hag. }
  apply Forall_cons in Hq as [(Hab & Hah & Hr & Hra) Hq]; simpl in Hab, Hah, Hr, Hra; subst blo bhi.
  pose proof (find_longest_match_bounds a b alo ahi alo ahi) as Hin.
  pose proof (find_longest_match_genuine a b alo ahi alo ahi) as Hgen.
  destruct (find_longest_match a b alo ahi alo ahi) as [[i j] k].
  destruct Hin as (? & ? & ? & ?); [lia|lia|]. specialize (Hgen ltac:(lia) ltac:(lia)).
  unfold genuine in Hgen; simpl in *.
  assert (Hrq : Forall range_ok queue).
  { eapply Forall_impl; [exact Hq|]. intros q (? & ? & ? & ?). unfold range_ok. lia. }
  destruct (Nat.eqb_spec k 0) as [->|Hk].
  - intros Hres Heq. pose proof (gmb_loop_min a b fuel queue blocks res Hrq Hres).
    apply (IH queue blocks); [done| |done|lia].
    intros p Hp Hout. apply Hag; [done|]. constructor; [simpl; lia|done].
  - intros Hres Heq. destruct (qmin_push_diag alo ahi i j k queue) as [Hle Hdiag]; [lia..|].
    pose proof (gmb_push_ok alo ahi alo ahi i j k queue) as Hok.
    pose proof (gmb_loop_min a b fuel _ _ res ltac:(apply Hok; [unfold block_in; simpl; lia|done]) Hres)
      as Hmin.
    rewrite bsum_snoc in Hmin. simpl in Hmin.
    assert (i = j) as <- by (apply Hdiag; lia).
    refine (IH _ _ _ _ Hres _); [| |rewrite bsum_snoc; simpl; lia].
    + destruct (Nat.ltb_spec alo i), (Nat.ltb_spec (i + k) ahi); simpl;
        repeat (constructor; [unfold diag_ok; simpl; lia|]); done.
    + intros p Hp Hout. destruct (decide (alo <= p < ahi)) as [Hin|Hnin].
      * destruct (decide (i <= p < i + k)); [by apply (slice_agree a b i k)|].
        exfalso. destruct (Nat.ltb_spec alo i), (Nat.ltb_spec (i + k) ahi); simpl in Hout;
          repeat match goal with H : Forall _ (_ :: _) |- _ => apply Forall_cons in H as [? ?] end;
          simpl in *; lia.
      * apply Hag; [done|]. constructor; [done|].
        destruct (_ && _); [apply Forall_cons in Hout as [_ Hout]|];
          (destruct (_ && _); [apply Forall_cons in Hout as [_ Hout]|]); done.
Qed.

(** [ratio() == 1.0] only for equal sequences. *)
Lemma ratio_one_eq a b : score_eq (ratio a b) (1, 1) = true -> a = b.
Proof.
  unfold ratio, calculate_ratio. pose proof (matches_le a b) as [Ma Mb].
  destruct (Nat.eqb_spec (length a + length b) 0) as [E|E]; simpl.
  { intros _. destruct a, b; simpl in *; done || lia. }
  unfold score_eq. simpl. intros Heq%Nat.eqb_eq. assert (matches a b = length a /\ length a = length b) as [HM Hl] by lia.
  destruct (gmb_loop_spec a b (gmb_fuel a) [(0, length a, 0, length b)] []) as (res & Hres & _).
  { repeat constructor; simpl; lia. } { unfold gmb_fuel. simpl. lia. }
  apply list_eq. intros p. destruct (decide (p < length a)).
  - apply (gmb_loop_exact a b (gmb_fuel a) [(0, length a, 0, length b)] [] res Hl); try done.
    + repeat constructor; unfold diag_ok; simpl; lia.
    + intros q Hq Hout. apply Forall_cons in Hout as [Hout _]. simpl in Hout. lia.
    + unfold matches, matching_blocks in HM. rewrite Hres in HM. simpl in *. unfold bsum. lia.
  - rewrite !lookup_ge_None_2; [done|lia|lia].
Qed.
End Exact.

(** ** Theorems *)

Section Claims.
Context {A : Type} `{EqDecision A}.

(** C22: for a string shorter than 200 characters (below the [autojunk]
    threshold), [SequenceMatcher(None, a, b).ratio() == 1.0] exactly when
    [b == a]. *)
Theorem ratio_one_iff (a b : list A) :
  length a < 200 -> score_eq (ratio a b) (1, 1) = true <-> a = b.
Proof. intros Hsmall. split; [apply ratio_one_eq|intros <-; by apply ratio_self]. Qed.
End Claims.

(** C21: the three tests of [get_close_matches] ([real_quick_ratio],
    [quick_ratio], [ratio] against the cutoff) select the same
    possibilities as the [ratio()] test alone, so [get_close_matches]
    returns what the reference with only that test returns. *)
Theorem get_close_matches_ratio_eq word poss cutoff :
  get_close_matches word poss cutoff = get_close_matches_ratio word poss cutoff.
Proof.
  unfold get_close_matches, get_close_matches_ratio.
  rewrite (list_omap_ext _ (ratio_candidate cutoff word) poss poss); [done|].
  apply Forall_Forall2_diag, Forall_true. intros x. apply close_candidate_ratio_only.
Qed.

(** ** Witnesses *)

Lemma ratio_one_iff_witness :
  score_eq (ratio (String.list_ascii_of_string "snakebite") (String.list_ascii_of_string "snakebite"))
    (1, 1) = true.
Proof.
  apply (ratio_one_iff (String.list_ascii_of_string "snakebite") (String.list_ascii_of_string "snakebite"));
    [simpl; lia|reflexivity].
Defined.

End DifflibMatch.
