(* ===== verification/Resolver.v ===== *)
(** * Resolver: [get_response] (src/offline_agent.py lines 46-66)

    The answer to a question is found in four layers, the first that fires
    wins: a small-talk trigger contained in the lower-cased input; a keyword
    of a topic contained in it (the topic's instructions, or a fixed
    "not found" message when the topic has no knowledge record); the topic
    whose title is closest to the whole input by [difflib] (ratio at least
    0.4); a fixed default message.  The tables are read, never written.

    [get_response] returns [Some answer]; [None] stands for the [KeyError]
    that [knowledge[closest[0]]] would raise, which [get_response_total]
    shows never happens. *)

From S2P Require Import Prelude PyStr PyDict Knowledge Difflib DifflibMatch.
From stdpp Require Import base list sets strings.

Module Resolver.
Import PyStr PyDict Knowledge Difflib DifflibMatch.

Local Open Scope string_scope.
Local Open Scope py_scope.
Local Open Scope list_scope.

Definition MSG_NOT_FOUND : string := "Instructions not found, call emergency services.".
Definition MSG_DEFAULT : string := "Sorry, no instructions found. Call emergency services.".

(** Lines 50-52: [for topic, response in small_talk.items():
    if topic in user_input: return response]. *)
Definition small_talk_step (st : store) (u : string) : option string :=
  for_return tr in small_talk st do
    if py_contains tr.1 u then Some tr.2 else None.

(** Lines 55-58: [for topic, keys in keywords.items(): for key in keys:
    if key in user_input: return knowledge.get(topic, "Instructions ...")]. *)
Definition keyword_step (st : store) (u : string) : option string :=
  for_return tk in keywords st do
    for_return key in tk.2 do
      if py_contains key u
      then Some (default MSG_NOT_FOUND (dict_get (knowledge st) tk.1))
      else None.

(** Lines 61-63: [closest = difflib.get_close_matches(user_input,
    knowledge.keys(), n=1, cutoff=0.4)]; [if closest: return
    knowledge[closest[0]]]. *)
Definition fuzzy_step (st : store) (u : string) : option (option string) :=
  match get_close_matches u (dict_keys (knowledge st)) cutoff_04 with
  | x :: _ => Some (dict_get (knowledge st) x)
  | [] => None
  end.

(** Lines 46-66. *)
Definition get_response (st : store) (user_input : string) : option string :=
  let u := py_lower user_input in
  match small_talk_step st u with
  | Some r => Some r
  | None =>
      match keyword_step st u with
      | Some r => Some r
      | None =>
          match fuzzy_step st u with
          | Some r => r
          | None => Some MSG_DEFAULT
          end
      end
  end.

(** No small-talk trigger, and no keyword, occurs in [u]. *)
Definition no_small_talk (st : store) (u : string) : Prop :=
  Forall (fun tr : string * string => py_contains tr.1 u = false) (small_talk st).

Definition no_keyword (st : store) (u : string) : Prop :=
  Forall (fun tk : string * list string => Forall (fun key => py_contains key u = false) tk.2)
    (keywords st).

(** Sample data files, loaded by the modelled loaders (used by the witnesses). *)

Definition sample_first_aid : string := "Burns:
Cool the burn under running water.

Snakebite:
Keep the person still.

Choking:
Give five back blows.".

Definition sample_keywords : string := "burns: burn, scald
snakebite: snake bite, bitten by snake
choking: choke".

Definition sample_small_talk : string := "hello: Hi there!
thanks: You're welcome.".

Definition sample_store : store := load sample_first_aid sample_keywords sample_small_talk.

Local Abbreviation L := String.list_ascii_of_string.


(** ** The layers one by one *)

Lemma small_talk_step_None st u : small_talk_step st u = None <-> no_small_talk st u.
Proof.
  unfold small_talk_step, no_small_talk. rewrite first_some_None.
  apply Forall_iff. intros [t r]; simpl. by destruct (py_contains t u).
Qed.

Lemma keyword_step_None st u : keyword_step st u = None <-> no_keyword st u.
Proof.
  unfold keyword_step, no_keyword. rewrite first_some_None.
  apply Forall_iff. intros [t ks]; simpl. rewrite first_some_None.
  apply Forall_iff. intros key. by destruct (py_contains key u).
Qed.

Lemma get_response_unfold_none st ui :
  no_small_talk st (py_lower ui) -> no_keyword st (py_lower ui) ->
  get_response st ui =
    match fuzzy_step st (py_lower ui) with Some r => r | None => Some MSG_DEFAULT end.
Proof.
  intros Hs Hk. unfold get_response.
  apply small_talk_step_None in Hs as ->. by apply keyword_step_None in Hk as ->.
Qed.

(** ** Behaviour of [get_response] *)

(** C1: the first small-talk trigger, in insertion order, that occurs in
    the lower-cased input decides the answer: its reply is returned. *)
Theorem get_response_small_talk st ui l1 t r l2 :
  small_talk st = l1 ++ (t, r) :: l2 ->
  Forall (fun tr : string * string => py_contains tr.1 (py_lower ui) = false) l1 ->
  py_contains t (py_lower ui) = true ->
  get_response st ui = Some r.
Proof.
  intros Hst Hl1 Ht. unfold get_response, small_talk_step. rewrite Hst.
  erewrite first_some_first; [done| |simpl; by rewrite Ht].
  eapply Forall_impl; [exact Hl1|]. intros [t' r'] H; simpl in *. by rewrite H.
Qed.

(** The keyword layer returns for the first key, in the order of the
    topics and then of their keys, that occurs in [u]. *)
Lemma keyword_step_first st u k1 topic keys k2 ks1 key ks2 :
  keywords st = k1 ++ (topic, keys) :: k2 ->
  Forall (fun tk : string * list string => Forall (fun key => py_contains key u = false) tk.2) k1 ->
  keys = ks1 ++ key :: ks2 ->
  Forall (fun key => py_contains key u = false) ks1 ->
  py_contains key u = true ->
  keyword_step st u = Some (default MSG_NOT_FOUND (dict_get (knowledge st) topic)).
Proof.
  intros Hkw Hk1 -> Hks1 Hkey. unfold keyword_step. rewrite Hkw.
  erewrite first_some_first; [done| |].
  - eapply Forall_impl; [exact Hk1|]. intros [t ks] H; simpl in *.
    apply first_some_None. eapply Forall_impl; [exact H|]. intros k Hk. by rewrite Hk.
  - simpl. apply first_some_first; [|by rewrite Hkey].
    eapply Forall_impl; [exact Hks1|]. intros k Hk. by rewrite Hk.
Qed.

(** A title of the loaded knowledge is lower-case. *)
Lemma load_knowledge_get_lower kd t c : dict_get (load_knowledge kd) t = Some c -> py_lower t = t.
Proof.
  intros Hg%dict_get_elem. destruct (load_keys_lower kd "") as [Hl _].
  rewrite Forall_forall in Hl. exact (Hl (t, c) Hg).
Qed.

(** C2: with no small-talk trigger in the input, the first keyword, in
    the order of the topics and then of their keys, that occurs in the
    lower-cased input decides the answer: the instructions of its topic, or
    the "not found" message when the knowledge has no such topic. *)
Theorem get_response_keyword st ui k1 topic keys k2 ks1 key ks2 :
  no_small_talk st (py_lower ui) ->
  keywords st = k1 ++ (topic, keys) :: k2 ->
  Forall (fun tk : string * list string =>
            Forall (fun key => py_contains key (py_lower ui) = false) tk.2) k1 ->
  keys = ks1 ++ key :: ks2 ->
  Forall (fun key => py_contains key (py_lower ui) = false) ks1 ->
  py_contains key (py_lower ui) = true ->
  get_response st ui = Some (default MSG_NOT_FOUND (dict_get (knowledge st) topic)).
Proof.
  intros Hs Hkw Hk1 Hkeys Hks1 Hkey. unfold get_response.
  apply small_talk_step_None in Hs as ->. by erewrite keyword_step_first.
Qed.

(** C3: with no small-talk trigger and no keyword in the input, a topic
    whose [(ratio, title)] against the lower-cased input reaches the cutoff
    and beats every other qualifying topic is answered with its
    instructions. *)
Theorem get_response_fuzzy st ui x c :
  no_small_talk st (py_lower ui) -> no_keyword st (py_lower ui) ->
  dict_get (knowledge st) x = Some c ->
  close_candidate cutoff_04 (py_lower ui) x = Some (ratio (L x) (L (py_lower ui)), x) ->
  (forall y p, y ∈ dict_keys (knowledge st) -> y <> x ->
     close_candidate cutoff_04 (py_lower ui) y = Some p ->
     cand_gt (ratio (L x) (L (py_lower ui)), x) p = true) ->
  get_response st ui = Some c.
Proof.
  intros Hs Hk Hx Hcx Hmax. rewrite get_response_unfold_none by done. unfold fuzzy_step.
  assert (Hin : x ∈ dict_keys (knowledge st)).
  { apply dict_get_elem in Hx. apply list_elem_of_fmap. by exists (x, c). }
  pose proof (get_close_matches_length (py_lower ui) (dict_keys (knowledge st)) cutoff_04) as Hlen.
  destruct (get_close_matches _ _ _) as [|x' [|??]] eqn:E; simpl in Hlen; [|clear Hlen|lia].
  - apply get_close_matches_nil in E. rewrite Forall_forall in E.
    by rewrite E in Hcx.
  - apply get_close_matches_best in E as (Hx' & Hcx' & Hbest).
    specialize (Hbest x _ Hin Hcx).
    destruct (decide (x' = x)) as [->|Hne]; [by rewrite Hx|].
    by rewrite (Hmax x' _ Hx' Hne Hcx') in Hbest.
Qed.

(** C4: with no small-talk trigger, no keyword, and no topic title
    whose ratio against the lower-cased input reaches 0.4, the answer is the
    fixed default message. *)
Theorem get_response_default st ui :
  no_small_talk st (py_lower ui) -> no_keyword st (py_lower ui) ->
  Forall (fun x => score_ge (ratio (L x) (L (py_lower ui))) cutoff_04 = false)
    (dict_keys (knowledge st)) ->
  get_response st ui = Some MSG_DEFAULT.
Proof.
  intros Hs Hk Hr. rewrite get_response_unfold_none by done. unfold fuzzy_step.
  replace (get_close_matches _ _ _) with (@nil string); [done|]. symmetry.
  apply get_close_matches_nil. eapply Forall_impl; [exact Hr|]. intros x Hx.
  unfold close_candidate. by rewrite Hx, andb_false_r.
Qed.

(** C5: [get_response] always returns an answer: [knowledge[closest[0]]]
    never raises [KeyError], because the closest match is one of the keys. *)
Theorem get_response_total st ui : is_Some (get_response st ui).
Proof.
  unfold get_response. destruct (small_talk_step _ _); [done|].
  destruct (keyword_step _ _); [done|]. unfold fuzzy_step.
  pose proof (get_close_matches_length (py_lower ui) (dict_keys (knowledge st)) cutoff_04) as Hlen.
  destruct (get_close_matches _ _ _) as [|x [|??]] eqn:E; simpl in Hlen; [done| |lia].
  apply get_close_matches_best in E as (Hx & _). by apply dict_keys_get.
Qed.

(** The answer does not depend on the case of the input:
    [get_response] lower-cases first. *)
Theorem get_response_case_insensitive st ui :
  get_response st (py_lower ui) = get_response st ui.
Proof. unfold get_response. by rewrite py_lower_idem. Qed.

(** C6: a knowledge file that is empty or white space is not rejected:
    the loader stores one topic whose title and instructions are both
    empty.  An empty question, as a blank transcription sends through
    [_listen], then matches that title exactly and is answered with empty
    instructions instead of the default message. *)
Theorem blank_knowledge_file kd kw stt :
  py_strip kd = "" ->
  knowledge (load kd kw stt) = [("", "")] /\
  (no_small_talk (load kd kw stt) "" -> no_keyword (load kd kw stt) "" ->
   get_response (load kd kw stt) "" = Some "").
Proof.
  intros Hb. assert (Hk : knowledge (load kd kw stt) = [("", "")]).
  { simpl. unfold load_knowledge. rewrite Hb. vm_refl. }
  split; [done|]. intros Hs Hw. rewrite get_response_unfold_none by done.
  unfold fuzzy_step. rewrite Hk. vm_refl.
Qed.

(** C7: every answer is a small-talk reply, the instructions of a
    topic, or one of the two fixed messages. *)
Theorem get_response_range st ui r :
  get_response st ui = Some r ->
  (exists t, (t, r) ∈ small_talk st) \/ (exists x, (x, r) ∈ knowledge st) \/
  r = MSG_NOT_FOUND \/ r = MSG_DEFAULT.
Proof.
  unfold get_response. destruct (small_talk_step st _) as [r'|] eqn:Es.
  - intros [= <-]. apply first_some_elem in Es as ([t r''] & Hin & H). simpl in H.
    destruct (py_contains t _); [injection H as ->; left; eauto|done].
  - destruct (keyword_step st _) as [r'|] eqn:Ek.
    + intros [= <-]. apply first_some_elem in Ek as ([t ks] & _ & H). simpl in H.
      apply first_some_elem in H as (key & _ & H).
      destruct (py_contains key _); [|done]. injection H as <-.
      destruct (dict_get (knowledge st) t) as [c|] eqn:Ec; simpl; [|auto].
      apply dict_get_elem in Ec. eauto.
    + unfold fuzzy_step. destruct (get_close_matches _ _ _) as [|x ?]; [intros [= <-]; auto|].
      intros Hx%dict_get_elem. eauto.
Qed.

(** C23: a topic whose keyword list holds the empty key (the line
    ["topic: a, b,"] of [data/keywords.txt] gives one) answers every input
    without a small-talk trigger from the keyword layer: [""] is contained
    in every string, so the fuzzy match and the default are never reached. *)
Theorem get_response_empty_key st ui k1 topic keys k2 :
  keywords st = k1 ++ (topic, keys) :: k2 -> "" ∈ keys ->
  no_small_talk st (py_lower ui) ->
  exists r, keyword_step st (py_lower ui) = Some r /\ get_response st ui = Some r.
Proof.
  intros Hkw Hin Hs. destruct (keyword_step st (py_lower ui)) as [r|] eqn:Ek.
  - exists r. split; [done|]. unfold get_response.
    apply small_talk_step_None in Hs as ->. by rewrite Ek.
  - exfalso. apply keyword_step_None in Ek. unfold no_keyword in Ek. rewrite Hkw in Ek.
    apply Forall_app in Ek as [_ [Hk _]%Forall_cons]. simpl in Hk.
    rewrite Forall_forall in Hk. specialize (Hk _ Hin). by destruct (py_lower ui).
Qed.

(** ** What the model shows about the loaders and the resolver *)

(** C29: a question that is exactly a topic title (once lower-cased), with
    no small-talk trigger and no keyword in it, gets that topic's
    instructions from the fuzzy layer: the title has ratio [1.0], and only
    the title itself has. *)
Theorem get_response_exact_topic st ui c :
  no_small_talk st (py_lower ui) -> no_keyword st (py_lower ui) ->
  length (L (py_lower ui)) < 200 ->
  dict_get (knowledge st) (py_lower ui) = Some c ->
  get_response st ui = Some c.
Proof.
  intros Hs Hk Hlen Hx. rewrite get_response_unfold_none by done. unfold fuzzy_step.
  set (u := py_lower ui) in *.
  assert (Hin : u ∈ dict_keys (knowledge st)).
  { apply dict_get_elem in Hx. apply list_elem_of_fmap. by exists (u, c). }
  pose proof (ratio_self (L u) Hlen) as Hone. pose proof (ratio_pos (L u) (L u)) as Hpos.
  assert (Hcu : close_candidate cutoff_04 u u = Some (ratio (L u) (L u), u)).
  { rewrite close_candidate_ratio_only. unfold ratio_candidate, score_eq, score_ge in *.
    destruct (ratio (L u) (L u)) as [n d]; simpl in *. apply Nat.eqb_eq in Hone.
    by rewrite (proj2 (Nat.leb_le _ _)) by lia. }
  pose proof (get_close_matches_length u (dict_keys (knowledge st)) cutoff_04) as Hlen1.
  destruct (get_close_matches _ _ _) as [|y [|??]] eqn:E; simpl in Hlen1; [|clear Hlen1|lia].
  - apply get_close_matches_nil in E. rewrite Forall_forall in E. by rewrite E in Hcu.
  - apply get_close_matches_best in E as (Hy & Hcy & Hbest).
    specialize (Hbest u _ Hin Hcu). apply orb_false_iff in Hbest as [Hgt _].
    assert (Hy1 : score_eq (ratio (L y) (L u)) (1, 1) = true).
    { pose proof (ratio_num_le (L y) (L u)). unfold score_gt, score_eq in *.
      apply Nat.ltb_ge in Hgt. apply Nat.eqb_eq in Hone. apply Nat.eqb_eq.
      destruct (ratio (L y) (L u)) as [n1 d1], (ratio (L u) (L u)) as [n2 d2]; simpl in *. nia. }
    apply ratio_one_eq in Hy1.
    assert (y = u) as -> by (rewrite <- (String.string_of_list_ascii_of_string y), Hy1;
                             apply String.string_of_list_ascii_of_string).
    by rewrite Hx.
Qed.

(** C24: the keywords loader keeps the topic as written ([topic.strip()]
    without [.lower()]) while the knowledge loader lower-cases the titles.
    So, whatever the three files contain, when the first keyword found in
    a question belongs to a topic written with a capital letter, the answer
    is the "not found" message, even if that topic has instructions. *)
Theorem keyword_topic_case_not_found kd kw stt ui k1 topic keys k2 ks1 key ks2 :
  no_small_talk (load kd kw stt) (py_lower ui) ->
  keywords (load kd kw stt) = k1 ++ (topic, keys) :: k2 ->
  Forall (fun tk : string * list string =>
            Forall (fun key => py_contains key (py_lower ui) = false) tk.2) k1 ->
  keys = ks1 ++ key :: ks2 ->
  Forall (fun key => py_contains key (py_lower ui) = false) ks1 ->
  py_contains key (py_lower ui) = true ->
  py_lower topic <> topic ->
  get_response (load kd kw stt) ui = Some MSG_NOT_FOUND.
Proof.
  intros Hs Hkw Hk1 Hkeys Hks1 Hkey Hcap. unfold get_response.
  apply small_talk_step_None in Hs as ->. erewrite keyword_step_first by eassumption.
  simpl. destruct (dict_get (load_knowledge kd) topic) as [c|] eqn:Hg; [|done].
  by apply load_knowledge_get_lower in Hg.
Qed.

(** Among topics with the same best ratio, the fuzzy match returns
    the one with the largest title ([max] over [(ratio, title)] tuples), not
    the first in the file. *)
Theorem fuzzy_tie_largest_title :
  get_response (load "ax:
first topic

ay:
second topic" "" "") "ab" = Some "second topic".
Proof. vm_refl. Qed.

(** ** Witnesses on a store loaded from sample data files *)

Lemma get_response_small_talk_witness :
  get_response sample_store "HELLO, thanks" = Some "Hi there!".
Proof.
  apply (get_response_small_talk sample_store "HELLO, thanks" [] "hello" "Hi there!"
           [("thanks", "You're welcome.")]).
  - vm_refl.
  - constructor.
  - vm_refl.
Defined.

(** The example of the specification: "snake bite, what to do". *)
Lemma get_response_keyword_witness :
  get_response sample_store "snake bite, what to do" = Some "Keep the person still.".
Proof.
  apply (get_response_keyword sample_store "snake bite, what to do"
           [("burns", ["burn"; "scald"])] "snakebite" ["snake bite"; "bitten by snake"]
           [("choking", ["choke"])] [] "snake bite" ["bitten by snake"]).
  - vm_forall.
  - vm_refl.
  - vm_forall.
  - reflexivity.
  - constructor.
  - vm_refl.
Defined.

Lemma get_response_fuzzy_witness :
  get_response sample_store "Snakebit" = Some "Keep the person still.".
Proof.
  apply (get_response_fuzzy sample_store "Snakebit" "snakebite").
  - vm_forall.
  - vm_forall.
  - vm_refl.
  - vm_refl.
  - intros y p Hy Hne Hp. vm_compute in Hy.
    repeat (apply elem_of_cons in Hy as [->|Hy]; [vm_compute in Hp; try done|]).
    set_solver.
Defined.

Lemma blank_knowledge_file_witness :
  knowledge (load "  " sample_keywords sample_small_talk) = [("", "")] /\
  get_response (load "  " sample_keywords sample_small_talk) "" = Some "".
Proof.
  destruct (blank_knowledge_file "  " sample_keywords sample_small_talk) as [H1 H2]; [vm_refl|].
  split; [exact H1|]. apply H2; vm_forall.
Defined.

Lemma keyword_topic_case_not_found_witness :
  get_response (load "Choking:
Give five back blows." "Choking: choke" "") "I choke" = Some MSG_NOT_FOUND.
Proof.
  apply (keyword_topic_case_not_found _ _ _ _ [] "Choking" ["choke"] [] [] "choke" []);
    [vm_forall|vm_refl|constructor|reflexivity|constructor|vm_refl|vm_compute; discriminate].
Defined.

Lemma get_response_exact_topic_witness :
  get_response sample_store "Choking" = Some "Give five back blows.".
Proof.
  apply get_response_exact_topic; [vm_forall|vm_forall|vm_compute; lia|vm_refl].
Defined.

Lemma get_response_default_witness :
  get_response sample_store "xyz qqq" = Some MSG_DEFAULT.
Proof.
  apply get_response_default; vm_forall.
Defined.

Lemma get_response_range_witness :
  exists x, (x, "Keep the person still.") ∈ knowledge sample_store.
Proof.
  destruct (get_response_range sample_store "snake bite" "Keep the person still.")
    as [[t Ht]|[[x Hx]|[Hr|Hr]]].
  - vm_refl.
  - exfalso. vm_compute in Ht. repeat (apply elem_of_cons in Ht as [Ht|Ht]; [done|]).
    set_solver.
  - by exists x.
  - done.
  - done.
Defined.

Lemma get_response_empty_key_witness :
  exists r, keyword_step (mkStore [] [("burns", ["burn"; ""])] []) (py_lower "xyz") = Some r /\
    get_response (mkStore [] [("burns", ["burn"; ""])] []) "xyz" = Some r.
Proof.
  apply (get_response_empty_key _ "xyz" [] "burns" ["burn"; ""] []).
  - reflexivity.
  - set_solver.
  - constructor.
Defined.

End Resolver.
