(* ===== verification/SpeechQueue.v ===== *)
(** * SpeechQueue: the speech worker thread and its queue

    [src/offline_agent.py] lines 76-96 and 178-179: a [queue.Queue]
    (unbounded, FIFO, thread-safe) of texts and [None]; one daemon thread
    running [speech_worker]; [speak(text)] puts a text; closing the window
    puts [None] and destroys the window.

    The state is the queue, the worker's program point, the global
    [is_speaking] flag, the [unfinished_tasks] counter of [queue.Queue], the
    texts played so far, and a history variable [log]: the items put, in
    order (it is not in the code; the invariant relates it to the rest).
    [sq_step] interleaves the producers ([speak], [on_closing], from any
    thread) with the worker's steps.  One worker step covers [get()], the
    [None] test, [is_speaking = True] and [engine.say(text)]; the next covers
    [engine.runAndWait()] to [task_done()].  The engine is an oracle: a
    playback either finishes or raises, and nothing in [speech_worker]
    catches the exception, so the thread dies ([WCrashed]). *)

From S2P Require Import Prelude.
From stdpp Require Import base list sets strings relations.
From Stdlib Require Import Lia.

Module SpeechQueue.

(** Where the worker thread is. *)
Inductive worker_pc :=
  | WGet                     (** blocked in [speech_queue.get()] *)
  | WSpeaking (text : string) (** inside [engine.say]/[engine.runAndWait] *)
  | WExited                  (** left the loop on [None] *)
  | WCrashed (text : string). (** died on an exception while playing [text] *)

Record sq_state := mkSQ {
  queue : list (option string);
  pc : worker_pc;
  is_speaking : bool;
  unfinished : nat;
  spoken : list string;
  log : list (option string);
}.

Definition sq_init : sq_state := mkSQ [] WGet false 0 [] [].

(** [queue.put(x)]: append, and count one more unfinished task. *)
Definition sq_put (x : option string) (s : sq_state) : sq_state :=
  mkSQ (queue s ++ [x]) (pc s) (is_speaking s) (S (unfinished s)) (spoken s) (log s ++ [x]).

(** Line 96: [speak(text)]. *)
Definition speak (text : string) (s : sq_state) : sq_state := sq_put (Some text) s.

(** Line 179: [on_closing] puts the stop signal. *)
Definition on_closing (s : sq_state) : sq_state := sq_put None s.

(** Lines 82-86: [text = speech_queue.get()]; [if text is None: break];
    [is_speaking = True]; [engine.say(text)].  [None] when [get()] blocks
    (empty queue) or the worker is not at the [get()]. *)
Definition worker_get (s : sq_state) : option sq_state :=
  match pc s, queue s with
  | WGet, None :: q => Some (mkSQ q WExited (is_speaking s) (unfinished s) (spoken s) (log s))
  | WGet, Some t :: q => Some (mkSQ q (WSpeaking t) true (unfinished s) (spoken s) (log s))
  | _, _ => None
  end.

(** Lines 87-89: [engine.runAndWait()] returns ([ok = true]): the text has
    been played, [is_speaking = False], [task_done()]; or it raises
    ([ok = false]): the thread ends there. *)
Definition worker_play (ok : bool) (s : sq_state) : option sq_state :=
  match pc s with
  | WSpeaking t =>
      if ok then Some (mkSQ (queue s) WGet false (pred (unfinished s)) (spoken s ++ [t]) (log s))
      else Some (mkSQ (queue s) (WCrashed t) (is_speaking s) (unfinished s) (spoken s) (log s))
  | _ => None
  end.

(** One step of the system: a producer puts an item, or the worker moves. *)
Inductive sq_step : sq_state -> sq_state -> Prop :=
  | step_speak s t : sq_step s (speak t s)
  | step_close s : sq_step s (on_closing s)
  | step_get s s' : worker_get s = Some s' -> sq_step s s'
  | step_play s ok s' : worker_play ok s = Some s' -> sq_step s s'.

Inductive reachable : sq_state -> Prop :=
  | reach_init : reachable sq_init
  | reach_step s s' : reachable s -> sq_step s s' -> reachable s'.

(** The worker running alone with an engine that never fails. *)
Fixpoint worker_run (fuel : nat) (s : sq_state) : sq_state :=
  match fuel with
  | 0 => s
  | S fuel' =>
      match worker_get s with
      | Some s1 => match worker_play true s1 with Some s2 => worker_run fuel' s2 | None => s1 end
      | None => s
      end
  end.

(** A sample run: "a" and "b" spoken, then the window closed; the worker
    takes "a" and its playback raises. *)
Definition demo_queued : sq_state := on_closing (speak "b" (speak "a" sq_init)).
Definition demo_crashed : sq_state :=
  mkSQ [Some "b"; None] (WCrashed "a") true 3 [] [Some "a"; Some "b"; None].

(** ** The invariant *)

(** The items the worker has taken off the queue, in order. *)
Definition taken (s : sq_state) : list (option string) :=
  map Some (spoken s) ++
  match pc s with
  | WGet => []
  | WSpeaking t | WCrashed t => [Some t]
  | WExited => [None]
  end.

(** The queue is FIFO (what was taken, then what waits, is what was put),
    the flag [is_speaking] is set exactly while a text is being played (and
    stays set after a crash), and [unfinished_tasks] counts the puts not yet
    matched by a [task_done()]. *)
Definition sq_inv (s : sq_state) : Prop :=
  taken s ++ queue s = log s /\
  (is_speaking s = true <-> exists t, pc s = WSpeaking t \/ pc s = WCrashed t) /\
  unfinished s + length (spoken s) = length (log s).

Lemma sq_inv_init : sq_inv sq_init.
Proof. split_and!; simpl; [done| |done]. split; [done|]. by intros (? & [?|?]). Qed.

Lemma sq_put_inv x s : sq_inv s -> sq_inv (sq_put x s).
Proof.
  intros (Hq & Hsp & Hu). unfold sq_inv, taken in *; simpl.
  rewrite length_app. simpl. split_and!; [|done|lia]. by rewrite app_assoc, Hq.
Qed.

Lemma worker_get_inv s s' : sq_inv s -> worker_get s = Some s' -> sq_inv s'.
Proof.
  intros (Hq & Hsp & Hu). unfold worker_get, sq_inv, taken in *.
  destruct (pc s) eqn:Hpc; [|done|done|done].
  destruct (queue s) as [|[t|] q]; [done| |]; intros [= <-]; simpl.
  - split_and!; [|naive_solver|done]. rewrite <- Hq, app_nil_r. by rewrite <- app_assoc.
  - split_and!; [|rewrite Hsp; naive_solver|done]. rewrite <- Hq, app_nil_r. by rewrite <- app_assoc.
Qed.

Lemma worker_play_inv ok s s' : sq_inv s -> worker_play ok s = Some s' -> sq_inv s'.
Proof.
  intros (Hq & Hsp & Hu). unfold worker_play, sq_inv, taken in *.
  destruct (pc s) as [|t| |] eqn:Hpc; try done.
  pose proof (f_equal length Hq) as Hlen. rewrite !length_app, length_map in Hlen. simpl in Hlen.
  destruct ok; intros [= <-]; simpl.
  - split_and!; [|naive_solver|]; [|rewrite length_app; simpl; lia].
    rewrite map_app, <- Hq. simpl. by rewrite <- app_assoc.
  - split_and!; [done| |done]. rewrite Hsp. naive_solver.
Qed.

Lemma sq_step_inv s s' : sq_inv s -> sq_step s s' -> sq_inv s'.
Proof.
  intros Hinv Hstep. destruct Hstep; unfold speak, on_closing.
  - by apply sq_put_inv.
  - by apply sq_put_inv.
  - by eapply worker_get_inv.
  - by eapply worker_play_inv.
Qed.

Lemma reachable_sq_inv s : reachable s -> sq_inv s.
Proof. induction 1; eauto using sq_inv_init, sq_step_inv. Qed.

(** C9: in every state reachable by any interleaving of [speak],
    [on_closing] and the worker's steps, the items taken by the worker
    followed by those still queued are the items put, in order; the
    [is_speaking] flag is set exactly while a text plays or after the worker
    died playing it; and [unfinished_tasks] is the number of puts minus the
    texts played. *)
Theorem reachable_inv s :
  reachable s ->
  taken s ++ queue s = log s /\
  (is_speaking s = true <-> exists t, pc s = WSpeaking t \/ pc s = WCrashed t) /\
  unfinished s + length (spoken s) = length (log s).
Proof. apply reachable_sq_inv. Qed.

(** ** Order of playback *)

Lemma prefix_map_Some_None (xs : list string) l1 l2 :
  map Some xs `prefix_of` l1 ++ None :: l2 -> map Some xs `prefix_of` l1.
Proof.
  revert l1. induction xs as [|x xs IH]; intros l1 Hp; [apply prefix_nil|].
  destruct l1 as [|y l1]; simpl in Hp.
  - by apply prefix_cons_inv_1 in Hp.
  - pose proof (prefix_cons_inv_1 _ _ _ _ Hp) as <-. simpl.
    apply prefix_cons, IH. by eapply prefix_cons_inv_2.
Qed.

Lemma sq_inv_spoken_prefix s : sq_inv s -> map Some (spoken s) `prefix_of` log s.
Proof.
  intros [Hq _]. rewrite <- Hq. unfold taken. do 2 apply prefix_app_r. done.
Qed.

(** C10: the texts played so far are the first texts put, in the order
    they were put: no reordering, no loss, no repetition. *)
Theorem spoken_fifo s : reachable s -> map Some (spoken s) `prefix_of` log s.
Proof. intros Hr. by apply sq_inv_spoken_prefix, reachable_sq_inv. Qed.

(** A text put after the stop signal [None] is never played:
    the texts played are a prefix of those put before the first [None]. *)
Theorem spoken_before_stop s l1 l2 :
  reachable s -> log s = l1 ++ None :: l2 -> map Some (spoken s) `prefix_of` l1.
Proof.
  intros Hr Hlog. apply (prefix_map_Some_None _ _ l2). rewrite <- Hlog.
  by apply sq_inv_spoken_prefix, reachable_sq_inv.
Qed.

(** ** Stopping: the worker drains the queue up to the stop signal *)

Lemma reachable_rtc s s' : reachable s -> rtc sq_step s s' -> reachable s'.
Proof. intros Hs Hr. induction Hr as [|s1 s2 s3 H _ IH]; [done|]. apply IH. by eapply reach_step. Qed.

Lemma worker_run_steps n s : rtc sq_step s (worker_run n s).
Proof.
  revert s. induction n as [|n IH]; intros s; simpl; [done|].
  destruct (worker_get s) as [s1|] eqn:E1; [|done].
  destruct (worker_play true s1) as [s2|] eqn:E2.
  - eapply rtc_l; [by apply step_get|]. eapply rtc_l; [by eapply step_play|]. apply IH.
  - apply rtc_once. by apply step_get.
Qed.

Lemma worker_run_drain ts s rest :
  pc s = WGet -> queue s = map Some ts ++ None :: rest ->
  worker_run (S (length ts)) s =
    mkSQ rest WExited (match ts with [] => is_speaking s | _ => false end)
         (unfinished s - length ts) (spoken s ++ ts) (log s).
Proof.
  revert s. induction ts as [|t ts IH]; intros s Hpc Hq;
    cbn [worker_run]; unfold worker_get; rewrite Hpc, Hq; cbn -[worker_run].
  - by rewrite Nat.sub_0_r, app_nil_r.
  - rewrite (IH (mkSQ (map Some ts ++ None :: rest) WGet false (pred (unfinished s))
                  (spoken s ++ [t]) (log s)) eq_refl eq_refl).
    cbn. rewrite <- app_assoc.
    f_equal; [by destruct ts|lia].
Qed.

(** C11: once the stop signal is queued behind texts [ts], a waiting
    worker plays exactly [ts], in order, and leaves its loop, in
    [length ts + 1] rounds; what follows the signal stays in the queue. *)
Theorem worker_drains s ts rest :
  pc s = WGet -> queue s = map Some ts ++ None :: rest ->
  let s' := worker_run (S (length ts)) s in
  pc s' = WExited /\ queue s' = rest /\ spoken s' = spoken s ++ ts /\
  rtc sq_step s s'.
Proof.
  intros Hpc Hq s'. unfold s'. pose proof (worker_run_drain ts s rest Hpc Hq) as E.
  split_and!; try (by rewrite E). apply worker_run_steps.
Qed.

(** ** A worker that left its loop never plays again *)

Lemma stopped_frozen s s' :
  (pc s = WExited \/ exists t, pc s = WCrashed t) -> rtc sq_step s s' ->
  pc s' = pc s /\ spoken s' = spoken s /\ is_speaking s' = is_speaking s.
Proof.
  intros Hpc Hrtc. induction Hrtc as [s|s s1 s2 Hstep _ IH]; [done|].
  assert (pc s1 = pc s /\ spoken s1 = spoken s /\ is_speaking s1 = is_speaking s) as (H1 & H2 & H3).
  { destruct Hstep as [? ?|?|? ? E|? ? ? E]; [done|done| |];
      unfold worker_get, worker_play in E; destruct Hpc as [Hpc|[t Hpc]]; by rewrite Hpc in E. }
  destruct IH as (-> & -> & ->); [by rewrite H1|]. done.
Qed.

(** C12: [speech_worker] catches nothing, so when a playback raises the
    thread dies: from then on no text is ever played again, whatever is put
    later, and the global [is_speaking] flag stays [True]. *)
Theorem crash_is_final s t s' :
  reachable s -> pc s = WCrashed t -> rtc sq_step s s' ->
  spoken s' = spoken s /\ is_speaking s' = true /\ pc s' = WCrashed t.
Proof.
  intros Hr Hpc Hrtc. destruct (stopped_frozen s s') as (Hpc' & Hsp & His); [eauto|done|].
  destruct (reachable_sq_inv s Hr) as (_ & Hflag & _).
  split_and!; [done| |congruence]. rewrite His. apply Hflag. eauto.
Qed.

(** ** Witnesses *)

Lemma demo_queued_reachable : reachable demo_queued.
Proof.
  eapply reach_step; [|apply step_close].
  eapply reach_step; [|apply step_speak].
  eapply reach_step; [apply reach_init|apply step_speak].
Qed.

Lemma demo_crashed_reachable : reachable demo_crashed.
Proof.
  apply (reach_step (mkSQ [Some "b"; None] (WSpeaking "a") true 3 [] [Some "a"; Some "b"; None])).
  - eapply reach_step; [apply demo_queued_reachable|apply step_get; reflexivity].
  - eapply (step_play _ false). reflexivity.
Qed.

Lemma reachable_inv_witness :
  taken demo_crashed ++ queue demo_crashed = log demo_crashed.
Proof. apply (reachable_inv demo_crashed demo_crashed_reachable). Defined.

Lemma spoken_fifo_witness :
  spoken (worker_run 1 demo_queued) = ["a"] /\
  map Some (spoken (worker_run 1 demo_queued)) `prefix_of` log (worker_run 1 demo_queued).
Proof.
  split; [reflexivity|]. apply spoken_fifo.
  eapply reachable_rtc; [apply demo_queued_reachable|apply worker_run_steps].
Defined.

Lemma spoken_before_stop_witness :
  map Some (spoken demo_crashed) `prefix_of` [Some "a"; Some "b"].
Proof. apply (spoken_before_stop demo_crashed _ []); [apply demo_crashed_reachable|reflexivity]. Defined.

Lemma worker_drains_witness :
  pc (worker_run 3 demo_queued) = WExited /\ spoken (worker_run 3 demo_queued) = ["a"; "b"].
Proof.
  destruct (worker_drains demo_queued ["a"; "b"] []) as (H1 & _ & H3 & _);
    [reflexivity|reflexivity|]. split; [exact H1|exact H3].
Defined.

Lemma crash_is_final_witness :
  spoken (speak "c" demo_crashed) = [] /\ is_speaking (speak "c" demo_crashed) = true.
Proof.
  destruct (crash_is_final demo_crashed "a" (speak "c" demo_crashed)) as (H1 & H2 & _).
  - apply demo_crashed_reachable.
  - reflexivity.
  - apply rtc_once, step_speak.
  - split; [exact H1|exact H2].
Defined.

End SpeechQueue.
