(* ===== verification/Shell.v ===== *)
(** * Shell: the window's handlers (src/offline_agent.py lines 101-141, 169-180)

    The Tk widgets are not modelled; the handlers are, on a state made of the
    entry box's text, the chat box's contents (the list of chunks inserted,
    in order) and the speech queue.  The handlers are written in a Section
    whose variable [respond] is the interface to the resolver: [ask_question]
    and [_listen] only need an answer function, and their theorems hold for
    any.  The program instantiates it with [get_response] of the loaded
    store ([ask_question_store], [voice_listen_store]).

    The voice thread's interaction with the microphone and the recognition
    service is an input: [listen_outcome] says which of the calls in the
    [try] block raised, or what was recognised. *)

From S2P Require Import Prelude PyStr Knowledge Resolver SpeechQueue.
From stdpp Require Import base list sets strings.

Module Shell.
Import PyStr Knowledge Resolver SpeechQueue.

Local Open Scope string_scope.
Local Open Scope list_scope.

Record shell := mkShell {
  entry : string;
  chat : list string;
  sq : sq_state;
}.

(** Lines 137-141: [chat_box.insert(tk.END, text + "\n\n")]. *)
Definition display_text (text : string) (sh : shell) : shell :=
  mkShell (entry sh) (chat sh ++ [text +:+ NL +:+ NL]) (sq sh).

Definition with_sq (f : sq_state -> sq_state) (sh : shell) : shell :=
  mkShell (entry sh) (chat sh) (f (sq sh)).

(** [entry.delete(0, tk.END)] and typing in the entry box. *)
Definition set_entry (e : string) (sh : shell) : shell := mkShell e (chat sh) (sq sh).

(** What the voice thread's [try] block ran into. *)
Inductive listen_outcome :=
  | MicOpenError (msg : string)  (** [sr.Microphone(...)] raised: nothing shown yet *)
  | MicError (msg : string)      (** [adjust_for_ambient_noise] or [listen] raised *)
  | Unintelligible               (** [recognize_google] raised [UnknownValueError] *)
  | ServiceError                 (** [recognize_google] raised [RequestError] *)
  | Recognized (text : string).  (** the transcription *)

(** Line 115: [device_index=mic_index if mic_index else None]. *)
Definition mic_device (mic_index : nat) : option nat :=
  if bool_decide (mic_index = 0) then None else Some mic_index.

Section Handlers.
Context (respond : string -> option string).

(** The tail shared by both handlers (lines 106-108, 131-133):
    [response = get_response(user_input)]; [display_text(f"AI:\n{response}")];
    [speak(response)].  [None] is an exception from the resolver, which
    ends the handler. *)
Definition answer (user_input : string) (sh : shell) : shell :=
  match respond user_input with
  | Some response => with_sq (speak response) (display_text ("AI:" +:+ NL +:+ response) sh)
  | None => sh
  end.

(** Lines 101-109.  An exception from [get_response] ends the handler after
    the question is shown: the entry is not cleared. *)
Definition ask_question (sh : shell) : shell :=
  let user_input := entry sh in
  if bool_decide (py_strip user_input = "") then sh
  else
    let sh1 := display_text ("You: " +:+ user_input) sh in
    match respond user_input with
    | Some response =>
        set_entry "" (with_sq (speak response) (display_text ("AI:" +:+ NL +:+ response) sh1))
    | None => sh1
    end.

(** Lines 112-133, the body of the thread [_listen]. *)
Definition voice_listen (out : listen_outcome) (sh : shell) : shell :=
  match out with
  | MicOpenError msg => display_text ("Mic error: " +:+ msg) sh
  | MicError msg => display_text ("Mic error: " +:+ msg) (display_text "Listening..." sh)
  | Unintelligible => display_text "Could not understand audio." (display_text "Listening..." sh)
  | ServiceError => display_text "Speech recognition error." (display_text "Listening..." sh)
  | Recognized user_input =>
      answer user_input (display_text ("You: " +:+ user_input) (display_text "Listening..." sh))
  end.
End Handlers.

(** Lines 178-180: [on_closing] puts the stop signal; [root.destroy()]
    ends the window (not modelled). *)
Definition shell_on_closing (sh : shell) : shell := with_sq on_closing sh.

(** The handlers of the program, on the loaded store. *)
Definition ask_question_store (st : store) : shell -> shell := ask_question (get_response st).
Definition voice_listen_store (st : store) : listen_outcome -> shell -> shell :=
  voice_listen (get_response st).

(** Sample windows: a question typed in the entry box, and a blank entry. *)
Definition demo_shell : shell := mkShell "snake bite, what to do" [] sq_init.

(** ** Properties of the handlers *)

Section HandlerProps.
Context (respond : string -> option string).

(** C13: a non-blank entry is shown as "You: ...", the answer as
    "AI:\n...", in that order, the answer is put on the speech queue (after
    it is shown) and the entry is cleared. *)
Theorem ask_question_answers sh r :
  py_strip (entry sh) <> "" -> respond (entry sh) = Some r ->
  ask_question respond sh =
    mkShell "" (chat sh ++ [("You: " +:+ entry sh) +:+ NL +:+ NL;
                            ("AI:" +:+ NL +:+ r) +:+ NL +:+ NL])
            (speak r (sq sh)).
Proof.
  intros Hne Hr. unfold ask_question. rewrite bool_decide_false by done.
  rewrite Hr. unfold set_entry, with_sq, display_text. simpl. by rewrite <- app_assoc.
Qed.

(** When the microphone or the recognition fails, the voice
    thread shows a status line ending the exchange and says nothing: the
    speech queue is untouched and the resolver is not asked. *)
Theorem voice_listen_failure out sh :
  (forall u, out <> Recognized u) ->
  sq (voice_listen respond out sh) = sq sh /\
  exists msg, (msg ∈ ["Could not understand audio."; "Speech recognition error."] \/
               exists m, msg = "Mic error: " +:+ m) /\
    last (chat (voice_listen respond out sh)) = Some (msg +:+ NL +:+ NL).
Proof.
  intros Hout. destruct out as [m|m| | |u]; simpl.
  - split; [done|]. exists ("Mic error: " +:+ m). split; [eauto|]. by rewrite last_snoc.
  - split; [done|]. exists ("Mic error: " +:+ m). split; [eauto|]. by rewrite last_snoc.
  - split; [done|]. exists "Could not understand audio.". split; [left; set_solver|].
    by rewrite last_snoc.
  - split; [done|]. exists "Speech recognition error.". split; [left; set_solver|].
    by rewrite last_snoc.
  - by destruct (Hout u).
Qed.
(** C30: the two adapters treat a blank input differently: the entry box
    ignores it, but a transcription that is empty or white space goes to
    the resolver, and the answer is shown and spoken.  The specification
    asks the voice adapter to forward text exactly like the text adapter. *)
Theorem blank_voice_input_answered u e c q r :
  py_strip u = "" -> respond u = Some r ->
  ask_question respond (mkShell u c q) = mkShell u c q /\
  sq (voice_listen respond (Recognized u) (mkShell e c q)) = speak r q.
Proof.
  intros Hb Hr. split.
  - unfold ask_question. by rewrite bool_decide_true.
  - simpl. unfold answer. by rewrite Hr.
Qed.
End HandlerProps.


(** ** Witnesses *)

Lemma ask_question_answers_witness :
  ask_question (get_response sample_store) demo_shell =
    mkShell "" [("You: " +:+ "snake bite, what to do") +:+ NL +:+ NL;
                ("AI:" +:+ NL +:+ "Keep the person still.") +:+ NL +:+ NL]
            (speak "Keep the person still." sq_init).
Proof.
  apply (ask_question_answers (get_response sample_store) demo_shell).
  - vm_compute. discriminate.
  - vm_refl.
Defined.

Lemma blank_voice_input_answered_witness :
  sq (voice_listen (get_response sample_store) (Recognized "") demo_shell) = speak MSG_DEFAULT sq_init.
Proof.
  apply (blank_voice_input_answered (get_response sample_store) "" "snake bite, what to do" [] sq_init);
    [reflexivity|vm_refl].
Defined.

Lemma voice_listen_failure_witness :
  sq (voice_listen (get_response sample_store) Unintelligible demo_shell) = sq demo_shell.
Proof. apply (voice_listen_failure (get_response sample_store) Unintelligible demo_shell). done. Defined.

End Shell.
