(* ===== verification/Session.v ===== *)
(** * Session: the window's threads interleaved

    [ask_question] runs on the Tk main thread, [voice_input] starts one
    daemon thread per click running [_listen], and the speech worker runs
    beside them (src/offline_agent.py lines 79-135).  Python switches
    threads between statements, so the statements of these handlers
    interleave.  This file splits each handler at its calls that touch
    shared state ([display_text], [speak], [entry.delete]) and interleaves
    them:
    - the main thread handles one Tk event at a time: while [ask_question]
      runs, no key press and no click is handled ([ui_pc]);
    - each [_listen] thread goes through [voice_pc]; how its capture ends is
      chosen when it starts ([listen_outcome]);
    - the speech worker takes its steps of [SpeechQueue].
    [get_response] writes nothing shared, so it is folded into the step
    that displays its answer.  Its interface is the Section variable
    [respond], as in [Shell].

    The answers shown are read back from the chat box: an [AI:] entry
    carries one answer ([ai_text]).  Every answer shown is put on the
    speech queue exactly once and nothing else is put (up to the order).
    With one answer in flight at a time, the spoken order is the displayed
    order.  A run with a voice request and a typed one shows the two
    answers in one order and speaks them in the other. *)

From S2P Require Import Prelude PyStr Knowledge Resolver SpeechQueue Shell.
From stdpp Require Import base list sets strings relations.
From Stdlib Require Import Ascii Lia.

Module Session.
Import PyStr Knowledge Resolver SpeechQueue Shell.

Local Open Scope string_scope.
Local Open Scope list_scope.

(** Where [ask_question] is, between its statements. *)
Inductive ui_pc :=
  | UIdle                 (** waiting for the next Tk event *)
  | UAsked (u : string)   (** line 105 done: "You: ..." shown *)
  | UShown (r : string)   (** line 107 done: the answer shown *)
  | UClear.               (** line 108 done: the answer put on the queue *)

(** Where a [_listen] thread is. *)
Inductive voice_pc :=
  | VStart (out : listen_outcome)      (** started, microphone not open *)
  | VListening (out : listen_outcome)  (** line 116 done: "Listening..." shown *)
  | VAsked (u : string)                (** line 120 done: "You: ..." shown *)
  | VShown (r : string).               (** line 132 done: the answer shown *)

#[export] Instance ui_pc_eq_dec : EqDecision ui_pc.
Proof. solve_decision. Defined.

Record session := mkSession {
  win : shell;
  ui : ui_pc;
  voices : list voice_pc;
}.

Definition session_init : session := mkSession (mkShell "" [] sq_init) UIdle [].

(** [s[:n]] *)
Fixpoint str_take (n : nat) (s : string) : string :=
  match n, s with
  | 0, _ => ""
  | _, EmptyString => ""
  | S n', String c s' => String c (str_take n' s')
  end.

Definition AI_PREFIX : string := "AI:" +:+ NL.

(** The answer an entry of the chat box carries: [display_text] adds
    ["\n\n"] to ["AI:\n" + response]. *)
Definition ai_text (e : string) : option string :=
  if String.prefix AI_PREFIX e
  then Some (str_take (String.length e - 6) (str_drop 4 e)) else None.

(** The answers shown so far, in the order of the chat box. *)
Definition shown (s : session) : list string := omap ai_text (chat (win s)).

(** The texts put on the speech queue so far, in order. *)
Definition put_texts (s : session) : list string := omap id (log (sq (win s))).

(** The answer a thread has shown and not yet put on the queue. *)
Definition ui_pend (p : ui_pc) : list string := match p with UShown r => [r] | _ => [] end.
Definition voice_pend (v : voice_pc) : option string :=
  match v with VShown r => Some r | _ => None end.

(** The answers shown and not yet put on the queue. *)
Definition pending (s : session) : list string := ui_pend (ui s) ++ omap voice_pend (voices s).

(** What one step does to the answers shown, the texts put and the
    answers pending: nothing, show one more answer (with [sf], only when
    none is pending), or put a pending answer on the queue. *)
Inductive effect (sf : bool) (s s' : session) : Prop :=
  | eff_none : shown s' = shown s -> put_texts s' = put_texts s -> pending s' = pending s ->
      effect sf s s'
  | eff_show r : shown s' = shown s ++ [r] -> put_texts s' = put_texts s ->
      pending s' ≡ₚ r :: pending s -> (sf = true -> pending s = []) -> effect sf s s'
  | eff_speak r : shown s' = shown s -> put_texts s' = put_texts s ++ [r] ->
      pending s ≡ₚ r :: pending s' -> effect sf s s'.

Section Steps.
Context (respond : string -> option string).

(** The click on "Ask" or Return (lines 102-105): a blank entry ends the
    handler at once. *)
Definition ui_ask (s : session) : session :=
  let u := entry (win s) in
  if bool_decide (py_strip u = "") then s
  else mkSession (display_text ("You: " +:+ u) (win s)) (UAsked u) (voices s).

(** The next statement of a running [ask_question]; [None] when idle.  An
    exception from [get_response] ends the handler. *)
Definition ui_next (s : session) : option session :=
  match ui s with
  | UIdle => None
  | UAsked u =>
      match respond u with
      | Some r => Some (mkSession (display_text ("AI:" +:+ NL +:+ r) (win s)) (UShown r) (voices s))
      | None => Some (mkSession (win s) UIdle (voices s))
      end
  | UShown r => Some (mkSession (with_sq (speak r) (win s)) UClear (voices s))
  | UClear => Some (mkSession (set_entry "" (win s)) UIdle (voices s))
  end.

(** The next statement of a [_listen] thread: the new window and where the
    thread is next ([None]: it has returned). *)
Definition voice_next (v : voice_pc) (sh : shell) : shell * option voice_pc :=
  match v with
  | VStart (MicOpenError m) => (display_text ("Mic error: " +:+ m) sh, None)
  | VStart out => (display_text "Listening..." sh, Some (VListening out))
  | VListening (MicOpenError m) | VListening (MicError m) =>
      (display_text ("Mic error: " +:+ m) sh, None)
  | VListening Unintelligible => (display_text "Could not understand audio." sh, None)
  | VListening ServiceError => (display_text "Speech recognition error." sh, None)
  | VListening (Recognized u) => (display_text ("You: " +:+ u) sh, Some (VAsked u))
  | VAsked u =>
      match respond u with
      | Some r => (display_text ("AI:" +:+ NL +:+ r) sh, Some (VShown r))
      | None => (sh, None)
      end
  | VShown r => (with_sq (speak r) sh, None)
  end.

Definition set_voice (k : nat) (v' : option voice_pc) (vs : list voice_pc) : list voice_pc :=
  match v' with Some v => <[k := v]> vs | None => delete k vs end.

Definition ui_answering (p : ui_pc) : bool := match p with UAsked _ => true | _ => false end.
Definition voice_answering (v : voice_pc) : bool := match v with VAsked _ => true | _ => false end.

(** One step of the program.  With [sf] (single flight), an answer is only
    shown when no other answer is waiting to be spoken. *)
Inductive sstep (sf : bool) : session -> session -> Prop :=
  | s_type s e : ui s = UIdle -> sstep sf s (mkSession (set_entry e (win s)) UIdle (voices s))
  | s_ask s : ui s = UIdle -> sstep sf s (ui_ask s)
  | s_ui s s' : ui_next s = Some s' ->
      (sf && ui_answering (ui s) -> pending s = []) -> sstep sf s s'
  | s_click_voice s out : ui s = UIdle ->
      sstep sf s (mkSession (win s) UIdle (voices s ++ [VStart out]))
  | s_voice s k v : voices s !! k = Some v ->
      (sf && voice_answering v -> pending s = []) ->
      sstep sf s (mkSession (voice_next v (win s)).1 (ui s) (set_voice k (voice_next v (win s)).2 (voices s)))
  | s_worker s t : (worker_get (sq (win s)) = Some t \/ exists ok, worker_play ok (sq (win s)) = Some t) ->
      sstep sf s (mkSession (with_sq (fun _ => t) (win s)) (ui s) (voices s)).

Inductive sreach (sf : bool) : session -> Prop :=
  | sreach_init : sreach sf session_init
  | sreach_step s s' : sreach sf s -> sstep sf s s' -> sreach sf s'.
(** The steps as actions of an explicit schedule, executable: [None] when
    the action cannot run in the state. *)
Inductive action :=
  | AType (e : string) | AAsk | AUi | AClickVoice (out : listen_outcome) | AVoice (k : nat)
  | AWorkerGet | AWorkerPlay (ok : bool).


Definition act (sf : bool) (a : action) (s : session) : option session :=
  match a with
  | AType e => if bool_decide (ui s = UIdle) then Some (mkSession (set_entry e (win s)) UIdle (voices s)) else None
  | AAsk => if bool_decide (ui s = UIdle) then Some (ui_ask s) else None
  | AUi => if sf && ui_answering (ui s) && negb (bool_decide (pending s = [])) then None else ui_next s
  | AClickVoice out =>
      if bool_decide (ui s = UIdle) then Some (mkSession (win s) UIdle (voices s ++ [VStart out])) else None
  | AVoice k =>
      match voices s !! k with
      | Some v =>
          if sf && voice_answering v && negb (bool_decide (pending s = [])) then None
          else Some (mkSession (voice_next v (win s)).1 (ui s) (set_voice k (voice_next v (win s)).2 (voices s)))
      | None => None
      end
  | AWorkerGet => t ← worker_get (sq (win s)); Some (mkSession (with_sq (fun _ => t) (win s)) (ui s) (voices s))
  | AWorkerPlay ok =>
      t ← worker_play ok (sq (win s)); Some (mkSession (with_sq (fun _ => t) (win s)) (ui s) (voices s))
  end.

Fixpoint run (sf : bool) (acts : list action) (s : session) : option session :=
  match acts with
  | [] => Some s
  | a :: acts' => s' ← act sf a s; run sf acts' s'
  end.
End Steps.

(** Sample schedules on the sample store of [Resolver]: a voice request
    ("hello") answered and shown, then a typed one ("thanks") handled
    entirely, then the voice thread's [speak]; and a typed question
    handled alone while the worker takes its answer. *)
Definition race_schedule : list action :=
  [AClickVoice (Recognized "hello"); AVoice 0; AVoice 0; AVoice 0;
   AType "thanks"; AAsk; AUi; AUi; AVoice 0].
Definition typed_schedule : list action :=
  [AType "snake bite, what to do"; AAsk; AUi; AUi; AUi; AWorkerGet].

(** ** Reading the answers back from the chat box *)

Lemma str_take_app p q : str_take (String.length p) (p +:+ q) = p.
Proof. induction p as [|c p IH]; [done|]. rewrite str_app_cons. simpl. by rewrite IH. Qed.

Lemma ai_text_answer r : ai_text (("AI:" +:+ NL +:+ r) +:+ NL +:+ NL) = Some r.
Proof.
  unfold ai_text. assert (E : ("AI:" +:+ NL +:+ r) +:+ NL +:+ NL = AI_PREFIX +:+ (r +:+ NL +:+ NL)).
  { unfold AI_PREFIX. by rewrite <- !str_app_assoc. }
  rewrite E. rewrite (proj2 (prefix_spec _ _)) by eauto.
  assert (Hd : str_drop 4 (AI_PREFIX +:+ (r +:+ NL +:+ NL)) = r +:+ NL +:+ NL)
    by apply (str_drop_append AI_PREFIX).
  rewrite Hd, !str_app_length.
  replace (String.length AI_PREFIX + (String.length r + (String.length NL + String.length NL)) - 6)
    with (String.length r) by (simpl; lia).
  by rewrite str_take_app.
Qed.

(** An entry that does not start with ["A"] carries no answer. *)
Lemma ai_text_other c t : c <> "A"%char -> ai_text (String c t) = None.
Proof.
  intros Hc. unfold ai_text. destruct (String.prefix AI_PREFIX (String c t)) eqn:E; [|done].
  apply prefix_spec in E as [x Ex]. unfold AI_PREFIX in Ex.
  rewrite <- str_app_assoc, str_app_cons in Ex. injection Ex as Hca _. done.
Qed.

Lemma shown_display text sh :
  omap ai_text (chat (display_text text sh)) = omap ai_text (chat sh) ++ option_list (ai_text (text +:+ NL +:+ NL)).
Proof. simpl. rewrite omap_app. simpl. by destruct (ai_text _). Qed.

(** ** How each step changes what is shown, put and pending *)

Lemma pend_set_voice vs k v v' :
  vs !! k = Some v ->
  omap voice_pend vs = omap voice_pend (take k vs) ++ option_list (voice_pend v) ++ omap voice_pend (drop (S k) vs) /\
  omap voice_pend (set_voice k v' vs) =
    omap voice_pend (take k vs) ++ option_list (v' ≫= voice_pend) ++ omap voice_pend (drop (S k) vs).
Proof.
  intros Hk. split; [by apply omap_lookup_split|].
  destruct v' as [v'|]; simpl; [by apply (omap_insert_split _ _ _ v)|apply omap_delete_split].
Qed.

Lemma worker_get_log t t' : worker_get t = Some t' -> log t' = log t.
Proof. unfold worker_get. destruct (pc t), (queue t) as [|[?|] ?]; intros; simplify_eq; done. Qed.

Lemma worker_play_log ok t t' : worker_play ok t = Some t' -> log t' = log t.
Proof. unfold worker_play. destruct (pc t), ok; intros; simplify_eq; done. Qed.

(** Showing a status line or the question shows no answer. *)
Ltac show_other :=
  unfold shown; cbn [win]; rewrite shown_display; rewrite ?str_app_cons; rewrite ai_text_other by discriminate; simpl;
  rewrite app_nil_r; try done.

Lemma sstep_effect respond sf s s' : sstep respond sf s s' -> effect sf s s'.
Proof.
  destruct 1 as [s e Hui|s Hui|s s' Hnext Hg|s out Hui|s k v Hk Hg|s t Ht].
  - apply eff_none; try done. unfold pending. simpl. by rewrite Hui.
  - unfold ui_ask. case_bool_decide; [by apply eff_none|].
    apply eff_none; [show_other|done|unfold pending; simpl; rewrite ?Hui; done].
  - unfold ui_next in Hnext. unfold pending in *. destruct (ui s) as [|u|r|] eqn:Hu; try done.
    + destruct (respond u) as [r|]; injection Hnext as <-.
      * apply (eff_show _ _ _ r); [unfold shown; simpl; rewrite omap_app; simpl; by rewrite ai_text_answer
          |done|unfold pending; simpl; rewrite ?Hu; done|intros ->; unfold pending; rewrite Hu; by apply Hg].
      * apply eff_none; [done|done|unfold pending; simpl; rewrite ?Hu; done].
    + injection Hnext as <-. apply (eff_speak _ _ _ r); [done|unfold put_texts; simpl; by rewrite omap_app|].
      unfold pending. simpl. rewrite ?Hu. done.
    + injection Hnext as <-. apply eff_none; [done|done|unfold pending; simpl; rewrite ?Hu; done].
  - apply eff_none; [done|done|unfold pending; simpl; rewrite omap_app; simpl; by rewrite app_nil_r, Hui].
  - destruct (pend_set_voice (voices s) k v (voice_next respond v (win s)).2 Hk) as [Hold Hnew].
    destruct v as [[m|m| | |u]|[m|m| | |u]|u|r]; simpl in Hnew |- *;
      try (apply eff_none; [show_other|done|unfold pending; simpl; by rewrite Hold, Hnew]).
    + destruct (respond u) as [r|]; simpl in Hnew |- *;
        [|apply eff_none; [done|done|unfold pending; simpl; by rewrite Hold, Hnew]].
      apply (eff_show _ _ _ r); [unfold shown; simpl; rewrite omap_app; simpl; by rewrite ai_text_answer
        |done|unfold pending; simpl; rewrite Hold, Hnew; simpl; solve_Permutation|intros ->; by apply Hg].
    + apply (eff_speak _ _ _ r); [done|unfold put_texts; simpl; by rewrite omap_app|].
      unfold pending; simpl; rewrite Hold, Hnew; simpl; solve_Permutation.
  - apply eff_none; [done| |done]. unfold put_texts. simpl.
    destruct Ht as [Ht|[ok Ht]]; [by rewrite (worker_get_log _ _ Ht)|by rewrite (worker_play_log _ _ _ Ht)].
Qed.

Lemma effect_perm sf s s' :
  effect sf s s' -> shown s ≡ₚ put_texts s ++ pending s -> shown s' ≡ₚ put_texts s' ++ pending s'.
Proof.
  destruct 1 as [H1 H2 H3|r H1 H2 H3 _|r H1 H2 H3]; rewrite H1, H2; intros Hp.
  - by rewrite H3.
  - rewrite H3, Hp. solve_Permutation.
  - rewrite Hp, H3. solve_Permutation.
Qed.

Lemma effect_sf s s' :
  effect true s s' -> shown s = put_texts s ++ pending s -> length (pending s) <= 1 ->
  shown s' = put_texts s' ++ pending s' /\ length (pending s') <= 1.
Proof.
  destruct 1 as [H1 H2 H3|r H1 H2 H3 H4|r H1 H2 H3]; rewrite H1, H2; intros Hp Hlen.
  - by rewrite H3.
  - rewrite H4 in H3, Hp by done. apply Permutation_singleton_r in H3. rewrite H3, Hp.
    split; [by rewrite !app_nil_r|done].
  - pose proof (Permutation_length H3) as Hl. simpl in Hl.
    destruct (pending s') as [|? ?]; [|simpl in Hl; lia].
    apply Permutation_singleton_r in H3. rewrite Hp, H3, <- app_assoc. split; [done|simpl; lia].
Qed.

Lemma act_sstep respond sf a s s' : act respond sf a s = Some s' -> sstep respond sf s s'.
Proof.
  destruct a as [e| | |out|k| |ok]; simpl.
  - case_bool_decide; [intros [= <-]; by apply s_type|done].
  - case_bool_decide; [intros [= <-]; by apply s_ask|done].
  - destruct (sf && _ && _) eqn:E; [done|]. intros Hn. apply s_ui; [done|].
    intros Hg. apply andb_false_iff in E as [E|E]; [by rewrite E in Hg|].
    apply negb_false_iff, bool_decide_eq_true in E. done.
  - case_bool_decide; [intros [= <-]; by apply s_click_voice|done].
  - destruct (voices s !! k) as [v|] eqn:Hk; [|done].
    destruct (sf && _ && _) eqn:E; [done|]. intros [= <-]. apply s_voice; [done|].
    intros Hg. apply andb_false_iff in E as [E|E]; [by rewrite E in Hg|].
    apply negb_false_iff, bool_decide_eq_true in E. done.
  - destruct (worker_get (sq (win s))) as [t|] eqn:E; [|done]. intros [= <-]. apply s_worker. by left.
  - destruct (worker_play ok (sq (win s))) as [t|] eqn:E; [|done]. intros [= <-]. apply s_worker. right. by exists ok.
Qed.

Lemma run_sreach respond sf acts s s' :
  sreach respond sf s -> run respond sf acts s = Some s' -> sreach respond sf s'.
Proof.
  revert s. induction acts as [|a acts IH]; intros s Hs; simpl; [by intros [= <-]|].
  destruct (act respond sf a s) as [t|] eqn:E; [|done].
  intros Hrun. apply (IH t); [|done]. eapply sreach_step; [done|]. by apply (act_sstep respond sf a).
Qed.

Lemma sstep_sq respond sf s s' :
  sstep respond sf s s' -> sq (win s') = sq (win s) \/ sq_step (sq (win s)) (sq (win s')).
Proof.
  destruct 1 as [s e Hui|s Hui|s s' Hnext Hg|s out Hui|s k v Hk Hg|s t Ht]; simpl.
  - by left.
  - unfold ui_ask. case_bool_decide; by left.
  - unfold ui_next in Hnext. destruct (ui s) as [|u|r|]; try done.
    + destruct (respond u); injection Hnext as <-; by left.
    + injection Hnext as <-. right. apply step_speak.
    + injection Hnext as <-. by left.
  - by left.
  - destruct v as [[]|[]|u|r]; simpl; try by left.
    + destruct (respond u); by left.
    + right. apply step_speak.
  - right. destruct Ht as [Ht|[ok Ht]]; [by apply step_get|by eapply step_play].
Qed.

(** ** Theorems *)



(** With a voice request and a typed one in flight together, the
    chat box shows the voice answer first and the typed answer second,
    while the speech queue receives them the other way round. *)
Theorem concurrent_answers_reordered :
  exists s, sreach (get_response sample_store) false s /\
    shown s = ["Hi there!"; "You're welcome."] /\ put_texts s = ["You're welcome."; "Hi there!"].
Proof.
  destruct (run (get_response sample_store) false race_schedule session_init) as [s|] eqn:E;
    [|vm_compute in E; discriminate].
  exists s. split; [eapply run_sreach; [constructor|exact E]|].
  vm_compute in E. injection E as <-. split; vm_refl.
Qed.

(** Run without interference, the statements of [ask_question] give
    the atomic handler of [Shell]: the step-level model refines it. *)
Theorem ask_question_steps respond sf s :
  ui s = UIdle -> (sf = true -> pending s = []) ->
  exists n, n <= 3 /\
    run respond sf (AAsk :: repeat AUi n) s = Some (mkSession (ask_question respond (win s)) UIdle (voices s)).
Proof.
  intros Hui Hp. destruct s as [sh p vs]; simpl in *; subst p.
  assert (Hg : sf && true && negb (bool_decide (omap voice_pend vs = [])) = false).
  { destruct sf; [|done]. rewrite bool_decide_true; [done|]. by apply Hp. }
  unfold ask_question. destruct (bool_decide (py_strip (entry sh) = "")) eqn:Hb.
  - exists 0. split; [lia|]. simpl. unfold ui_ask. simpl. by rewrite Hb.
  - destruct (respond (entry sh)) as [r|] eqn:Hr.
    + exists 3. split; [lia|]. simpl. unfold ui_ask. simpl. rewrite Hb.
      by repeat (progress (cbn; rewrite ?Hg, ?Hr, ?andb_false_r)).
    + exists 1. split; [lia|]. simpl. unfold ui_ask. simpl. rewrite Hb.
      by repeat (progress (cbn; rewrite ?Hg, ?Hr, ?andb_false_r)).
Qed.

(** ** Witnesses *)



Lemma ask_question_steps_witness :
  exists n, n <= 3 /\
    run (get_response sample_store) true (AAsk :: repeat AUi n) (mkSession demo_shell UIdle []) =
    Some (mkSession (ask_question (get_response sample_store) demo_shell) UIdle []).
Proof. apply (ask_question_steps (get_response sample_store) true (mkSession demo_shell UIdle [])); reflexivity. Defined.

End Session.
