(* ===== verification/Window.v ===== *)
(** * Window: the Tk window and its event loop (src/offline_agent.py lines 146-183)

    The window as built holds an empty chat box and an empty entry box.  It
    also holds the microphone variable [mic_var] (initially 0) and, when
    [sr.Microphone.list_microphone_names()] lists any device, a menu whose
    options are [range(len(mic_list))].  [root.mainloop()] handles one event
    at a time, and only between handlers: Return, the "Ask" and "Speak"
    buttons, a choice in the menu, and the window manager's close request.
    [on_closing] puts the stop signal on the speech queue and destroys the
    window, which ends the loop.

    The voice threads and the speech worker go on after that.  Each
    [_listen] thread reads [mic_var] when it starts (line 113), not when
    the button is clicked.  Once the window is destroyed, every Tk call of a
    voice thread raises, which ends the thread; a thread that has already
    shown its answer still calls [speak].

    The state is a [Session.session] (entry, chat box, speech queue, thread
    positions) with the window's own fields.  [wstep] is the step relation
    of the whole program; [wrun] replays an explicit schedule of steps,
    such as [typed_question], the path of a typed question from the entry
    box to the speaker. *)

From S2P Require Import Prelude PyStr Knowledge Resolver SpeechQueue Shell Session.
From stdpp Require Import base list sets strings relations.
From Stdlib Require Import Lia.

Module Window.
Import PyStr Knowledge Resolver SpeechQueue Shell Session.

Local Open Scope string_scope.
Local Open Scope list_scope.

Record window := mkWindow {
  sess : session;             (** entry, chat box, speech queue, threads *)
  mic_var : nat;              (** [mic_var = tk.IntVar(value=0)] *)
  mic_menu : list nat;        (** the options of [mic_menu]; [] when none was built *)
  running : bool;             (** [root] not destroyed: [mainloop()] still running *)
  opened : list (option nat); (** the [device_index] of each [sr.Microphone(...)], in order *)
}.

(** Lines 171-172: [if mic_list:] a menu over [*range(len(mic_list))]. *)
Definition mic_options (mic_list : list string) : list nat :=
  match mic_list with [] => [] | _ => seq 0 (length mic_list) end.

(** Lines 150-170: the chat box and the entry box empty, [mic_var] at 0,
    the microphones listed once. *)
Definition build_window (mic_list : list string) : window :=
  mkWindow session_init 0 (mic_options mic_list) true [].

Definition with_sess (f : session -> session) (w : window) : window :=
  mkWindow (f (sess w)) (mic_var w) (mic_menu w) (running w) (opened w).

(** The events the window answers. *)
Inductive event :=
  | EvType (e : string)               (** editing the entry box: its text becomes [e] *)
  | EvReturn                          (** [<Return>] in the entry box *)
  | EvAskButton                       (** the "Ask" button *)
  | EvSpeakButton (out : listen_outcome) (** the "Speak" button; how the capture ends *)
  | EvMic (i : nat)                   (** choosing option [i] of [mic_menu] *)
  | EvClose.                          (** [WM_DELETE_WINDOW] *)

(** Line 135: [voice_input] starts a [_listen] thread and returns. *)
Definition voice_input (out : listen_outcome) (s : session) : session :=
  mkSession (win s) (ui s) (voices s ++ [VStart out]).

(** Line 172: the [OptionMenu] sets [mic_var] to the option chosen; it
    offers nothing else. *)
Definition select_mic (i : nat) (w : window) : option window :=
  if bool_decide (i ∈ mic_menu w)
  then Some (mkWindow (sess w) i (mic_menu w) (running w) (opened w)) else None.

(** Lines 178-182: [on_closing]: [speech_queue.put(None)]; [root.destroy()]. *)
Definition close_window (w : window) : window :=
  mkWindow (mkSession (shell_on_closing (win (sess w))) (ui (sess w)) (voices (sess w)))
    (mic_var w) (mic_menu w) false (opened w).

(** Lines 155, 160, 163: the handler bound to each event. *)
Definition dispatch (ev : event) (w : window) : option window :=
  match ev with
  | EvType e => Some (with_sess (fun s => mkSession (set_entry e (win s)) (ui s) (voices s)) w)
  | EvReturn | EvAskButton => Some (with_sess ui_ask w)
  | EvSpeakButton out => Some (with_sess (voice_input out) w)
  | EvMic i => select_mic i w
  | EvClose => Some (close_window w)
  end.

(** Line 183: [root.mainloop()] handles an event only while the window
    exists and no handler is running on the main thread. *)
Definition handle (ev : event) (w : window) : option window :=
  if running w && bool_decide (ui (sess w) = UIdle) then dispatch ev w else None.

(** Lines 113-115: the first statement of [_listen] reads [mic_var] and
    opens [sr.Microphone(device_index=...)]. *)
Definition device_read (w : window) (v : voice_pc) : list (option nat) :=
  match v with VStart _ => [mic_device (mic_var w)] | _ => [] end.

(** Whether the next statement of a thread calls Tk ([mic_var.get()] or
    [display_text]); only [speak] does not. *)
Definition touches_tk (v : voice_pc) : bool :=
  match v with VShown _ => false | _ => true end.

Section Loop.
Context (respond : string -> option string).

(** The step of thread [k] of [Session], as [sstep]'s [s_voice] takes it. *)
Definition voice_move (k : nat) (v : voice_pc) (s : session) : session :=
  mkSession (voice_next respond v (win s)).1 (ui s) (set_voice k (voice_next respond v (win s)).2 (voices s)).

(** The next statement of voice thread [k]; once the window is destroyed a
    Tk call raises and the thread ends without other effect. *)
Definition voice_step (k : nat) (w : window) : option window :=
  v ← voices (sess w) !! k;
  if running w || negb (touches_tk v)
  then Some (mkWindow (voice_move k v (sess w)) (mic_var w) (mic_menu w) (running w) (opened w ++ device_read w v))
  else Some (with_sess (fun s => mkSession (win s) (ui s) (delete k (voices s))) w).

(** The whole program: an event handled by the main loop, a statement of a
    running [ask_question], of a voice thread, or of the speech worker. *)
Inductive wstep : window -> window -> Prop :=
  | w_event w ev w' : handle ev w = Some w' -> wstep w w'
  | w_ui w s' : ui_next respond (sess w) = Some s' -> wstep w (with_sess (fun _ => s') w)
  | w_voice w k w' : voice_step k w = Some w' -> wstep w w'
  | w_worker w t :
      (worker_get (sq (win (sess w))) = Some t \/ exists ok, worker_play ok (sq (win (sess w))) = Some t) ->
      wstep w (with_sess (fun s => mkSession (with_sq (fun _ => t) (win s)) (ui s) (voices s)) w).

Inductive wreach (mic_list : list string) : window -> Prop :=
  | wreach_init : wreach mic_list (build_window mic_list)
  | wreach_step w w' : wreach mic_list w -> wstep w w' -> wreach mic_list w'.

Inductive waction := WEv (ev : event) | WUi | WVoice (k : nat) | WGet | WPlay (ok : bool).

Definition wact (a : waction) (w : window) : option window :=
  match a with
  | WEv ev => handle ev w
  | WUi => s' ← ui_next respond (sess w); Some (with_sess (fun _ => s') w)
  | WVoice k => voice_step k w
  | WGet => t ← worker_get (sq (win (sess w)));
      Some (with_sess (fun s => mkSession (with_sq (fun _ => t) (win s)) (ui s) (voices s)) w)
  | WPlay ok => t ← worker_play ok (sq (win (sess w)));
      Some (with_sess (fun s => mkSession (with_sq (fun _ => t) (win s)) (ui s) (voices s)) w)
  end.

Fixpoint wrun (acts : list waction) (w : window) : option window :=
  match acts with
  | [] => Some w
  | a :: acts' => w' ← wact a w; wrun acts' w'
  end.
End Loop.

(** Sample schedules: choose microphone 1 and ask by voice; and ask by
    voice, close the window once the answer is shown, let the thread put
    it and the worker take the next item. *)
Definition mic_schedule : list waction :=
  [WEv (EvMic 1); WEv (EvSpeakButton (Recognized "hello")); WVoice 0; WEv (EvMic 0);
   WEv (EvSpeakButton Unintelligible); WVoice 1].
Definition close_schedule : list waction :=
  [WEv (EvSpeakButton (Recognized "hello")); WVoice 0; WVoice 0; WVoice 0;
   WEv EvClose; WVoice 0; WGet].

(** A typed question: edit the entry box, press Return, the three
    remaining statements of [ask_question], then the worker takes the
    answer and plays it. *)
Definition typed_question (q : string) : list waction :=
  [WEv (EvType q); WEv EvReturn; WUi; WUi; WUi; WGet; WPlay true].

(** What may be on the speech queue and pending in the threads: only
    texts the resolver answered to some question. *)
Definition put_ok (respond : string -> option string) (x : option string) : Prop :=
  match x with Some t => exists u, respond u = Some t | None => True end.
Definition ui_ok (respond : string -> option string) (p : ui_pc) : Prop :=
  match p with UShown r => exists u, respond u = Some r | _ => True end.
Definition voice_ok (respond : string -> option string) (v : voice_pc) : Prop :=
  match v with VShown r => exists u, respond u = Some r | _ => True end.

Definition answers_inv (respond : string -> option string) (w : window) : Prop :=
  Forall (put_ok respond) (log (sq (win (sess w)))) /\ ui_ok respond (ui (sess w)) /\
  Forall (voice_ok respond) (voices (sess w)).

(** ** The window invariant *)

(** A device index passed to [sr.Microphone]: the default device, or one
    of the devices listed other than the first. *)
Definition dev_ok (n : nat) (d : option nat) : Prop := d = None \/ exists i, d = Some i /\ 0 < i < n.

(** What every reachable window satisfies: the menu is the one built,
    [mic_var] holds 0 or one of its options, every device opened is
    [dev_ok]. *)
Definition window_ok (mic_list : list string) (w : window) : Prop :=
  mic_menu w = mic_options mic_list /\ (mic_var w = 0 \/ mic_var w ∈ mic_menu w) /\
  Forall (dev_ok (length mic_list)) (opened w).

Lemma mic_options_lt mic_list i : i ∈ mic_options mic_list -> i < length mic_list.
Proof. unfold mic_options. destruct mic_list; [set_solver|]. rewrite elem_of_seq. lia. Qed.

Lemma mic_device_ok mic_list m :
  m = 0 \/ m ∈ mic_options mic_list -> dev_ok (length mic_list) (mic_device m).
Proof.
  unfold mic_device, dev_ok. case_bool_decide; [by left|]. intros [->|Hm]; [done|].
  right. exists m. pose proof (mic_options_lt _ _ Hm). split; [done|lia].
Qed.

(** Choosing a microphone only changes [mic_var], to one of the menu's
    options. *)
Lemma select_mic_frame i w w' :
  select_mic i w = Some w' ->
  sess w' = sess w /\ mic_menu w' = mic_menu w /\ running w' = running w /\ opened w' = opened w.
Proof. unfold select_mic. intros H. repeat case_bool_decide; simplify_eq; by repeat split. Qed.

Lemma select_mic_option i w w' : select_mic i w = Some w' -> mic_var w' ∈ mic_menu w.
Proof. unfold select_mic. case_bool_decide; [|done]. by intros [= <-]. Qed.

Lemma wstep_ok respond mic_list w w' :
  window_ok mic_list w -> wstep respond w w' -> window_ok mic_list w'.
Proof.
  intros (Hm & Hv & Ho). destruct 1 as [w ev w' Hh|w s' _|w k w' Hs|w t _];
    try (unfold window_ok; simpl; tauto).
  - unfold handle in Hh. destruct (_ && _); [|done].
    destruct ev as [| | | |i|]; cbn [dispatch] in Hh;
      [..|pose proof (select_mic_option _ _ _ Hh); unfold window_ok;
          destruct (select_mic_frame _ _ _ Hh) as (_ & -> & _ & ->); tauto|];
      injection Hh as <-; unfold window_ok; simpl; tauto.
  - unfold voice_step in Hs. destruct (voices (sess w) !! k) as [v|]; cbn in Hs; [|done].
    destruct (_ || _); injection Hs as <-; unfold window_ok; simpl; [|tauto].
    split_and!; [done|done|]. apply Forall_app. split; [done|].
    destruct v; constructor; [|done|..]; try apply mic_device_ok; rewrite <- ?Hm; tauto.
Qed.

Lemma wreach_ok respond mic_list w : wreach respond mic_list w -> window_ok mic_list w.
Proof. induction 1; [split_and!; simpl; auto|by eapply wstep_ok]. Qed.

(** ** The window's steps on the speech queue and on the session *)

Lemma wstep_sq respond w w' :
  wstep respond w w' ->
  sq (win (sess w')) = sq (win (sess w)) \/ sq_step (sq (win (sess w))) (sq (win (sess w'))).
Proof.
  destruct 1 as [w ev w' Hh|w s' Hn|w k w' Hs|w t Ht].
  - unfold handle in Hh. destruct (_ && _); [|done].
    destruct ev as [| | | |i|]; cbn [dispatch] in Hh;
      [..|left; by rewrite (proj1 (select_mic_frame _ _ _ Hh))|]; injection Hh as <-; simpl.
    + by left.
    + unfold ui_ask. case_bool_decide; by left.
    + unfold ui_ask. case_bool_decide; by left.
    + by left.
    + right. apply step_close.
  - apply (sstep_sq respond false (sess w) s'). by apply s_ui.
  - unfold voice_step in Hs. destruct (voices (sess w) !! k) as [v|] eqn:Hk; cbn in Hs; [|done].
    destruct (_ || _); injection Hs as <-; [|by left].
    apply (sstep_sq respond false (sess w)). by apply s_voice.
  - exact (sstep_sq respond false _ _ (s_worker _ _ _ t Ht)).
Qed.

Lemma wrtc_sq respond w w' :
  rtc (wstep respond) w w' -> rtc sq_step (sq (win (sess w))) (sq (win (sess w'))).
Proof.
  induction 1 as [|w1 w2 w3 H _ IH]; [done|].
  destruct (wstep_sq _ _ _ H) as [E|E]; [by rewrite <- E|by eapply rtc_l].
Qed.

Lemma wact_wstep respond a w w' : wact respond a w = Some w' -> wstep respond w w'.
Proof.
  destruct a as [ev| |k| |ok]; cbn.
  - by apply w_event.
  - destruct (ui_next respond (sess w)) as [s'|] eqn:E; [|done]. intros [= <-]. by apply w_ui.
  - by apply w_voice.
  - destruct (worker_get _) as [t|] eqn:E; [|done]. intros [= <-]. apply w_worker. by left.
  - destruct (worker_play ok _) as [t|] eqn:E; [|done]. intros [= <-]. apply w_worker. right. by exists ok.
Qed.

Lemma wrun_wreach respond mic_list acts w w' :
  wreach respond mic_list w -> wrun respond acts w = Some w' -> wreach respond mic_list w'.
Proof.
  revert w. induction acts as [|a acts IH]; intros w Hw; cbn; [by intros [= <-]|].
  destruct (wact respond a w) as [w1|] eqn:E; [|done].
  intros Hrun. apply (IH w1); [|done]. eapply wreach_step; [done|]. by apply (wact_wstep respond a).
Qed.

Lemma Forall_snoc {A} (P : A -> Prop) l x : Forall P l -> P x -> Forall P (l ++ [x]).
Proof. intros. apply Forall_app. auto. Qed.

Lemma set_voice_ok respond k v' vs :
  Forall (voice_ok respond) vs -> (forall v, v' = Some v -> voice_ok respond v) ->
  Forall (voice_ok respond) (set_voice k v' vs).
Proof. intros Hvs Hv. destruct v' as [v|]; simpl; [apply Forall_insert; auto|by apply Forall_delete]. Qed.

(** Only answers of the resolver reach the speech queue. *)
Lemma wstep_answers respond w w' :
  answers_inv respond w -> wstep respond w w' -> answers_inv respond w'.
Proof.
  intros (Hl & Hu & Hv). destruct 1 as [w ev w' Hh|w s' Hn|w k w' Hs|w t Ht].
  - unfold handle in Hh. destruct (_ && _); [|done].
    destruct ev as [| | | |i|]; cbn [dispatch] in Hh;
      [..|unfold answers_inv; destruct (select_mic_frame _ _ _ Hh) as (-> & _); by split_and!|];
      injection Hh as <-; unfold answers_inv; simpl.
    + done.
    + unfold ui_ask. case_bool_decide; [done|]. simpl. done.
    + unfold ui_ask. case_bool_decide; [done|]. simpl. done.
    + split_and!; [done|done|]. by apply Forall_snoc.
    + split_and!; [|done|done]. by apply Forall_snoc.
  - unfold ui_next in Hn. unfold answers_inv. destruct (ui (sess w)) as [|u|r|]; try done.
    + destruct (respond u) as [r|] eqn:Hr; injection Hn as <-; simpl; [split_and!; eauto|done].
    + injection Hn as <-. simpl. split_and!; [by apply Forall_snoc|done|done].
    + injection Hn as <-. done.
  - unfold voice_step in Hs. destruct (voices (sess w) !! k) as [v|] eqn:Hk; cbn in Hs; [|done].
    pose proof (Forall_lookup_1 _ _ _ _ Hv Hk) as Hvk.
    destruct (_ || _); injection Hs as <-; unfold answers_inv; simpl;
      [|split_and!; [done|done|by apply Forall_delete]].
    unfold voice_move. simpl. split_and!; [|done|apply set_voice_ok; [done|]].
    + destruct v as [[]|[]|u|r]; simpl; try done; [by destruct (respond u)|]. by apply Forall_snoc.
    + intros v' Hv'. destruct v as [[]|[]|u|r]; simpl in Hv'; simplify_eq; try done.
      destruct (respond u) eqn:Hr; simpl in Hv'; simplify_eq. simpl. eauto.
  - unfold answers_inv. simpl. split_and!; [|done|done].
    destruct Ht as [Ht|[ok Ht]]; [by rewrite (worker_get_log _ _ Ht)|by rewrite (worker_play_log _ _ _ Ht)].
Qed.

(** While the window is open, every step of the program is a step of
    [Session] (with [sf = false]) or leaves the session unchanged. *)
Lemma wstep_open respond w w' :
  wstep respond w w' -> running w' = true ->
  running w = true /\ (sess w' = sess w \/ sstep respond false (sess w) (sess w')).
Proof.
  destruct 1 as [w ev w' Hh|w s' Hn|w k w' Hs|w t Ht]; intros Hr.
  - unfold handle in Hh. destruct (running w) eqn:Er; [|done].
    destruct (bool_decide _) eqn:Eb; [|done]. apply bool_decide_eq_true in Eb. split; [done|].
    destruct ev; cbn [dispatch] in Hh.
    + injection Hh as <-. right. simpl. rewrite Eb. by apply s_type.
    + injection Hh as <-. right. by apply s_ask.
    + injection Hh as <-. right. by apply s_ask.
    + injection Hh as <-. right. simpl. unfold voice_input. rewrite Eb. by apply s_click_voice.
    + left. by rewrite (proj1 (select_mic_frame _ _ _ Hh)).
    + injection Hh as <-. done.
  - split; [done|]. right. by apply s_ui.
  - unfold voice_step in Hs. destruct (voices (sess w) !! k) as [v|] eqn:Hk; cbn in Hs; [|done].
    destruct (running w) eqn:Er; simpl in Hs.
    + injection Hs as <-. split; [done|]. right. by apply s_voice.
    + destruct (touches_tk v); injection Hs as <-; simpl in Hr; congruence.
  - split; [done|]. right. by apply s_worker.
Qed.

(** ** Theorems *)

(** C17: whatever the user clicks and however the threads interleave,
    every microphone a voice thread opens is the default device ([None])
    or a listed device other than the first: the menu's option 0 never
    selects device 0, and with no microphone listed only the default
    device is ever opened. *)
Theorem window_devices respond mic_list w :
  wreach respond mic_list w ->
  Forall (fun d => d = None \/ exists i, d = Some i /\ 0 < i < length mic_list) (opened w).
Proof. intros Hw. apply (wreach_ok _ _ _ Hw). Qed.

(** C34: every step of the whole program, the window's close included, is
    a step of the speech-queue model or leaves the queue unchanged, so the
    speech-queue theorems hold for the program as it runs; and only texts
    the resolver answered are ever put on the queue: no status line
    ("Listening...", "Mic error: ...") is spoken. *)
Theorem window_queue_sound respond mic_list w :
  wreach respond mic_list w ->
  reachable (sq (win (sess w))) /\ Forall (put_ok respond) (log (sq (win (sess w)))).
Proof.
  intros Hw. split.
  - induction Hw as [|w w' _ IH Hstep]; [apply reach_init|].
    destruct (wstep_sq _ _ _ Hstep) as [->|]; [done|]. by eapply reach_step.
  - enough (answers_inv respond w) as [? _] by done.
    induction Hw as [|w w' _ IH Hstep]; [by split_and!|]. by eapply wstep_answers.
Qed.

(** Until the window is closed, the program built by the window is a
    run of the interleaving model of [Session], so its theorems (every
    answer shown is spoken once) hold for the running window. *)
Theorem window_open_sreach respond mic_list w :
  wreach respond mic_list w -> running w = true -> sreach respond false (sess w).
Proof.
  induction 1 as [|w w' _ IH Hstep]; intros Hr; [constructor|].
  destruct (wstep_open _ _ _ Hstep Hr) as [Hr0 [->|H]]; [by apply IH|].
  eapply sreach_step; [by apply IH|done].
Qed.

(** C27: an answer a voice thread shows just before the window is closed
    is put on the speech queue behind the stop signal; the worker leaves
    its loop at the stop signal, and no continuation of the run ever
    speaks it. *)
Theorem answer_lost_on_close :
  exists w, wreach (get_response sample_store) ["mic"] w /\
    shown (sess w) = ["Hi there!"] /\ put_texts (sess w) = ["Hi there!"] /\
    forall w', rtc (wstep (get_response sample_store)) w w' -> spoken (sq (win (sess w'))) = [].
Proof.
  destruct (wrun (get_response sample_store) close_schedule (build_window ["mic"])) as [w|] eqn:E;
    [|vm_compute in E; discriminate].
  exists w. split; [eapply wrun_wreach; [constructor|exact E]|].
  vm_compute in E. injection E as <-. split_and!; [vm_refl|vm_refl|].
  intros w' Hw'. apply wrtc_sq, stopped_frozen in Hw' as (_ & -> & _); [reflexivity|by left].
Qed.

(** C33: the components composed: in an open window whose main thread is
    idle and whose speech worker waits on an empty queue, a question typed
    and sent with Return is shown, answered, shown, and spoken by the
    worker, and the entry box is cleared; the window is then ready for the
    next question. *)
Theorem typed_question_spoken respond w q r :
  running w = true -> ui (sess w) = UIdle ->
  pc (sq (win (sess w))) = SpeechQueue.WGet -> queue (sq (win (sess w))) = [] ->
  py_strip q <> "" -> respond q = Some r ->
  exists w', wrun respond (typed_question q) w = Some w' /\
    chat (win (sess w')) =
      chat (win (sess w)) ++ [("You: " +:+ q) +:+ NL +:+ NL; ("AI:" +:+ NL +:+ r) +:+ NL +:+ NL] /\
    spoken (sq (win (sess w'))) = spoken (sq (win (sess w))) ++ [r] /\
    pc (sq (win (sess w'))) = SpeechQueue.WGet /\ ui (sess w') = UIdle /\ entry (win (sess w')) = "".
Proof.
  intros Hr Hui Hpc Hq Hb Hresp.
  destruct w as [[[e c [qq tpc isp unf sp lg]] p vs] mv mm rn op]; simpl in *; subst rn p qq tpc.
  eexists. split.
  { unfold typed_question, handle, dispatch, with_sess, ui_ask.
    repeat (progress (cbn; rewrite ?(bool_decide_true (UIdle = UIdle) eq_refl), ?(bool_decide_false _ Hb), ?Hresp)).
    reflexivity. }
  cbn. split_and!; try done. by rewrite <- app_assoc.
Qed.

(** ** Witnesses *)

Lemma window_devices_witness :
  exists w, wrun (get_response sample_store) mic_schedule (build_window ["mic0"; "mic1"]) = Some w /\
    opened w = [Some 1; None] /\
    Forall (fun d => d = None \/ exists i, d = Some i /\ 0 < i < 2) (opened w).
Proof.
  destruct (wrun (get_response sample_store) mic_schedule (build_window ["mic0"; "mic1"])) as [w|] eqn:E;
    [|vm_compute in E; discriminate].
  exists w. split_and!; [done|vm_compute in E; by injection E as <-|].
  apply (window_devices (get_response sample_store) ["mic0"; "mic1"]).
  eapply wrun_wreach; [constructor|exact E].
Defined.

Lemma window_queue_sound_witness :
  exists w, wrun (get_response sample_store) close_schedule (build_window ["mic"]) = Some w /\
    reachable (sq (win (sess w))) /\ Forall (put_ok (get_response sample_store)) (log (sq (win (sess w)))).
Proof.
  destruct (wrun (get_response sample_store) close_schedule (build_window ["mic"])) as [w|] eqn:E;
    [|vm_compute in E; discriminate].
  exists w. split; [done|]. apply (window_queue_sound (get_response sample_store) ["mic"]).
  eapply wrun_wreach; [constructor|exact E].
Defined.

Lemma window_open_sreach_witness :
  exists w, wrun (get_response sample_store) mic_schedule (build_window ["mic0"; "mic1"]) = Some w /\
    running w = true /\ sreach (get_response sample_store) false (sess w).
Proof.
  destruct (wrun (get_response sample_store) mic_schedule (build_window ["mic0"; "mic1"])) as [w|] eqn:E;
    [|vm_compute in E; discriminate].
  assert (Hr : running w = true) by (vm_compute in E; by injection E as <-).
  exists w. split_and!; [done|done|]. apply (window_open_sreach (get_response sample_store) ["mic0"; "mic1"]); [|done].
  eapply wrun_wreach; [constructor|exact E].
Defined.

Lemma typed_question_spoken_witness :
  exists w', wrun (get_response sample_store) (typed_question "thanks") (build_window ["mic"]) = Some w' /\
    chat (win (sess w')) = [("You: " +:+ "thanks") +:+ NL +:+ NL; ("AI:" +:+ NL +:+ "You're welcome.") +:+ NL +:+ NL] /\
    spoken (sq (win (sess w'))) = ["You're welcome."] /\
    pc (sq (win (sess w'))) = SpeechQueue.WGet /\ ui (sess w') = UIdle /\ entry (win (sess w')) = "".
Proof.
  apply (typed_question_spoken (get_response sample_store) (build_window ["mic"]) "thanks" "You're welcome.");
    [reflexivity|reflexivity|reflexivity|reflexivity|vm_compute; discriminate|vm_refl].
Defined.

End Window.
