(* ===== verification/ChatBox.v ===== *)
(** * ChatBox: [display_text] statement by statement (src/offline_agent.py lines 137-141, 150)

    The chat box is a Tk [ScrolledText] created read-only
    ([state=tk.DISABLED], line 150).  [display_text] makes four Tk calls:
    it enables the widget, inserts the text, disables the widget again and
    scrolls to the end.  Tk ignores an insertion into a disabled text
    widget, without an error.  The voice threads call [display_text]
    concurrently with each other and with the handlers of the main thread.
    Each Tk call is one step, but Python may switch threads between the
    calls, so the calls of two [display_text] overlap.

    [Shell] and [Session] take [display_text] as one step.  This file keeps
    the widget's [state], runs any number of [display_text] calls in
    flight, and shows three things.  A call that runs without another call
    overlapping it is exactly [Shell.display_text].  In every interleaving
    the chat box holds only lines that were asked for, each at most once,
    and it is read-only whenever no call is in flight.  When two calls
    overlap, a line can be lost. *)

From S2P Require Import Prelude PyStr SpeechQueue Shell.
From stdpp Require Import base list sets strings relations.
From Stdlib Require Import Lia.

Module ChatBox.
Import PyStr SpeechQueue Shell.

Local Open Scope string_scope.
Local Open Scope list_scope.

(** The [state] option of a Tk text widget. *)
Inductive tk_state := NORMAL | DISABLED.

#[export] Instance tk_state_eq_dec : EqDecision tk_state.
Proof. solve_decision. Defined.

Record chat_box := mkChatBox {
  contents : list string;   (** the chunks inserted at [tk.END], in order *)
  state : tk_state;
}.

(** Line 150: [scrolledtext.ScrolledText(root, state=tk.DISABLED, ...)]. *)
Definition chat_box_init : chat_box := mkChatBox [] DISABLED.

(** [chat_box.config(state=st)]. *)
Definition config (st : tk_state) (cb : chat_box) : chat_box := mkChatBox (contents cb) st.

(** [chat_box.insert(tk.END, chars)]: a disabled text widget ignores it. *)
Definition insert_end (chars : string) (cb : chat_box) : chat_box :=
  match state cb with
  | NORMAL => mkChatBox (contents cb ++ [chars]) NORMAL
  | DISABLED => cb
  end.

(** [chat_box.yview(tk.END)] scrolls the view only. *)
Definition yview_end (cb : chat_box) : chat_box := cb.

(** The line [display_text(text)] inserts. *)
Definition line (text : string) : string := text +:+ NL +:+ NL.

(** Statement [pc] of [display_text(text)] (lines 138-141). *)
Definition dt_stmt (text : string) (pc : nat) (cb : chat_box) : chat_box :=
  match pc with
  | 0 => config NORMAL cb
  | 1 => insert_end (line text) cb
  | 2 => config DISABLED cb
  | _ => yview_end cb
  end.

(** [display_text(text)] run without interruption. *)
Definition display_text_tk (text : string) (cb : chat_box) : chat_box :=
  dt_stmt text 3 (dt_stmt text 2 (dt_stmt text 1 (dt_stmt text 0 cb))).

(** A call of [display_text] in flight: its text and its next statement. *)
Record call := mkCall { ctext : string; cpc : nat }.

(** The calls in flight after call [k] ran its statement: it returns after
    its fourth. *)
Definition advance (k : nat) (c : call) (calls : list call) : list call :=
  if Nat.leb 3 (cpc c) then delete k calls else <[k := mkCall (ctext c) (S (cpc c))]> calls.

Record cstate := mkCState {
  box : chat_box;
  calls : list call;       (** the calls in flight *)
  issued : list string;    (** the texts of all the calls made, in order *)
}.

Definition cstate_init : cstate := mkCState chat_box_init [] [].

(** A thread calls [display_text], or a call in flight runs one statement. *)
Inductive cstep : cstate -> cstate -> Prop :=
  | c_call s t : cstep s (mkCState (box s) (calls s ++ [mkCall t 0]) (issued s ++ [t]))
  | c_stmt s k c : calls s !! k = Some c ->
      cstep s (mkCState (dt_stmt (ctext c) (cpc c) (box s)) (advance k c (calls s)) (issued s)).

Inductive creach : cstate -> Prop :=
  | creach_init : creach cstate_init
  | creach_step s s' : creach s -> cstep s s' -> creach s'.

(** Schedules, executable. *)
Inductive caction := CCall (t : string) | CStmt (k : nat).

Definition cact (a : caction) (s : cstate) : option cstate :=
  match a with
  | CCall t => Some (mkCState (box s) (calls s ++ [mkCall t 0]) (issued s ++ [t]))
  | CStmt k => c ← calls s !! k;
      Some (mkCState (dt_stmt (ctext c) (cpc c) (box s)) (advance k c (calls s)) (issued s))
  end.

Fixpoint crun (acts : list caction) (s : cstate) : option cstate :=
  match acts with
  | [] => Some s
  | a :: acts' => s' ← cact a s; crun acts' s'
  end.

(** Two threads call [display_text] with [a] and [b]: both calls enable
    the widget, then the call of [a] inserts its line, disables the widget
    and returns, then the call of [b] inserts, disables and returns. *)
Definition overlap_schedule (a b : string) : list caction :=
  [CCall a; CCall b; CStmt 0; CStmt 1; CStmt 0; CStmt 0; CStmt 0; CStmt 0; CStmt 0; CStmt 0].

(** The calls that have enabled the widget and not yet disabled it. *)
Definition writer (c : call) : option string :=
  match cpc c with 1 | 2 => Some (ctext c) | _ => None end.

(** The lines of the calls that have not inserted yet. *)
Definition unwritten (c : call) : option string :=
  match cpc c with 0 | 1 => Some (line (ctext c)) | _ => None end.

(** The invariant of the chat box: the widget is only enabled while some
    call is between its two [config]s, and the lines shown together with
    the lines still to be inserted are lines asked for, each at most once. *)
Definition chat_inv (s : cstate) : Prop :=
  (state (box s) = NORMAL -> omap writer (calls s) <> []) /\
  contents (box s) ++ omap unwritten (calls s) ⊆+ map line (issued s).

(** ** The steps on the summaries of the calls in flight *)

Lemma advance_split (f : call -> option string) calls k c :
  calls !! k = Some c ->
  exists l1 l2, omap f calls = l1 ++ option_list (f c) ++ l2 /\
    omap f (advance k c calls) =
      l1 ++ option_list (if Nat.leb 3 (cpc c) then None else f (mkCall (ctext c) (S (cpc c)))) ++ l2.
Proof.
  intros Hk. exists (omap f (take k calls)), (omap f (drop (S k) calls)).
  split; [by apply omap_lookup_split|]. unfold advance.
  destruct (Nat.leb 3 (cpc c)); [apply omap_delete_split|by apply (omap_insert_split _ _ _ c)].
Qed.

Lemma app_middle_neq {A} (l1 l2 : list A) x : l1 ++ [x] ++ l2 <> [].
Proof. by destruct l1. Qed.

Lemma cstep_inv s s' : chat_inv s -> cstep s s' -> chat_inv s'.
Proof.
  intros [Hw Hl]. destruct 1 as [s t|s k c Hk]; unfold chat_inv; simpl.
  - split.
    + intros Hn. rewrite omap_app. specialize (Hw Hn). by destruct (omap writer (calls s)).
    + rewrite omap_app, map_app, app_assoc. by apply submseteq_skips_r.
  - destruct (advance_split writer _ _ _ Hk) as (w1 & w2 & Ew & ->).
    destruct (advance_split unwritten _ _ _ Hk) as (u1 & u2 & Eu & ->).
    rewrite Eu in Hl. rewrite Ew in Hw.
    destruct c as [t [|[|[|p]]]]; simpl in *.
    + split; [intros _; apply app_middle_neq|done].
    + split; [intros _; apply app_middle_neq|].
      unfold insert_end. destruct (state (box s)); simpl.
      * etrans; [|exact Hl]. apply Permutation_submseteq. solve_Permutation.
      * etrans; [|exact Hl]. apply submseteq_skips_l, submseteq_skips_l, (submseteq_inserts_l [line t]). done.
    + split; [done|done].
    + done.
Qed.

Lemma creach_inv s : creach s -> chat_inv s.
Proof.
  induction 1 as [|s s' _ IH Hs]; [split; [done|simpl; done]|].
  exact (cstep_inv _ _ IH Hs).
Qed.

Lemma cact_cstep a s s' : cact a s = Some s' -> cstep s s'.
Proof.
  destruct a as [t|k]; cbn; [intros [= <-]; apply c_call|].
  destruct (calls s !! k) as [c|] eqn:Hk; [|done]. intros [= <-]. by apply c_stmt.
Qed.

Lemma crun_creach acts s s' : creach s -> crun acts s = Some s' -> creach s'.
Proof.
  revert s. induction acts as [|a acts IH]; intros s Hs; cbn; [by intros [= <-]|].
  destruct (cact a s) as [s1|] eqn:E; [|done].
  intros Hrun. apply (IH s1); [|done]. eapply creach_step; [done|]. by apply (cact_cstep a).
Qed.

(** ** Theorems *)

(** C14: [display_text] run without another call overlapping it inserts
    its line after the chat box's contents and leaves the widget disabled,
    whatever state it found the widget in: it is the one-step
    [Shell.display_text] of the other files. *)
Theorem display_text_tk_refines text cb sh :
  contents cb = chat sh ->
  display_text_tk text cb = mkChatBox (chat (display_text text sh)) DISABLED.
Proof. intros Hc. destruct cb as [c st]; simpl in Hc; subst c. reflexivity. Qed.

(** C15: in every interleaving of [display_text] calls, the chat box is
    read-only whenever no call is in flight, and it holds only lines that
    were asked for, each line at most as many times as it was asked for. *)
Theorem chat_box_safe s :
  creach s ->
  (calls s = [] -> state (box s) = DISABLED) /\ contents (box s) ⊆+ map line (issued s).
Proof.
  intros Hs. destruct (creach_inv s Hs) as [Hw Hl]. split.
  - intros Hc. destruct (state (box s)); [|done]. rewrite Hc in Hw. by destruct Hw.
  - etrans; [|exact Hl]. by apply submseteq_inserts_r.
Qed.

(** C26: from every reachable state with no call in flight, and for any
    two texts [a] and [b], two [display_text] calls can overlap so that
    both enable the widget before either inserts.  The call that enabled
    it first ([a]) then inserts and disables it, and the insertion of the
    call that enabled it second ([b]) is silently ignored.  Both calls
    return, the widget is left disabled, and the chat box gains [a]'s
    line only: [b]'s line is lost. *)
Theorem overlapping_display_loses_line s a b :
  creach s -> calls s = [] ->
  exists s', crun (overlap_schedule a b) s = Some s' /\ creach s' /\ calls s' = [] /\
    issued s' = issued s ++ [a; b] /\ box s' = mkChatBox (contents (box s) ++ [line a]) DISABLED.
Proof.
  intros Hs Hc. destruct s as [[c st] cl iss]; simpl in Hc; subst cl.
  set (s' := mkCState (mkChatBox (c ++ [line a]) DISABLED) [] ((iss ++ [a]) ++ [b])).
  assert (E : crun (overlap_schedule a b) (mkCState (mkChatBox c st) [] iss) = Some s') by reflexivity.
  exists s'. split_and!; [done|by eapply crun_creach|done|unfold s'; simpl; by rewrite <- app_assoc|done].
Qed.

(** ** Witnesses *)

Lemma display_text_tk_refines_witness :
  display_text_tk "Listening..." (mkChatBox ["You: hi"] DISABLED) =
  mkChatBox (chat (display_text "Listening..." (mkShell "" ["You: hi"] sq_init))) DISABLED.
Proof. apply display_text_tk_refines. reflexivity. Defined.

Lemma chat_box_safe_witness :
  exists s, crun (overlap_schedule "Listening..." ("AI:" +:+ NL +:+ "You're welcome.")) cstate_init = Some s /\
    (calls s = [] -> state (box s) = DISABLED) /\ contents (box s) ⊆+ map line (issued s).
Proof.
  destruct (crun (overlap_schedule "Listening..." ("AI:" +:+ NL +:+ "You're welcome.")) cstate_init) as [s|] eqn:E;
    [|vm_compute in E; discriminate].
  exists s. split; [done|]. apply chat_box_safe. eapply crun_creach; [constructor|exact E].
Defined.

Lemma overlapping_display_loses_line_witness :
  exists s', crun (overlap_schedule "Listening..." ("AI:" +:+ NL +:+ "You're welcome.")) cstate_init = Some s' /\
    creach s' /\ calls s' = [] /\ issued s' = ["Listening..."; "AI:" +:+ NL +:+ "You're welcome."] /\
    box s' = mkChatBox [line "Listening..."] DISABLED.
Proof. apply (overlapping_display_loses_line cstate_init); [constructor|reflexivity]. Defined.

End ChatBox.
